(** * pfd: the rdtsc-based fine-grained profiler of ccbench

    A shallow embedding of [src/pfd.c]: the deviation analyser
    [get_abs_deviation], the helper [median_non_zero_ticks], the direct
    measurement [measure_minimum_tick_delta], the calibration routine
    [pfd_store_init] and the collector [pfd_collect_abs_deviation],
    followed by the properties of the specification that were checked
    against them and by further properties of the same functions.

    Conventions.
    - [ticks] is [uint64_t]; a value is a [Z] in [[0, 2^64)] and every
      arithmetic result is wrapped with [wrap64].  [uint32_t] counters are
      wrapped with [wrap32].
    - [double] is IEEE-754 binary64, taken from the reference semantics
      [SpecFloat] of the standard library ([prec = 53], [emax = 1024]); every
      operation is evaluated in double precision, without contraction.
    - An array together with its element count is a [list]; the loops of
      [get_abs_deviation] run an [uint32_t] index against a [size_t] bound,
      so they only terminate when the count is below [2^32], which is what
      both callers pass ([uint32_t] arguments). *)

From Stdlib Require Import ZArith List Bool Lia.
From Stdlib Require Import Sorting.Permutation Sorting.Sorted.
From Stdlib Require Import Floats.SpecFloat.
Import ListNotations.
Local Open Scope Z_scope.

(** ** Machine integers *)

Definition ticks := Z.

Definition UINT64_MAX : Z := 18446744073709551615.

Definition wrap64 (z : Z) : ticks := z mod 2 ^ 64.

Definition wrap32 (z : Z) : Z := z mod 2 ^ 32.

Definition is_ticks (v : Z) : Prop := 0 <= v < 2 ^ 64.

(** [(int64_t) v]: the two's complement reading of a 64-bit pattern. *)
Definition to_int64 (v : ticks) : Z := if v <? 2 ^ 63 then v else v - 2 ^ 64.

(** ** Doubles *)

Definition double := spec_float.

Definition prec : Z := 53.
Definition emax : Z := 1024.

Definition dadd : double -> double -> double := SFadd prec emax.
Definition dsub : double -> double -> double := SFsub prec emax.
Definition dmul : double -> double -> double := SFmul prec emax.
Definition ddiv : double -> double -> double := SFdiv prec emax.
Definition dsqrt : double -> double := SFsqrt prec emax.
Definition dneg : double -> double := SFopp.

(** [a < b], [a <= b], [a == b] of C: false as soon as an operand is NaN. *)
Definition dlt : double -> double -> bool := SFltb.
Definition dle : double -> double -> bool := SFleb.
Definition deq : double -> double -> bool := SFeqb.

(** [(double) z] for an integer [z]: round to nearest, ties to even. *)
Definition of_Z (z : Z) : double := binary_normalize prec emax z 0 false.

Definition NAN : double := S754_nan.

Definition DBL_MAX : double := S754_finite false 9007199254740991 971.

Definition isfinite (x : double) : bool :=
  match x with
  | S754_zero _ | S754_finite _ _ _ => true
  | S754_infinity _ | S754_nan => false
  end.

(** The fractional literals of the source, as binary64 values. *)
Definition c_0_1 : double := S754_finite false 7205759403792794 (-56).
Definition c_0_25 : double := S754_finite false 4503599627370496 (-54).
Definition c_0_5 : double := S754_finite false 4503599627370496 (-53).
Definition c_0_75 : double := S754_finite false 6755399441055744 (-53).

(** The integer part of a double (truncation toward zero). *)
Definition Ztrunc (x : double) : Z :=
  match x with
  | S754_finite s m e =>
      let a := match e with
               | Zneg p => Z.shiftr (Zpos m) (Zpos p)
               | _ => Z.shiftl (Zpos m) e
               end in
      if s then - a else a
  | _ => 0
  end.

(** [(ticks) x].  C defines the conversion only when the truncated value
    fits [uint64_t]; [pfd_store_init] clamps its argument before converting.
    Outside that range the model wraps (and maps NaN and infinities to 0). *)
Definition double_to_ticks (x : double) : ticks := wrap64 (Ztrunc x).

(** [absd] (pfd.c, l.374). *)
Definition absd (x : double) : double :=
  if dle (of_Z 0) x then x else dneg x.

(** ** The deviation summary

    [abs_deviation_t] is declared in pfd.h; the fields are the ones pfd.c
    reads and writes. *)

Record abs_deviation_t := {
  num_vals : Z;
  avg : double;
  abs_dev : double;
  std_dev : double;
  min_val : double;
  min_val_idx : Z;
  max_val : double;
  max_val_idx : Z;
  num_dev_10p : Z;
  num_dev_25p : Z;
  num_dev_50p : Z;
  num_dev_75p : Z;
  num_dev_rst : Z;
  avg_10p : double;
  avg_25p : double;
  avg_50p : double;
  avg_75p : double;
  avg_rst : double;
  abs_dev_10p : double;
  abs_dev_25p : double;
  abs_dev_50p : double;
  abs_dev_75p : double;
  abs_dev_rst : double;
  std_dev_10p : double;
  std_dev_25p : double;
  std_dev_50p : double;
  std_dev_75p : double;
  std_dev_rst : double
}.

(** ** [get_abs_deviation] (pfd.c, l.449-600) *)

Definition PFD_VAL_UP_LIMIT : Z := 1500.

(** The body of the first loop (l.459-462): an entry that is negative as
    [int64_t] or above the limit is overwritten with 0. *)
Definition clip (v : ticks) : ticks :=
  if (to_int64 v <? 0) || (PFD_VAL_UP_LIMIT <? v) then 0 else v.

(** [sum_vals += vals[i]] over the clipped array (l.463). *)
Definition sum_ticks (vals : list ticks) : ticks :=
  fold_left (fun s v => wrap64 (s + v)) vals 0.

(** The five deviation bands; the source repeats the same statements once
    per band. *)
Inductive band := B10p | B25p | B50p | B75p | Brst.

Record per_band (A : Type) := Bands {
  at_10p : A; at_25p : A; at_50p : A; at_75p : A; at_rst : A
}.
Arguments Bands {A}.
Arguments at_10p {A}.
Arguments at_25p {A}.
Arguments at_50p {A}.
Arguments at_75p {A}.
Arguments at_rst {A}.

Definition bget {A} (b : band) (p : per_band A) : A :=
  match b with
  | B10p => at_10p p | B25p => at_25p p | B50p => at_50p p
  | B75p => at_75p p | Brst => at_rst p
  end.

Definition bupd {A} (b : band) (f : A -> A) (p : per_band A) : per_band A :=
  match b with
  | B10p => Bands (f (at_10p p)) (at_25p p) (at_50p p) (at_75p p) (at_rst p)
  | B25p => Bands (at_10p p) (f (at_25p p)) (at_50p p) (at_75p p) (at_rst p)
  | B50p => Bands (at_10p p) (at_25p p) (f (at_50p p)) (at_75p p) (at_rst p)
  | B75p => Bands (at_10p p) (at_25p p) (at_50p p) (f (at_75p p)) (at_rst p)
  | Brst => Bands (at_10p p) (at_25p p) (at_50p p) (at_75p p) (f (at_rst p))
  end.

(** The cutoffs [dev_10p .. dev_75p] (l.471-474), computed from the global
    average. *)
Definition dev_10p (avg : double) : double := dmul c_0_1 avg.
Definition dev_25p (avg : double) : double := dmul c_0_25 avg.
Definition dev_50p (avg : double) : double := dmul c_0_5 avg.
Definition dev_75p (avg : double) : double := dmul c_0_75 avg.

(** The [if / else if] chain on [ad] (l.494-518 and l.547-581). *)
Definition band_of (avg ad : double) : band :=
  if dle ad (dev_10p avg) then B10p
  else if dle ad (dev_25p avg) then B25p
  else if dle ad (dev_50p avg) then B50p
  else if dle ad (dev_75p avg) then B75p
  else Brst.

(** The variables live across the second loop (l.479-522). *)
Record pass1 := {
  p_max_val : double;
  p_min_val : double;
  p_max_val_idx : Z;
  p_min_val_idx : Z;
  p_num_dev : per_band Z;
  p_sum_vals : per_band ticks;
  p_sum_adev : double;
  p_sum_stdev : double
}.

Definition pass1_init : pass1 :=
  {| p_max_val := of_Z 0;
     p_min_val := DBL_MAX;
     p_max_val_idx := 0;
     p_min_val_idx := 0;
     p_num_dev := Bands 0 0 0 0 0;
     p_sum_vals := Bands 0 0 0 0 0;
     p_sum_adev := of_Z 0;
     p_sum_stdev := of_Z 0 |}.

(** One iteration of the second loop. *)
Definition pass1_step (avg : double) (i : Z) (v : ticks) (s : pass1) : pass1 :=
  let diff := dsub (of_Z v) avg in
  let ad := absd diff in
  let upd_max := dlt (p_max_val s) (of_Z v) in
  let upd_min := negb upd_max && dlt (of_Z v) (p_min_val s) in
  let b := band_of avg ad in
  {| p_max_val := if upd_max then of_Z v else p_max_val s;
     p_min_val := if upd_min then of_Z v else p_min_val s;
     p_max_val_idx := if upd_max then i else p_max_val_idx s;
     p_min_val_idx := if upd_min then i else p_min_val_idx s;
     p_num_dev := bupd b (fun n => wrap32 (n + 1)) (p_num_dev s);
     p_sum_vals := bupd b (fun t => wrap64 (t + v)) (p_sum_vals s);
     p_sum_adev := dadd (p_sum_adev s) ad;
     p_sum_stdev := dadd (p_sum_stdev s) (dmul ad ad) |}.

(** [for (i = ...; i < num_vals; i++) body], with [i] an [uint32_t]. *)
Fixpoint for_each {S : Type} (body : Z -> ticks -> S -> S)
         (i : Z) (vals : list ticks) (s : S) : S :=
  match vals with
  | [] => s
  | v :: rest => for_each body (wrap32 (i + 1)) rest (body i v s)
  end.

(** The accumulators of the third loop (l.539-582). *)
Record pass2 := {
  p_sum_adev_b : per_band double;
  p_sum_stdev_b : per_band double
}.

Definition pass2_init : pass2 :=
  {| p_sum_adev_b := Bands (of_Z 0) (of_Z 0) (of_Z 0) (of_Z 0) (of_Z 0);
     p_sum_stdev_b := Bands (of_Z 0) (of_Z 0) (of_Z 0) (of_Z 0) (of_Z 0) |}.

Definition pass2_step (avg : double) (band_avg : per_band double)
           (i : Z) (v : ticks) (s : pass2) : pass2 :=
  let diff := dsub (of_Z v) avg in
  let ad := absd diff in
  let b := band_of avg ad in
  let diff' := dsub (of_Z v) (bget b band_avg) in
  let ad' := absd diff' in
  {| p_sum_adev_b := bupd b (fun x => dadd x ad') (p_sum_adev_b s);
     p_sum_stdev_b := bupd b (fun x => dadd x (dmul ad' ad')) (p_sum_stdev_b s) |}.

(** [get_abs_deviation vals] returns the array as the call leaves it and the
    summary written through [abs_dev]; [num_vals] is the length of [vals]. *)
Definition get_abs_deviation (vals : list ticks) : list ticks * abs_deviation_t :=
  let n := Z.of_nat (length vals) in
  let vals' := map clip vals in
  let sum_vals := sum_ticks vals' in
  let avg := ddiv (of_Z sum_vals) (of_Z n) in
  let p := for_each (pass1_step avg) 0 vals' pass1_init in
  let band_avg :=
    Bands (ddiv (of_Z (at_10p (p_sum_vals p))) (of_Z (at_10p (p_num_dev p))))
          (ddiv (of_Z (at_25p (p_sum_vals p))) (of_Z (at_25p (p_num_dev p))))
          (ddiv (of_Z (at_50p (p_sum_vals p))) (of_Z (at_50p (p_num_dev p))))
          (ddiv (of_Z (at_75p (p_sum_vals p))) (of_Z (at_75p (p_num_dev p))))
          (ddiv (of_Z (at_rst (p_sum_vals p))) (of_Z (at_rst (p_num_dev p)))) in
  let q := for_each (pass2_step avg band_avg) 0 vals' pass2_init in
  let band_dev (b : band) := ddiv (bget b (p_sum_adev_b q)) (of_Z (bget b (p_num_dev p))) in
  let band_std (b : band) :=
    dsqrt (ddiv (bget b (p_sum_stdev_b q)) (of_Z (bget b (p_num_dev p)))) in
  (vals',
   {| num_vals := n;
      avg := avg;
      abs_dev := ddiv (p_sum_adev p) (of_Z n);
      std_dev := dsqrt (ddiv (p_sum_stdev p) (of_Z n));
      min_val := p_min_val p;
      min_val_idx := p_min_val_idx p;
      max_val := p_max_val p;
      max_val_idx := p_max_val_idx p;
      num_dev_10p := at_10p (p_num_dev p);
      num_dev_25p := at_25p (p_num_dev p);
      num_dev_50p := at_50p (p_num_dev p);
      num_dev_75p := at_75p (p_num_dev p);
      num_dev_rst := at_rst (p_num_dev p);
      avg_10p := at_10p band_avg;
      avg_25p := at_25p band_avg;
      avg_50p := at_50p band_avg;
      avg_75p := at_75p band_avg;
      avg_rst := at_rst band_avg;
      abs_dev_10p := band_dev B10p;
      abs_dev_25p := band_dev B25p;
      abs_dev_50p := band_dev B50p;
      abs_dev_75p := band_dev B75p;
      abs_dev_rst := band_dev Brst;
      std_dev_10p := band_std B10p;
      std_dev_25p := band_std B25p;
      std_dev_50p := band_std B50p;
      std_dev_75p := band_std B75p;
      std_dev_rst := band_std Brst |}).

(** ** The process state

    [clock] is the cycle counter: the [k]-th call of [getticks] returns
    [clock k].  [heap_ok] answers the calls of [malloc] in order, and
    [fresh k i] is what entry [i] of the block returned by the [k]-th call
    holds: C leaves the content of new memory indeterminate.  [stdout]
    collects the diagnostics, oldest first.  [rounds] and [failed] are ghost
    counters (not variables of the program): the measurement rounds run and
    the rounds rejected by the quality gate. *)

Inductive line :=
| warn_recalculating (avg std_pp : double)      (* l.201 *)
| warn_manual                                   (* l.210 *)
| warn_median (avg : double)                    (* l.215 *)
| warn_unknown_arch                             (* l.233 *)
| warn_non_finite                               (* l.257 *)
| warn_direct_delta (measured : ticks)          (* l.272 *)
| warn_le_zero_default                          (* l.278 and l.325 *)
| warn_clamp_one                                (* l.288 *)
| warn_clamp_max                                (* l.299 *)
| warn_rounded_zero                             (* l.311 *)
| warn_enforce_direct (c : ticks)               (* l.346 *)
| warn_fallback_conservative (c : ticks)        (* l.362 *)
| set_correction (c : ticks) (std_pp : double)  (* l.370 *)
| sample_line (i : Z) (value : Z)               (* l.436: "[%3d: %4ld] " *)
| statistics (ad : abs_deviation_t).            (* l.441: print_abs_deviation *)

Record state := {
  clock : nat -> Z;
  now : nat;
  heap_ok : nat -> bool;
  fresh : nat -> nat -> Z;
  brk : nat;
  pfd_store : list (list ticks);
  _pfd_s : list ticks;
  pfd_correction : ticks;
  stdout : list line;
  rounds : nat;
  failed : nat
}.

Definition set_now (k : nat) (st : state) : state :=
  {| clock := clock st; now := k; heap_ok := heap_ok st;
     fresh := fresh st; brk := brk st;
     pfd_store := pfd_store st; _pfd_s := _pfd_s st;
     pfd_correction := pfd_correction st; stdout := stdout st;
     rounds := rounds st; failed := failed st |}.

Definition set_brk (k : nat) (st : state) : state :=
  {| clock := clock st; now := now st; heap_ok := heap_ok st;
     fresh := fresh st; brk := k;
     pfd_store := pfd_store st; _pfd_s := _pfd_s st;
     pfd_correction := pfd_correction st; stdout := stdout st;
     rounds := rounds st; failed := failed st |}.

Definition set_pfd_store (m : list (list ticks)) (st : state) : state :=
  {| clock := clock st; now := now st; heap_ok := heap_ok st;
     fresh := fresh st; brk := brk st;
     pfd_store := m; _pfd_s := _pfd_s st;
     pfd_correction := pfd_correction st; stdout := stdout st;
     rounds := rounds st; failed := failed st |}.

Definition set_pfd_s (m : list ticks) (st : state) : state :=
  {| clock := clock st; now := now st; heap_ok := heap_ok st;
     fresh := fresh st; brk := brk st;
     pfd_store := pfd_store st; _pfd_s := m;
     pfd_correction := pfd_correction st; stdout := stdout st;
     rounds := rounds st; failed := failed st |}.

Definition set_pfd_correction (c : ticks) (st : state) : state :=
  {| clock := clock st; now := now st; heap_ok := heap_ok st;
     fresh := fresh st; brk := brk st;
     pfd_store := pfd_store st; _pfd_s := _pfd_s st;
     pfd_correction := c; stdout := stdout st;
     rounds := rounds st; failed := failed st |}.

Definition printf (l : line) (st : state) : state :=
  {| clock := clock st; now := now st; heap_ok := heap_ok st;
     fresh := fresh st; brk := brk st;
     pfd_store := pfd_store st; _pfd_s := _pfd_s st;
     pfd_correction := pfd_correction st; stdout := stdout st ++ [l];
     rounds := rounds st; failed := failed st |}.

Definition count_round (st : state) : state :=
  {| clock := clock st; now := now st; heap_ok := heap_ok st;
     fresh := fresh st; brk := brk st;
     pfd_store := pfd_store st; _pfd_s := _pfd_s st;
     pfd_correction := pfd_correction st; stdout := stdout st;
     rounds := S (rounds st); failed := failed st |}.

Definition count_failed (st : state) : state :=
  {| clock := clock st; now := now st; heap_ok := heap_ok st;
     fresh := fresh st; brk := brk st;
     pfd_store := pfd_store st; _pfd_s := _pfd_s st;
     pfd_correction := pfd_correction st; stdout := stdout st;
     rounds := rounds st; failed := S (failed st) |}.

Definition getticks (st : state) : ticks * state :=
  (wrap64 (clock st (now st)), set_now (S (now st)) st).

Definition malloc (st : state) : bool * state :=
  (heap_ok st (brk st), set_brk (S (brk st)) st).

(** The [n] entries of the block that the [k]-th call of [malloc] returns,
    as they are before the program writes them. *)
Definition fresh_block (st : state) (k n : nat) : list ticks :=
  map (fun i => wrap64 (fresh st k i)) (seq 0 n).

(** [a[i] = v] on a list; the program never writes out of bounds. *)
Fixpoint upd {A : Type} (i : nat) (v : A) (l : list A) : list A :=
  match l, i with
  | [], _ => []
  | _ :: r, O => v :: r
  | x :: r, S j => x :: upd j v r
  end.

Definition slot (s : nat) (st : state) : list ticks := nth s (pfd_store st) [].

Definition set_slot (s : nat) (vals : list ticks) (st : state) : state :=
  set_pfd_store (upd s vals (pfd_store st)) st.

(** Modelled from the spec: the number of slots [PFD_NUM_STORES] of pfd.h,
    "a fixed small constant known at build time"; only slot 0 is used by
    the code below. *)
Definition PFD_NUM_STORES : nat := 2.

(** Modelled from the spec: the markers [PFDI] and [PFDO] of pfd.h, which
    "read the cycle counter immediately before and after" the probed code
    and store the delta at the given index of the given slot. *)
Definition PFDI (store : nat) (st : state) : state :=
  let '(t, st) := getticks st in
  set_pfd_s (upd store t (_pfd_s st)) st.

Definition PFDO (store entry : nat) (st : state) : state :=
  let '(t, st) := getticks st in
  set_slot store (upd entry (wrap64 (t - nth store (_pfd_s st) 0)) (slot store st)) st.

(** ** [measure_minimum_tick_delta] (pfd.c, l.45-69) *)

Fixpoint min_delta_loop (attempts : nat) (best : ticks) (st : state) : ticks * state :=
  match attempts with
  | O => (best, st)
  | S k =>
      let '(start, st) := getticks st in
      let '(end_, st) := getticks st in
      let delta := wrap64 (end_ - start) in
      let best := if (0 <? delta) && (delta <? best) then delta else best in
      min_delta_loop k best st
  end.

Definition measure_minimum_tick_delta (attempts : nat) (st : state) : ticks * state :=
  let '(best, st) := min_delta_loop attempts UINT64_MAX st in
  (if best =? UINT64_MAX then 0 else best, st).

(** ** [median_non_zero_ticks] (pfd.c, l.71-133) *)

Definition ticks_compare (a b : ticks) : Z :=
  if a <? b then -1 else if b <? a then 1 else 0.

(** [qsort] of the C library, by its contract: the array is left sorted
    for the comparison function.  Insertion sort realises it. *)
Fixpoint qsort_insert (cmp : ticks -> ticks -> Z) (x : ticks) (l : list ticks) : list ticks :=
  match l with
  | [] => [x]
  | y :: r => if cmp x y <=? 0 then x :: l else y :: qsort_insert cmp x r
  end.

Definition qsort (cmp : ticks -> ticks -> Z) (l : list ticks) : list ticks :=
  fold_right (qsort_insert cmp) [] l.

Definition nthZ (i : Z) (l : list ticks) : ticks := nth (Z.to_nat i) l 0.

Definition median_non_zero_ticks (samples : list ticks) (st : state) : double * state :=
  if Z.of_nat (length samples) =? 0 then (NAN, st)
  else
    let '(ok, st) := malloc st in
    if negb ok then (NAN, st)
    else
      let scratch := filter (fun value => negb (value =? 0)) samples in
      let count := Z.of_nat (length scratch) in
      if count =? 0 then (NAN, st)
      else
        let sorted := qsort ticks_compare scratch in
        let median :=
          if Z.land count 1 =? 0
          then ddiv (dadd (of_Z (nthZ (count / 2 - 1) sorted))
                          (of_Z (nthZ (count / 2) sorted)))
                    (of_Z 2)
          else of_Z (nthZ (count / 2) sorted) in
        (median, st).

(** ** [pfd_store_init] (pfd.c, l.135-372) *)

(** The build-time hardware flags tested by the file. *)
Inductive arch :=
| OPTERON | OPTERON2 | XEON | XEON2 | NIAGARA | RYZEN53600 | i3_7020U
| DEFAULT | unknown_arch.

Definition PFD_CONSERVATIVE_DEFAULT : double := of_Z 32.

(** The [#if] chain of l.220-242; [None] is the [#else] branch. *)
Definition arch_default (a : arch) : option double :=
  match a with
  | OPTERON => Some (of_Z 64)
  | OPTERON2 => Some (of_Z 68)
  | XEON | XEON2 => Some (of_Z 20)
  | NIAGARA => Some (of_Z 76)
  | RYZEN53600 => Some (of_Z 32)
  | i3_7020U => Some (of_Z 25)
  | DEFAULT | unknown_arch => None
  end.

Inductive assertion :=
| assert_tables      (* l.154 *)
| assert_slot        (* l.160 *)
| assert_correction. (* l.367 *)

Inductive outcome :=
| Returns (st : state)
| AssertionFailed (a : assertion) (st : state).

(** l.157-162: one [malloc] per slot, each followed by its assertion.
    [pfd_store] lists the slots assigned so far.  The result is [true] with
    the state after the loop, or [false] with the state in which the
    assertion fails. *)
Fixpoint alloc_slots (k : nat) (num_entries : nat) (st : state) : bool * state :=
  match k with
  | O => (true, st)
  | S k' =>
      let block := fresh_block st (brk st) num_entries in
      let '(ok, st) := malloc st in
      if ok
      then alloc_slots k' num_entries (set_pfd_store (pfd_store st ++ [block]) st)
      else (false, st)
  end.

(** l.181-186: one measurement round into slot 0. *)
Fixpoint measure_loop (k : nat) (i : nat) (st : state) : state :=
  match k with
  | O => st
  | S k' => measure_loop k' (S i) (PFDO 0 i (PFDI 0 st))
  end.

Definition measure_round (num_entries : nat) (st : state) : state :=
  count_round (measure_loop num_entries 0 st).

Definition PFD_CORRECTION_CONF : Z := 3.

(** l.190-194. *)
Definition quality (ad : abs_deviation_t) : double :=
  if isfinite (avg ad) && negb (deq (avg ad) (of_Z 0))
  then dmul (of_Z 100)
            (dsub (of_Z 1) (ddiv (dsub (avg ad) (std_dev ad)) (avg ad)))
  else NAN.

Definition printed (std_pp : double) : double :=
  if isfinite std_pp then std_pp else of_Z 0.

(** l.209-244: the fallback once the retries are used up; returns the
    value stored in [ad.avg]. *)
Definition manual_correction (a : arch) (st : state) : double * state :=
  let st := printf warn_manual st in
  let '(manual_avg, st) := median_non_zero_ticks (slot 0 st) st in
  if isfinite manual_avg && dlt (of_Z 0) manual_avg
  then (manual_avg, printf (warn_median manual_avg) st)
  else match arch_default a with
       | Some c => (c, st)
       | None => (PFD_CONSERVATIVE_DEFAULT, printf warn_unknown_arch st)
       end.

(** l.180-245: the [retry] loop.  [tries] counts down from 10 and
    [print_warning] up from 0; the result is [ad.avg] and [std_pp] as the
    loop leaves them. *)
Fixpoint calibrate (a : arch) (num_entries : nat) (tries : nat) (print_warning : Z)
         (st : state) : double * double * state :=
  let st := measure_round num_entries st in
  let '(vals, ad) := get_abs_deviation (slot 0 st) in
  let st := set_slot 0 vals st in
  let std_pp := quality ad in
  if dlt (of_Z PFD_CORRECTION_CONF) std_pp
  then
    let st := count_failed st in
    let st := if print_warning =? 1
              then printf (warn_recalculating (avg ad) (printed std_pp)) st
              else st in
    let print_warning := wrap32 (print_warning + 1) in
    match tries with
    | S tries' => calibrate a num_entries tries' print_warning st
    | O => let '(m, st) := manual_correction a st in (m, std_pp, st)
    end
  else (avg ad, std_pp, st).

(** l.250-290. *)
Definition sanitize (corrected_avg : double) (st : state) : double * state :=
  if negb (isfinite corrected_avg)
  then (PFD_CONSERVATIVE_DEFAULT, printf warn_non_finite st)
  else if dle corrected_avg (of_Z 0)
  then
    let '(measured, st) := measure_minimum_tick_delta 64 st in
    if 0 <? measured
    then (of_Z measured, printf (warn_direct_delta measured) st)
    else (PFD_CONSERVATIVE_DEFAULT, printf warn_le_zero_default st)
  else if dlt corrected_avg (of_Z 1)
  then (of_Z 1, printf warn_clamp_one st)
  else (corrected_avg, st).

(** l.292-314. *)
Definition round_correction (corrected_avg : double) (st : state) : ticks * state :=
  if dle (of_Z UINT64_MAX) corrected_avg
  then (UINT64_MAX, printf warn_clamp_max st)
  else
    let correction := double_to_ticks (dadd corrected_avg c_0_5) in
    if correction =? 0
    then (1, printf warn_rounded_zero st)
    else (correction, st).

(** l.331-365: [pfd_correction <= 0] on an unsigned value. *)
Definition enforce_positive (std_pp : double) (st : state) : double * state :=
  if pfd_correction st <=? 0
  then
    let '(measured, st) := measure_minimum_tick_delta 64 st in
    if 0 <? measured
    then (printed std_pp,
          printf (warn_enforce_direct measured) (set_pfd_correction measured st))
    else
      let c := double_to_ticks (dadd PFD_CONSERVATIVE_DEFAULT c_0_5) in
      let c := if c =? 0 then 1 else c in
      (printed std_pp,
       printf (warn_fallback_conservative c) (set_pfd_correction c st))
  else (std_pp, st).

(** l.247-371. *)
Definition finish (ad_avg std_pp : double) (st : state) : outcome :=
  let '(corrected_avg, st) := sanitize ad_avg st in
  let '(correction, st) := round_correction corrected_avg st in
  let st := if dle ad_avg (of_Z 0) then printf warn_le_zero_default st else st in
  let st := set_pfd_correction correction st in
  let '(std_pp, st) := enforce_positive std_pp st in
  if 0 <? pfd_correction st
  then Returns (printf (set_correction (pfd_correction st) (printed std_pp)) st)
  else AssertionFailed assert_correction st.

(** l.138-162 and l.177: release the previous store, allocate the new one
    and reset the correction. *)
Definition pfd_store_alloc (num_entries : nat) (st : state) : state + assertion * state :=
  (* l.138-150 *)
  let st := set_pfd_s [] (set_pfd_store [] st) in
  (* l.152-154 *)
  let marks := fresh_block st (brk st) PFD_NUM_STORES in
  let '(ok_s, st) := malloc st in
  let st := if ok_s then set_pfd_s marks st else st in
  let '(ok_store, st) := malloc st in
  if negb (ok_s && ok_store) then inr (assert_tables, st)
  else
    (* l.157-162 *)
    match alloc_slots PFD_NUM_STORES num_entries st with
    | (false, st) => inr (assert_slot, st)
    | (true, st) => inl (set_pfd_correction 0 st) (* l.177 *)
    end.

Definition pfd_store_init (a : arch) (num_entries : nat) (st : state) : outcome :=
  match pfd_store_alloc num_entries st with
  | inr (failed_assertion, st) => AssertionFailed failed_assertion st
  | inl st =>
      (* l.164-165, l.180-245 *)
      let '(ad_avg, std_pp, st) := calibrate a num_entries 10 0 st in
      (* l.247-371 *)
      finish ad_avg std_pp st
  end.

(** ** Notions used in the statements and proofs *)

(** [0 <= (int64_t) v <= PFD_VAL_UP_LIMIT]: the sample is kept by the
    analyser. *)
Definition in_range (v : ticks) : Prop := 0 <= to_int64 v <= PFD_VAL_UP_LIMIT.

(** The state of the second loop of [get_abs_deviation] when it ends. *)
Definition pass1_of (vals : list ticks) : pass1 :=
  let vals' := map clip vals in
  let avg := ddiv (of_Z (sum_ticks vals')) (of_Z (Z.of_nat (length vals))) in
  for_each (pass1_step avg) 0 vals' pass1_init.

(** The lines a call appended to [stdout]. *)
Definition printed_since (before after : state) : list line :=
  skipn (length (stdout before)) (stdout after).

Definition is_recalculating (l : line) : bool :=
  match l with warn_recalculating _ _ => true | _ => false end.

(** The median of a sorted, non-empty list of ticks, as the specification
    words it: the middle element, or the mean of the two middle elements. *)
Definition middle (sorted : list ticks) : double :=
  let count := Z.of_nat (length sorted) in
  if Z.even count
  then ddiv (dadd (of_Z (nthZ (count / 2 - 1) sorted)) (of_Z (nthZ (count / 2) sorted)))
            (of_Z 2)
  else of_Z (nthZ (count / 2) sorted).

Definition counted (p : per_band Z) : Z :=
  at_10p p + at_25p p + at_50p p + at_75p p + at_rst p.

Definition nonneg_bands (p : per_band Z) : Prop :=
  0 <= at_10p p /\ 0 <= at_25p p /\ 0 <= at_50p p /\ 0 <= at_75p p /\ 0 <= at_rst p.

(** Sample [j] of [l] is positive and greater than every earlier sample:
    it takes the [max] branch of the loop in [get_abs_deviation]. *)
Definition new_maximum (l : list ticks) (j : nat) : Prop :=
  exists v, nth_error l j = Some v /\ 0 < v /\
            forall i u, (i < j)%nat -> nth_error l i = Some u -> u < v.

(** The invariant of the [max]/[min] tracking after [k] iterations over [l]. *)
Definition extremes_inv (l : list ticks) (k : nat) (s : pass1) : Prop :=
  exists M,
    p_max_val s = of_Z M /\ 0 <= M <= 1500 /\
    (forall j v, (j < k)%nat -> nth_error l j = Some v -> v <= M) /\
    ((M = 0 /\ p_max_val_idx s = 0) \/
     (0 < M /\ exists jm, p_max_val_idx s = Z.of_nat jm /\ (jm < k)%nat /\
                          nth_error l jm = Some M /\
                          forall i u, (i < jm)%nat -> nth_error l i = Some u -> u < M)) /\
    ((p_min_val s = DBL_MAX /\ p_min_val_idx s = 0 /\
      forall j, (j < k)%nat -> new_maximum l j) \/
     (exists jn m, p_min_val_idx s = Z.of_nat jn /\ (jn < k)%nat /\
                   nth_error l jn = Some m /\ p_min_val s = of_Z m /\
                   exists j, (j < k)%nat /\ ~ new_maximum l j)).

(** ** Example processes

    [boot c h] is a process that has not initialised its store yet, with
    cycle counter [c] and allocator answers [h], in which new memory
    happens to hold zeros.  [tsc_of deltas] is a
    cycle counter that advances by the successive [deltas] inside each
    pair of readings, stands still between pairs and stops once [deltas]
    is used up. *)
Definition boot (c : nat -> Z) (h : nat -> bool) : state :=
  {| clock := c; now := 0; heap_ok := h; fresh := fun _ _ => 0; brk := 0;
     pfd_store := []; _pfd_s := []; pfd_correction := 0;
     stdout := []; rounds := 0; failed := 0 |}.

Definition tsc_of (deltas : list Z) : nat -> Z :=
  fun k => fold_right Z.add 0 (firstn (Nat.div2 (S k)) deltas).

Definition always_ok : nat -> bool := fun _ => true.

(** The state in which [pfd_store_init] enters its [retry] loop. *)
Definition allocated (num_entries : nat) (st : state) : state :=
  match pfd_store_alloc num_entries st with
  | inl st1 => st1
  | inr (_, st1) => st1
  end.

Definition steady_samples : list ticks := [20; 20; 20; 20; 20; 20; 20; 20; 21; 19].

Definition noisy_then_steady : list Z :=
  [10; 40; 10; 40; 10; 40; 10; 40; 20; 20; 20; 20].

(** The quality of the round [steady_samples]: 2.236... *)
Definition steady_quality : double := S754_finite false 5035177455121550 (-51).

(** A cycle counter that stands still during the first twenty readings and
    advances by three cycles per reading afterwards. *)
Definition frozen_then_running : nat -> Z :=
  fun k => if (k <? 20)%nat then 7 else 3 * Z.of_nat k.

(** Rounding: a shift record is exact when nothing was shifted out. *)
Definition exact (mrs : shr_record) : bool := negb (shr_r mrs) && negb (shr_s mrs).

Definition shr_rel (n : Z) (a b : shr_record) : Prop :=
  0 <= shr_m a ->
  0 <= shr_m b /\ shr_m b = shr_m a / 2 ^ n /\
  (exact b = true <-> exact a = true /\ shr_m a mod 2 ^ n = 0).

Definition below (m e mb eb : Z) : Prop := e <= eb /\ m <= mb * 2 ^ (eb - e).
Definition above (m e k : Z) : Prop := 0 < m /\ (e <= k -> 2 ^ (k - e) <= m).
Definition canonical (m e : Z) : Prop := fexp prec emax (Zdigits2 m + e) = e.
Definition slack (l : location) : Z := match l with loc_Exact => 0 | _ => 1 end.

(** A non-zero [uint64_t] converts to a double in [[1, 2^64]]. *)
Definition in_1_2_64 (x : spec_float) : Prop :=
  exists m e, x = S754_finite false m e /\
              below (Zpos m) e 4503599627370496 12 /\ above (Zpos m) e 0 /\ -52 <= e.

(** ** The attempts of the [retry] loop, one by one

    The specification describes the loop of [pfd_store_init] attempt by
    attempt: measure, analyse, accept the round when its quality does not
    exceed the threshold, otherwise try again, at most ten more times,
    with a diagnostic after the second failed attempt.  The definitions
    below spell this description out; [calibrate] is compared with it. *)








(** ** Notions used for the remaining functions *)

(** The delta of the [k]-th pair of back-to-back readings taken from state
    [st] on (pfd.c, l.52-55). *)
Definition delta_at (st : state) (k : nat) : ticks :=
  wrap64 (wrap64 (clock st (now st + 2 * k + 1)%nat) - wrap64 (clock st (now st + 2 * k)%nat)).

(** A delta that the loop of [measure_minimum_tick_delta] can keep: it is
    positive and below the initial [best]. *)
Definition usable (d : ticks) : Prop := 0 < d < UINT64_MAX.

(** The two diagnostics of the block that enforces a positive correction
    (pfd.c, l.331-365). *)
Definition is_enforcement (l : line) : bool :=
  match l with
  | warn_enforce_direct _ | warn_fallback_conservative _ => true
  | _ => false
  end.

(** ** The bands, sample by sample *)

Definition band_eqb (a b : band) : bool :=
  match a, b with
  | B10p, B10p | B25p, B25p | B50p, B50p | B75p, B75p | Brst, Brst => true
  | _, _ => false
  end.

(** The band of sample [v] for the global average [avg]: both loops of
    [get_abs_deviation] decide it from [absd (v - avg)]. *)
Definition sample_band (avg : double) (v : ticks) : band :=
  band_of avg (absd (dsub (of_Z v) avg)).

(** The samples of [l] that fall in band [b], in order. *)
Definition members (avg : double) (b : band) (l : list ticks) : list ticks :=
  filter (fun v => band_eqb (sample_band avg v) b) l.

Definition total (l : list ticks) : Z := fold_right Z.add 0 l.

(** The fields of the summary, band by band. *)
Definition ad_num_dev (b : band) (ad : abs_deviation_t) : Z :=
  match b with
  | B10p => num_dev_10p ad | B25p => num_dev_25p ad | B50p => num_dev_50p ad
  | B75p => num_dev_75p ad | Brst => num_dev_rst ad
  end.

Definition ad_avg (b : band) (ad : abs_deviation_t) : double :=
  match b with
  | B10p => avg_10p ad | B25p => avg_25p ad | B50p => avg_50p ad
  | B75p => avg_75p ad | Brst => avg_rst ad
  end.

Definition ad_abs_dev (b : band) (ad : abs_deviation_t) : double :=
  match b with
  | B10p => abs_dev_10p ad | B25p => abs_dev_25p ad | B50p => abs_dev_50p ad
  | B75p => abs_dev_75p ad | Brst => abs_dev_rst ad
  end.

Definition ad_std_dev (b : band) (ad : abs_deviation_t) : double :=
  match b with
  | B10p => std_dev_10p ad | B25p => std_dev_25p ad | B50p => std_dev_50p ad
  | B75p => std_dev_75p ad | Brst => std_dev_rst ad
  end.

(** ** [pfd_collect_abs_deviation] (pfd.c, l.424-447)

    The call writes to the same [stdout] as [pfd_store_init].  The text of
    [print_abs_deviation] is not modelled: its line carries the summary it
    is passed. *)

(** [(int) i] for an [uint32_t], as [%d] reads it. *)
Definition to_int32 (i : Z) : Z := if i <? 2 ^ 31 then i else i - 2 ^ 32.

(** The loop of l.434-437 over the entries it visits. *)
Fixpoint print_values (i : Z) (vals : list ticks) (st : state) : state :=
  match vals with
  | [] => st
  | v :: rest =>
      print_values (wrap32 (i + 1)) rest (printf (sample_line (to_int32 i) (to_int64 v)) st)
  end.

(** [out] is [NULL] when [want_out] is false.  The call reads
    [pfd_store[store][0 .. num_vals-1]]; [None] stands for a call that reads
    outside the store, which C leaves undefined. *)
Definition pfd_collect_abs_deviation (store num_vals num_print : nat) (want_out : bool)
           (st : state) : option (option abs_deviation_t * state) :=
  let p := if (num_vals <? num_print)%nat then num_vals else num_print in
  if (store <? length (pfd_store st))%nat && (num_vals <=? length (slot store st))%nat
  then
    let raw := firstn num_vals (slot store st) in
    let st := print_values 0 (firstn p raw) st in
    let '(vals, ad) := get_abs_deviation raw in
    let st := set_slot store (vals ++ skipn num_vals (slot store st)) st in
    let st := printf (statistics ad) st in
    Some (if want_out then Some ad else None, st)
  else None.

(** The lines "[index: value]" for the entries [vals], the first of which
    has index [k]. *)
Fixpoint sample_lines (k : nat) (vals : list ticks) : list line :=
  match vals with
  | [] => []
  | v :: rest => sample_line (to_int32 (Z.of_nat k)) (to_int64 v) :: sample_lines (S k) rest
  end.

(** ** Initialising again

    What [pfd_store_init] may depend on: the cycle counter, the allocator
    and what has been printed and counted.  Two states related by
    [same_machine] may differ in the store, the start marks and the
    correction left by an earlier call, and in what new memory holds. *)
Definition same_machine (s t : state) : Prop :=
  clock s = clock t /\ now s = now t /\ heap_ok s = heap_ok t /\ brk s = brk t /\
  stdout s = stdout t /\ rounds s = rounds t /\ failed s = failed t.

(** Two runs between the allocations and the end of the [retry] loop: both
    own a store and start marks of the right shape, slot 0 has [n] entries,
    and the correction is the same. *)
Definition same_run (n : nat) (s t : state) : Prop :=
  same_machine s t /\ pfd_correction s = pfd_correction t /\
  pfd_store s <> [] /\ pfd_store t <> [] /\
  length (pfd_store s) = length (pfd_store t) /\
  _pfd_s s <> [] /\ _pfd_s t <> [] /\
  length (slot 0 s) = n /\ length (slot 0 t) = n.

(** Two states at the end of the [retry] loop or later: what a caller can
    observe of the calibration is the same. *)
Definition same_outcome (s t : state) : Prop :=
  same_machine s t /\ pfd_correction s = pfd_correction t /\
  slot 0 s = slot 0 t /\ length (pfd_store s) = length (pfd_store t).

(** A state left by earlier use of the library, at the same point of the
    machine's history as [boot c h]: a store, start marks and a correction
    are in place, and new memory holds old data. *)
Definition reused (c : nat -> Z) (h : nat -> bool) : state :=
  {| clock := c; now := 0; heap_ok := h;
     fresh := fun k i => 1000 * Z.of_nat k + Z.of_nat i + 7; brk := 0;
     pfd_store := [[1; 2; 3]; [4]]; _pfd_s := [9; 9]; pfd_correction := 5;
     stdout := []; rounds := 0; failed := 0 |}.

(** ** Proof steps used repeatedly *)

Ltac leb_cases :=
  repeat match goal with
         | |- context [?a <=? ?b] => destruct (Z.leb_spec a b)
         end;
  cbn [andb length]; auto; lia.

Ltac st_simpl :=
  cbn [clock now heap_ok fresh brk pfd_store _pfd_s pfd_correction stdout rounds failed
       set_now set_brk set_pfd_store set_pfd_s set_pfd_correction printf
       count_round count_failed set_slot fst snd length filter is_recalculating app].

Ltac st_simpl_in H :=
  cbn [clock now heap_ok fresh brk pfd_store _pfd_s pfd_correction stdout rounds failed
       set_now set_brk set_pfd_store set_pfd_s set_pfd_correction printf
       count_round count_failed set_slot fst snd length filter is_recalculating app] in H.


Ltac same_tac :=
  unfold same_outcome, same_run, same_machine, slot in *; st_simpl; intuition congruence.

(** * Binary64: what rounding preserves *)

Lemma fexp_eq e : fexp prec emax e = Z.max (e - 53) (-1074).
Proof. unfold fexp, emin, prec, emax. lia. Qed.

Lemma digits2_pos_size p : digits2_pos p = Pos.size p.
Proof. induction p; simpl; congruence. Qed.

Lemma Zdigits2_log2 p : Zdigits2 (Zpos p) = Z.log2 (Zpos p) + 1.
Proof.
  unfold Zdigits2. rewrite digits2_pos_size.
  destruct p; simpl; lia.
Qed.

Lemma Zdigits2_nonneg m : 0 <= m -> 0 <= Zdigits2 m.
Proof. destruct m; simpl; lia. Qed.

Lemma Zdigits2_spec m : 0 < m -> 2 ^ (Zdigits2 m - 1) <= m < 2 ^ Zdigits2 m.
Proof.
  intros H. destruct m as [|p|p]; try lia.
  rewrite Zdigits2_log2.
  replace (Z.log2 (Z.pos p) + 1 - 1) with (Z.log2 (Z.pos p)) by lia.
  replace (Z.log2 (Z.pos p) + 1) with (Z.succ (Z.log2 (Z.pos p))) by lia.
  apply Z.log2_spec. lia.
Qed.

Lemma Zdigits2_le a b : 0 <= a <= b -> Zdigits2 a <= Zdigits2 b.
Proof.
  intros [Ha Hab]. destruct a as [|p|p]; try lia.
  - apply Zdigits2_nonneg. lia.
  - destruct b as [|q|q]; try lia.
    rewrite !Zdigits2_log2. apply Z.add_le_mono_r. apply Z.log2_le_mono. lia.
Qed.

Lemma Zdigits2_mul_pow2 m k : 0 < m -> 0 <= k -> Zdigits2 (m * 2 ^ k) = Zdigits2 m + k.
Proof.
  intros Hm Hk.
  assert (0 < m * 2 ^ k) by (apply Z.mul_pos_pos; [lia | apply Z.pow_pos_nonneg; lia]).
  destruct m as [|p|p]; try lia.
  destruct (Z.pos p * 2 ^ k) as [|q|q] eqn:E; try lia.
  rewrite !Zdigits2_log2, <- E, Z.log2_mul_pow2 by lia. lia.
Qed.

Lemma Zdigits2_pow2 k : 0 <= k -> Zdigits2 (2 ^ k) = k + 1.
Proof.
  intros Hk. replace (2 ^ k) with (1 * 2 ^ k) by lia.
  rewrite Zdigits2_mul_pow2 by lia. change (Zdigits2 1) with 1. lia.
Qed.

Lemma Zdigits2_ge_pow2 m k : 0 <= k -> 2 ^ k <= m -> k + 1 <= Zdigits2 m.
Proof.
  intros Hk H. rewrite <- (Zdigits2_pow2 k) by lia. apply Zdigits2_le.
  split; [apply Z.pow_nonneg; lia | exact H].
Qed.

(** shr *)

Lemma loc_exact_iff mrs : loc_of_shr_record mrs = loc_Exact <-> exact mrs = true.
Proof. destruct mrs as [m [|] [|]]; unfold exact; simpl; split; intros; congruence. Qed.


Lemma shr_rel_1 a : shr_rel 1 a (shr_1 a).
Proof.
  intros Ha. destruct a as [m r s]. simpl in Ha.
  destruct m as [|[p|p|]|p]; try lia; unfold exact; simpl shr_m; simpl shr_r; simpl shr_s; cbn [shr_1].
  all: change (2 ^ 1) with 2.
  - split; [lia|]. split; [reflexivity|]. simpl. destruct r, s; simpl; intuition congruence.
  - split; [lia|]. split.
    + rewrite Pos2Z.inj_xI. apply Z.div_unique with (r := 1); lia.
    + rewrite Pos2Z.inj_xI. replace ((2 * Z.pos p + 1) mod 2) with 1.
      * destruct r, s; simpl; intuition (try congruence; try lia).
      * apply Z.mod_unique with (q := Z.pos p); lia.
  - split; [lia|]. split.
    + rewrite Pos2Z.inj_xO. apply Z.div_unique with (r := 0); lia.
    + rewrite Pos2Z.inj_xO. replace ((2 * Z.pos p) mod 2) with 0.
      * destruct r, s; simpl; intuition (try congruence; try lia).
      * apply Z.mod_unique with (q := Z.pos p); lia.
  - split; [lia|]. split; [reflexivity|].
    change (1 mod 2) with 1. destruct r, s; simpl; intuition (try congruence; try lia).
Qed.

Lemma mod_pow2_split m a b : 0 <= m -> 0 <= a -> 0 <= b ->
  (m mod 2 ^ (a + b) = 0 <-> m mod 2 ^ a = 0 /\ (m / 2 ^ a) mod 2 ^ b = 0).
Proof.
  intros Hm Ha Hb.
  assert (0 < 2 ^ a) by (apply Z.pow_pos_nonneg; lia).
  assert (0 < 2 ^ b) by (apply Z.pow_pos_nonneg; lia).
  rewrite Z.pow_add_r by lia.
  rewrite Z.rem_mul_r by lia.
  pose proof (Z.mod_pos_bound m (2 ^ a) ltac:(lia)).
  pose proof (Z.mod_pos_bound (m / 2 ^ a) (2 ^ b) ltac:(lia)).
  split; [intros | intros [-> ->]; lia]. nia.
Qed.

Lemma shr_rel_trans a b x y z : 0 <= a -> 0 <= b ->
  shr_rel a x y -> shr_rel b y z -> shr_rel (a + b) x z.
Proof.
  intros Ha Hb Hxy Hyz Hx.
  destruct (Hxy Hx) as (Hy & Hym & Hye).
  destruct (Hyz Hy) as (Hz & Hzm & Hze).
  split; [exact Hz|]. split.
  - assert (0 < 2 ^ a) by (apply Z.pow_pos_nonneg; lia).
    assert (0 < 2 ^ b) by (apply Z.pow_pos_nonneg; lia).
    rewrite Hzm, Hym, Z.pow_add_r by lia.
    apply Z.div_div; lia.
  - rewrite Hze, Hye, (mod_pow2_split (shr_m x) a b) by lia.
    rewrite Hym. tauto.
Qed.

Lemma shr_rel_iter p a : shr_rel (Zpos p) a (iter_pos shr_1 p a).
Proof.
  revert a. induction p as [p IH|p IH|]; intros a; simpl iter_pos.
  - replace (Z.pos p~1) with (1 + (Z.pos p + Z.pos p)) by lia.
    apply shr_rel_trans with (y := shr_1 a); try lia.
    + apply shr_rel_1.
    + apply shr_rel_trans with (y := iter_pos shr_1 p (shr_1 a)); try lia; apply IH.
  - replace (Z.pos p~0) with (Z.pos p + Z.pos p) by lia.
    apply shr_rel_trans with (y := iter_pos shr_1 p a); try lia; apply IH.
  - apply shr_rel_1.
Qed.

Lemma shr_record_of_loc_m m l : shr_m (shr_record_of_loc m l) = m.
Proof. destruct l as [|[| |]]; reflexivity. Qed.

Lemma loc_of_shr_record_of_loc m l : loc_of_shr_record (shr_record_of_loc m l) = l.
Proof. destruct l as [|[| |]]; reflexivity. Qed.

(** what [shr_fexp] returns *)
Lemma shr_fexp_spec mx ex lx : 0 <= mx ->
  let n := Z.max 0 (fexp prec emax (Zdigits2 mx + ex) - ex) in
  let '(mrs, e) := shr_fexp prec emax mx ex lx in
  e = ex + n /\ shr_m mrs = mx / 2 ^ n /\
  (loc_of_shr_record mrs = loc_Exact <-> lx = loc_Exact /\ mx mod 2 ^ n = 0).
Proof.
  intros Hmx n. unfold shr_fexp, shr.
  destruct (fexp prec emax (Zdigits2 mx + ex) - ex) as [|p|p] eqn:E; subst n.
  - change (Z.max 0 0) with 0. rewrite Z.pow_0_r, Z.div_1_r, Z.mod_1_r.
    rewrite shr_record_of_loc_m, loc_of_shr_record_of_loc. intuition lia.
  - replace (Z.max 0 (Z.pos p)) with (Z.pos p) by lia.
    pose proof (shr_rel_iter p (shr_record_of_loc mx lx)) as H.
    unfold shr_rel in H. rewrite shr_record_of_loc_m in H.
    destruct (H Hmx) as (_ & Hm & He).
    split; [reflexivity|]. split; [exact Hm|].
    rewrite loc_exact_iff, He, <- loc_exact_iff, loc_of_shr_record_of_loc. tauto.
  - replace (Z.max 0 (Z.neg p)) with 0 by lia. rewrite Z.pow_0_r, Z.div_1_r, Z.mod_1_r.
    rewrite shr_record_of_loc_m, loc_of_shr_record_of_loc. intuition lia.
Qed.

Lemma round_nearest_even_bounds m l :
  m <= round_nearest_even m l <= m + 1 /\ (l = loc_Exact -> round_nearest_even m l = m).
Proof.
  destruct l as [|[| |]]; simpl; try destruct (Z.even m); split; try lia; try congruence; auto.
Qed.

(** bounds *)

Lemma pow2_pos k : 0 <= k -> 0 < 2 ^ k.
Proof. intros. apply Z.pow_pos_nonneg; lia. Qed.

Lemma pow2_split a b : 0 <= a -> 0 <= b -> 2 ^ (a + b) = 2 ^ a * 2 ^ b.
Proof. intros. apply Z.pow_add_r; lia. Qed.

Lemma below_digits m e mb eb : 0 <= m -> 0 < mb -> below m e mb eb ->
  Zdigits2 m + e <= Zdigits2 mb + eb.
Proof.
  intros Hm Hmb [He Hle].
  assert (Zdigits2 m <= Zdigits2 (mb * 2 ^ (eb - e))) by (apply Zdigits2_le; lia).
  rewrite Zdigits2_mul_pow2 in H by lia. lia.
Qed.

Lemma shr_fexp_below mx ex lx mb eb :
  0 <= mx -> 0 < mb -> canonical mb eb ->
  ex <= eb -> mx + slack lx <= mb * 2 ^ (eb - ex) ->
  let '(mrs, e) := shr_fexp prec emax mx ex lx in
  let r := round_nearest_even (shr_m mrs) (loc_of_shr_record mrs) in
  0 <= shr_m mrs /\ shr_m mrs <= r /\ below r e mb eb.
Proof.
  intros Hmx Hmb Hcan Hex Hle.
  pose proof (shr_fexp_spec mx ex lx Hmx) as Hspec. cbv zeta in Hspec.
  destruct (shr_fexp prec emax mx ex lx) as [mrs e].
  destruct Hspec as (He & Hm & Hloc).
  set (n := Z.max 0 (fexp prec emax (Zdigits2 mx + ex) - ex)) in *.
  assert (Hn : 0 <= n) by (unfold n; lia).
  assert (Hs : 0 <= slack lx) by (destruct lx; simpl; lia).
  assert (Hd : Zdigits2 mx + ex <= Zdigits2 mb + eb)
    by (apply below_digits; [lia | lia | split; lia]).
  assert (Hee : e <= eb).
  { unfold canonical in Hcan. rewrite fexp_eq in Hcan. unfold n in He. rewrite fexp_eq in He. lia. }
  assert (Hpn : 0 < 2 ^ n) by (apply pow2_pos; lia).
  assert (Hsplit : mb * 2 ^ (eb - ex) = 2 ^ n * (mb * 2 ^ (eb - e))).
  { replace (eb - ex) with (n + (eb - e)) by lia. rewrite pow2_split by lia. ring. }
  set (B := mb * 2 ^ (eb - e)) in *.
  assert (Hm0 : 0 <= shr_m mrs) by (rewrite Hm; apply Z.div_pos; lia).
  destruct (round_nearest_even_bounds (shr_m mrs) (loc_of_shr_record mrs)) as [[Hr1 Hr2] Hr3].
  cbv zeta. split; [exact Hm0|]. split; [exact Hr1|]. split; [exact Hee|].
  fold B.
  destruct (loc_of_shr_record mrs) eqn:El.
  - rewrite Hr3 by reflexivity. rewrite Hm. apply Z.div_le_upper_bound; lia.
  - assert (Hlt : mx < 2 ^ n * B).
    { destruct lx as [|c'].
      - simpl in Hle.
        destruct (Z.eq_dec (mx mod 2 ^ n) 0) as [E0|E0].
        + assert (loc_Inexact c = loc_Exact) by (apply Hloc; auto). discriminate.
        + assert (mx <> 2 ^ n * B).
          { intros E. apply E0. rewrite E, Z.mul_comm. apply Z.mod_mul. lia. }
          lia.
      - simpl in Hle. lia. }
    assert (shr_m mrs < B) by (rewrite Hm; apply Z.div_lt_upper_bound; lia).
    lia.
Qed.

Lemma bra_below sx mx ex lx mb eb :
  0 <= mx -> 0 < mb -> canonical mb eb -> eb <= 971 ->
  ex <= eb -> mx + slack lx <= mb * 2 ^ (eb - ex) ->
  binary_round_aux prec emax sx mx ex lx = S754_zero sx \/
  exists m e, binary_round_aux prec emax sx mx ex lx = S754_finite sx m e /\
              below (Zpos m) e mb eb.
Proof.
  intros Hmx Hmb Hcan Heb Hex Hle. unfold binary_round_aux.
  pose proof (shr_fexp_below mx ex lx mb eb Hmx Hmb Hcan Hex Hle) as H1.
  destruct (shr_fexp prec emax mx ex lx) as [mrs1 e1]. cbv zeta in H1.
  destruct H1 as (H1a & H1b & H1c & H1d).
  set (r1 := round_nearest_even (shr_m mrs1) (loc_of_shr_record mrs1)) in *.
  assert (H2 : 0 <= r1) by lia.
  pose proof (shr_fexp_below r1 e1 loc_Exact mb eb H2 Hmb Hcan H1c) as H3.
  simpl slack in H3. rewrite Z.add_0_r in H3. specialize (H3 H1d).
  destruct (shr_fexp prec emax r1 e1 loc_Exact) as [mrs2 e2]. cbv zeta in H3.
  destruct H3 as (H3a & H3b & H3c & H3d).
  destruct (shr_m mrs2) as [|m|m] eqn:Em; try lia.
  - left. reflexivity.
  - right. exists m, e2.
    replace (e2 <=? emax - prec) with true
      by (symmetry; apply Z.leb_le; unfold emax, prec; lia).
    split; [reflexivity|]. split; lia.
Qed.

Lemma above_digits m e k : above m e k -> k + 1 <= Zdigits2 m + e.
Proof.
  intros [Hm Hk].
  destruct (Z_le_gt_dec e k) as [Hek|Hek].
  - assert (k - e + 1 <= Zdigits2 m) by (apply Zdigits2_ge_pow2; auto; lia). lia.
  - assert (0 + 1 <= Zdigits2 m) by (apply Zdigits2_ge_pow2; simpl; lia). lia.
Qed.

Lemma shr_fexp_above mx ex lx k :
  above mx ex k -> -1074 <= k ->
  let '(mrs, e) := shr_fexp prec emax mx ex lx in
  above (shr_m mrs) e k /\ fexp prec emax (k + 1) <= e.
Proof.
  intros Hab Hk.
  pose proof (above_digits _ _ _ Hab) as Hd.
  destruct Hab as [Hmx Hpow].
  pose proof (shr_fexp_spec mx ex lx ltac:(lia)) as Hspec. cbv zeta in Hspec.
  destruct (shr_fexp prec emax mx ex lx) as [mrs e].
  destruct Hspec as (He & Hm & _).
  rewrite !fexp_eq in *.
  assert (Hd1 : 0 + 1 <= Zdigits2 mx) by (apply Zdigits2_ge_pow2; simpl; lia).
  set (d := Zdigits2 mx) in *.
  set (n := Z.max 0 (Z.max (d + ex - 53) (-1074) - ex)) in *.
  assert (Hn : 0 <= n) by (unfold n; lia).
  assert (Hnd : n <= d - 1) by (unfold n; lia).
  pose proof (Zdigits2_spec mx Hmx) as [Hlo _]. fold d in Hlo.
  assert (Hpn : 0 < 2 ^ n) by (apply pow2_pos; lia).
  assert (H2n : 2 ^ n <= mx).
  { apply Z.le_trans with (2 ^ (d - 1)); [|exact Hlo]. apply Z.pow_le_mono_r; lia. }
  split; [|unfold n in He; lia].
  split.
  - rewrite Hm. apply Z.lt_le_trans with 1; [lia|].
    apply Z.div_le_lower_bound; lia.
  - intros Hek. rewrite Hm. apply Z.div_le_lower_bound; [lia|].
    rewrite <- pow2_split by lia. replace (n + (k - e)) with (k - ex) by lia.
    apply Hpow. lia.
Qed.

Lemma bra_bounds sx mx ex lx mb eb k :
  0 < mb -> canonical mb eb -> eb <= 971 ->
  ex <= eb -> mx + slack lx <= mb * 2 ^ (eb - ex) ->
  above mx ex k -> -1074 <= k ->
  exists m e, binary_round_aux prec emax sx mx ex lx = S754_finite sx m e /\
              below (Zpos m) e mb eb /\ above (Zpos m) e k /\
              fexp prec emax (k + 1) <= e.
Proof.
  intros Hmb Hcan Heb Hex Hle Hab Hk. unfold binary_round_aux.
  assert (Hmx : 0 <= mx) by (destruct Hab; lia).
  pose proof (shr_fexp_below mx ex lx mb eb Hmx Hmb Hcan Hex Hle) as H1.
  pose proof (shr_fexp_above mx ex lx k Hab Hk) as A1.
  destruct (shr_fexp prec emax mx ex lx) as [mrs1 e1]. cbv zeta in H1.
  destruct H1 as (H1a & H1b & H1c & H1d). destruct A1 as [[A1a A1b] A1c].
  set (r1 := round_nearest_even (shr_m mrs1) (loc_of_shr_record mrs1)) in *.
  assert (H2 : 0 <= r1) by lia.
  assert (A2 : above r1 e1 k).
  { split; [lia|]. intros. specialize (A1b H). lia. }
  pose proof (shr_fexp_below r1 e1 loc_Exact mb eb H2 Hmb Hcan H1c) as H3.
  simpl slack in H3. rewrite Z.add_0_r in H3. specialize (H3 H1d).
  pose proof (shr_fexp_above r1 e1 loc_Exact k A2 Hk) as A3.
  destruct (shr_fexp prec emax r1 e1 loc_Exact) as [mrs2 e2]. cbv zeta in H3.
  destruct H3 as (H3a & H3b & H3c & H3d). destruct A3 as [[A3a A3b] A3c].
  destruct (shr_m mrs2) as [|m|m] eqn:Em; try lia.
  exists m, e2.
  replace (e2 <=? emax - prec) with true
    by (symmetry; apply Z.leb_le; unfold emax, prec; lia).
  split; [reflexivity|]. split; [split; lia|]. split; [split; [lia|exact A3b]|exact A3c].
Qed.


Lemma iter_xO m d : Zpos (Pos.iter xO m d) = Zpos m * 2 ^ Zpos d.
Proof.
  induction d as [|d IH] using Pos.peano_ind.
  - simpl. lia.
  - rewrite Pos.iter_succ, Pos2Z.inj_xO, IH, Pos2Z.inj_succ, Z.pow_succ_r by lia. ring.
Qed.

Lemma shl_align_spec mx ex ex' :
  let '(mz, ez) := shl_align mx ex ex' in
  ez = Z.min ex ex' /\ Zpos mz = Zpos mx * 2 ^ (ex - ez).
Proof.
  unfold shl_align. destruct (ex' - ex) as [|p|p] eqn:E.
  - split; [lia|]. rewrite Z.sub_diag, Z.pow_0_r. lia.
  - split; [lia|]. rewrite Z.sub_diag, Z.pow_0_r. lia.
  - split; [lia|]. rewrite iter_xO. f_equal. f_equal. lia.
Qed.

Lemma below_shl m e m' e' mb eb :
  0 < mb -> e' <= e -> m' = m * 2 ^ (e - e') -> below m e mb eb -> below m' e' mb eb.
Proof.
  intros Hmb He -> [H1 H2]. split; [lia|].
  replace (eb - e') with ((eb - e) + (e - e')) by lia.
  rewrite pow2_split by lia.
  assert (0 < 2 ^ (e - e')) by (apply pow2_pos; lia). nia.
Qed.

Lemma above_shl m e m' e' k :
  e' <= e -> m' = m * 2 ^ (e - e') -> above m e k -> above m' e' k.
Proof.
  intros He -> [H1 H2].
  assert (0 < 2 ^ (e - e')) by (apply pow2_pos; lia).
  split; [nia|]. intros Hk.
  destruct (Z_le_gt_dec e k) as [Hek|Hek].
  - specialize (H2 Hek). replace (k - e') with ((k - e) + (e - e')) by lia.
    rewrite pow2_split by lia. nia.
  - apply Z.le_trans with (2 ^ (e - e')); [apply Z.pow_le_mono_r; lia | nia].
Qed.

Lemma binary_round_bounds sx mx ex mb eb k :
  0 < mb -> canonical mb eb -> eb <= 971 ->
  below (Zpos mx) ex mb eb -> above (Zpos mx) ex k -> -1074 <= k ->
  exists m e, binary_round prec emax sx mx ex = S754_finite sx m e /\
              below (Zpos m) e mb eb /\ above (Zpos m) e k /\
              fexp prec emax (k + 1) <= e.
Proof.
  intros Hmb Hcan Heb Hbe Hab Hk. unfold binary_round.
  pose proof (shl_align_spec mx ex (fexp prec emax (Z.pos (digits2_pos mx) + ex))) as Hs.
  destruct (shl_align mx ex (fexp prec emax (Z.pos (digits2_pos mx) + ex))) as [mz ez].
  destruct Hs as [Hez Hmz].
  assert (Hle : ez <= ex) by lia.
  destruct (below_shl _ _ _ _ _ _ Hmb Hle Hmz Hbe) as [B1 B2].
  apply bra_bounds; auto; try (simpl slack; lia).
  apply (above_shl _ _ _ _ _ Hle Hmz Hab).
Qed.

Lemma bra_canonical sx m e :
  canonical (Zpos m) e -> e <= 971 ->
  binary_round_aux prec emax sx (Zpos m) e loc_Exact = S754_finite sx m e.
Proof.
  intros Hcan He. unfold binary_round_aux, shr_fexp.
  rewrite Hcan, Z.sub_diag. simpl shr. cbv beta iota.
  change (round_nearest_even
            (shr_m {| shr_m := Z.pos m; shr_r := false; shr_s := false |})
            (loc_of_shr_record
               {| shr_m := Z.pos m; shr_r := false; shr_s := false |}))
    with (Z.pos m).
  rewrite Hcan, Z.sub_diag. simpl.
  destruct (Z.leb_spec e 971); [reflexivity | lia].
Qed.

(** Integers below [2^53] convert exactly. *)
Lemma of_Z_exact z : 0 < z < 2 ^ 53 ->
  exists m, of_Z z = S754_finite false m (Zdigits2 z - 53) /\
            Zpos m = z * 2 ^ (53 - Zdigits2 z).
Proof.
  intros [Hz Hlt]. destruct z as [|p|p]; try lia.
  pose proof (Zdigits2_spec (Zpos p) ltac:(lia)) as [Hlo Hhi].
  assert (Hd1 : 0 + 1 <= Zdigits2 (Zpos p)) by (apply Zdigits2_ge_pow2; simpl; lia).
  assert (Hd2 : Zdigits2 (Zpos p) <= 53).
  { destruct (Z_le_gt_dec (Zdigits2 (Zpos p)) 53); auto.
    assert (2 ^ 53 <= 2 ^ (Zdigits2 (Zpos p) - 1)) by (apply Z.pow_le_mono_r; lia). lia. }
  unfold of_Z, binary_normalize, binary_round.
  change (Z.pos (digits2_pos p)) with (Zdigits2 (Zpos p)).
  set (d := Zdigits2 (Zpos p)) in *.
  pose proof (shl_align_spec p 0 (fexp prec emax (d + 0))) as Hs.
  destruct (shl_align p 0 (fexp prec emax (d + 0))) as [mz ez].
  destruct Hs as [Hez Hmz]. rewrite fexp_eq in Hez.
  assert (Ez : ez = d - 53) by lia.
  exists mz. rewrite Ez in *. replace (0 - (d - 53)) with (53 - d) in Hmz by lia.
  split; [|exact Hmz].
  apply bra_canonical; [|lia].
  unfold canonical. rewrite Hmz, Zdigits2_mul_pow2 by lia. fold d.
  rewrite fexp_eq. lia.
Qed.

Lemma slack_le l : 0 <= slack l <= 1.
Proof. destruct l; simpl; lia. Qed.

Lemma shift_match s m : 0 <= s ->
  match s with Z.pos _ => Z.shiftl m s | 0 => m | Z.neg _ => 0 end = m * 2 ^ s.
Proof.
  intros Hs. destruct s as [|p|p]; try lia.
  apply Z.shiftl_mul_pow2. lia.
Qed.

Lemma SFdiv_core_spec m1 e1 m2 e2 :
  let '(q, e', l) := SFdiv_core_binary prec emax (Zpos m1) e1 (Zpos m2) e2 in
  e' = Z.min (fexp prec emax (Zdigits2 (Zpos m1) + e1 - (Zdigits2 (Zpos m2) + e2))) (e1 - e2) /\
  exists r, Zpos m1 * 2 ^ (e1 - e2 - e') = q * Zpos m2 + r /\
            0 <= r < Zpos m2 /\ 0 <= q /\ (r = 0 -> slack l = 0).
Proof.
  unfold SFdiv_core_binary.
  set (e' := Z.min (fexp prec emax (Zdigits2 (Zpos m1) + e1 - (Zdigits2 (Zpos m2) + e2))) (e1 - e2)).
  set (s := e1 - e2 - e').
  assert (Hs : 0 <= s) by (unfold s, e'; lia).
  set (m' := match s with Z.pos _ => Z.shiftl (Z.pos m1) s | 0 => Z.pos m1 | Z.neg _ => 0 end).
  assert (Hm' : m' = Zpos m1 * 2 ^ s).
  { unfold m'. apply shift_match. exact Hs. }
  pose proof (Z_div_mod m' (Zpos m2) ltac:(lia)) as Hdm.
  destruct (Z.div_eucl m' (Z.pos m2)) as [q r].
  destruct Hdm as [Heq Hr].
  split; [reflexivity|]. exists r.
  assert (0 < 2 ^ s) by (apply pow2_pos; lia).
  split; [fold s; rewrite <- Hm', Heq; ring|]. split; [lia|].
  split; [assert (0 <= m') by nia; nia|].
  intros ->. unfold new_location, new_location_even, new_location_odd.
  destruct (Z.even (Z.pos m2)); reflexivity.
Qed.

(** Comparisons read off the bounds. *)
Lemma cmp_cont a b : Pos.compare_cont Eq a b = (Zpos a ?= Zpos b).
Proof. reflexivity. Qed.

Lemma dle_below m e mb eb :
  below (Zpos m) e (Zpos mb) eb ->
  SFleb (S754_finite false m e) (S754_finite false mb eb) = true.
Proof.
  intros [He Hm]. unfold SFleb, SFcompare.
  destruct (Z.compare_spec e eb) as [E|E|E]; try lia; auto.
  subst. rewrite Z.sub_diag, Z.pow_0_r in Hm.
  rewrite cmp_cont.
  destruct (Z.compare_spec (Zpos m) (Zpos mb)); auto; lia.
Qed.

Lemma of_Z_1 : of_Z 1 = S754_finite false 4503599627370496 (-52).
Proof. vm_compute. reflexivity. Qed.

Lemma pow2_52 : 2 ^ 52 = 4503599627370496.
Proof. reflexivity. Qed.

Lemma ge_one m e :
  above (Zpos m) e 0 -> -52 <= e ->
  SFleb (of_Z 1) (S754_finite false m e) = true /\
  SFltb (S754_finite false m e) (of_Z 1) = false.
Proof.
  intros [Hm Hk] He.
  rewrite of_Z_1.
  unfold SFleb, SFltb, SFcompare.
  rewrite !cmp_cont.
  destruct (Z.compare_spec (-52) e) as [E|E|E]; try lia.
  - subst e. rewrite Z.compare_refl.
    specialize (Hk ltac:(lia)). replace (0 - -52) with 52 in Hk by lia. rewrite pow2_52 in Hk.
    destruct (Z.compare_spec 4503599627370496 (Zpos m)) as [E|E|E];
    destruct (Z.compare_spec (Zpos m) 4503599627370496) as [E'|E'|E'];
      try lia; auto.
  - destruct (Z.compare_spec e (-52)) as [E'|E'|E']; try lia; auto.
Qed.

(** Conversions of integers below [2^53] compare as the integers do. *)
Lemma SFcompare_of_Z a b : 0 <= a < 2 ^ 53 -> 0 <= b < 2 ^ 53 ->
  SFcompare (of_Z a) (of_Z b) = Some (a ?= b).
Proof.
  intros Ha Hb.
  destruct (Z.eq_dec a 0) as [->|Ha0]; destruct (Z.eq_dec b 0) as [->|Hb0].
  - reflexivity.
  - destruct (of_Z_exact b ltac:(lia)) as (mb & -> & _).
    replace (of_Z 0) with (S754_zero false) by reflexivity. unfold SFcompare.
    destruct (Z.compare_spec 0 b); try lia; reflexivity.
  - destruct (of_Z_exact a ltac:(lia)) as (ma & -> & _).
    replace (of_Z 0) with (S754_zero false) by reflexivity. unfold SFcompare.
    destruct (Z.compare_spec a 0); try lia; reflexivity.
  - destruct (of_Z_exact a ltac:(lia)) as (ma & -> & Hma).
    destruct (of_Z_exact b ltac:(lia)) as (mb & -> & Hmb).
    pose proof (Zdigits2_spec a ltac:(lia)) as [Ha1 Ha2].
    pose proof (Zdigits2_spec b ltac:(lia)) as [Hb1 Hb2].
    set (da := Zdigits2 a) in *. set (db := Zdigits2 b) in *.
    unfold SFcompare.
    rewrite cmp_cont.
    f_equal.
    destruct (Z.compare_spec (da - 53) (db - 53)) as [E|E|E].
    + assert (da = db) by lia. rewrite Hma, Hmb.
      replace db with da by lia.
      assert (0 <= da) by (apply Zdigits2_nonneg; lia).
      assert (da <= 53).
      { destruct (Z_le_gt_dec da 53); auto.
        assert (2 ^ 53 <= 2 ^ (da - 1)) by (apply Z.pow_le_mono_r; lia). lia. }
      assert (0 < 2 ^ (53 - da)) by (apply pow2_pos; lia).
      destruct (Z.compare_spec a b); destruct (Z.compare_spec (a * 2 ^ (53 - da)) (b * 2 ^ (53 - da)));
        auto; nia.
    + assert (2 ^ da <= 2 ^ (db - 1)) by (apply Z.pow_le_mono_r; lia).
      symmetry. apply Z.compare_lt_iff. lia.
    + assert (2 ^ db <= 2 ^ (da - 1)) by (apply Z.pow_le_mono_r; lia).
      symmetry. apply Z.compare_gt_iff. lia.
Qed.

Lemma of_Z_lt_DBL_MAX v : 0 <= v < 2 ^ 53 ->
  SFltb (of_Z v) (S754_finite false 9007199254740991 971) = true.
Proof.
  intros Hv. destruct (Z.eq_dec v 0) as [->|H0]; [reflexivity|].
  destruct (of_Z_exact v ltac:(lia)) as (m & -> & Hm).
  pose proof (Zdigits2_spec v ltac:(lia)) as [H1 H2].
  assert (Zdigits2 v <= 53).
  { destruct (Z_le_gt_dec (Zdigits2 v) 53); auto.
    assert (2 ^ 53 <= 2 ^ (Zdigits2 v - 1)) by (apply Z.pow_le_mono_r; lia). lia. }
  unfold SFltb, SFcompare.
  destruct (Z.compare_spec (Zdigits2 v - 53) 971); try lia; reflexivity.
Qed.

Lemma Zdigits2_le_53 z : 0 < z < 2 ^ 53 -> 1 <= Zdigits2 z <= 53.
Proof.
  intros Hz. pose proof (Zdigits2_spec z ltac:(lia)) as [H1 H2].
  assert (0 + 1 <= Zdigits2 z) by (apply Zdigits2_ge_pow2; simpl; lia).
  split; [lia|].
  destruct (Z_le_gt_dec (Zdigits2 z) 53); auto.
  assert (2 ^ 53 <= 2 ^ (Zdigits2 z - 1)) by (apply Z.pow_le_mono_r; lia). lia.
Qed.

Lemma canonical_1500 : canonical 6597069766656000 (-42).
Proof. reflexivity. Qed.

Lemma canonical_2_64 : canonical 4503599627370496 12.
Proof. reflexivity. Qed.

Lemma canonical_2_65 : canonical 4503599627370496 13.
Proof. reflexivity. Qed.

(** The quotient of two integers [s <= 1500 * n] is at most 1500. *)
Lemma ddiv_of_Z_below s n :
  0 <= s -> 0 < n < 2 ^ 32 -> s <= 1500 * n ->
  ddiv (of_Z s) (of_Z n) = S754_zero false \/
  exists m e, ddiv (of_Z s) (of_Z n) = S754_finite false m e /\
              below (Zpos m) e 6597069766656000 (-42).
Proof.
  intros Hs Hn Hsn.
  assert (Hn53 : 0 < n < 2 ^ 53).
  { split; [lia|]. apply Z.lt_trans with (2 ^ 32); [lia|]. apply Z.pow_lt_mono_r; lia. }
  destruct (of_Z_exact n Hn53) as (m2 & En & Hm2).
  pose proof (Zdigits2_le_53 n Hn53) as Hdn.
  destruct (Z.eq_dec s 0) as [->|Hs0].
  { left. rewrite En. reflexivity. }
  assert (Hs53 : 0 < s < 2 ^ 53).
  { split; [lia|]. apply Z.le_lt_trans with (1500 * 2 ^ 32); [lia|]. reflexivity. }
  destruct (of_Z_exact s Hs53) as (m1 & Es & Hm1).
  pose proof (Zdigits2_le_53 s Hs53) as Hds.
  assert (Hdsn : Zdigits2 s <= Zdigits2 n + 11).
  { rewrite <- Zdigits2_mul_pow2 by lia. apply Zdigits2_le. change (2 ^ 11) with 2048. lia. }
  set (ds := Zdigits2 s) in *. set (dn := Zdigits2 n) in *.
  rewrite Es, En. unfold ddiv, SFdiv.
  pose proof (SFdiv_core_spec m1 (ds - 53) m2 (dn - 53)) as Hc.
  destruct (SFdiv_core_binary prec emax (Z.pos m1) (ds - 53) (Z.pos m2) (dn - 53))
    as [[q e'] l].
  destruct Hc as (He' & r & Hqr & Hr & Hq & Hl).
  rewrite Hm1, Hm2 in He'. rewrite !Zdigits2_mul_pow2 in He' by lia.
  fold ds dn in He'. rewrite fexp_eq in He'.
  assert (Ee : e' = ds - dn - 53) by lia.
  rewrite Ee in *. replace (ds - 53 - (dn - 53) - (ds - dn - 53)) with 53 in Hqr by lia.
  simpl xorb.
  apply bra_below; auto; try lia.
  - exact canonical_1500.
  - replace (-42 - (ds - dn - 53)) with (11 + dn - ds) by lia.
    rewrite Hm1, Hm2 in Hqr.
    assert (HA : 2 ^ (53 - ds) * 2 ^ 53 = 2 ^ (53 - dn) * (2 ^ 42 * 2 ^ (11 + dn - ds))).
    { rewrite <- !pow2_split by lia. f_equal. lia. }
    assert (0 < 2 ^ (53 - ds)) by (apply pow2_pos; lia).
    assert (0 < 2 ^ (53 - dn)) by (apply pow2_pos; lia).
    assert (0 < 2 ^ (11 + dn - ds)) by (apply pow2_pos; lia).
    change (2 ^ 42) with 4398046511104 in *. change (2 ^ 53) with 9007199254740992 in *.
    set (A := 2 ^ (53 - ds)) in *. set (Bn := 2 ^ (53 - dn)) in *.
    set (C := 2 ^ (11 + dn - ds)) in *.
    rewrite Hm2 in Hr.
    assert (HW : 0 < n * Bn) by nia.
    assert (Hub : q * (n * Bn) + r <= (6597069766656000 * C) * (n * Bn)).
    { replace (q * (n * Bn) + r) with (s * (A * 9007199254740992)) by lia.
      rewrite HA. nia. }
    pose proof (slack_le l) as Hsl.
    set (W := n * Bn) in *. set (U := 6597069766656000 * C) in *.
    destruct (Z.eq_dec r 0) as [Er|Er].
    + rewrite (Hl Er). assert (q <= U) by nia. lia.
    + assert (q < U) by nia. lia.
Qed.

(** A cutoff [c * avg], with [0 < c < 2^53 * 2^ec], [ec <= 0], of an average in
    [[0, 1500]] is a finite, non-negative double. *)
Lemma dmul_cutoff mc ec a :
  Zpos mc < 2 ^ 53 -> ec <= 0 ->
  (a = S754_zero false \/
   exists m e, a = S754_finite false m e /\ below (Zpos m) e 6597069766656000 (-42)) ->
  dmul (S754_finite false mc ec) a = S754_zero false \/
  exists m e, dmul (S754_finite false mc ec) a = S754_finite false m e.
Proof.
  intros Hmc Hec [->|(m & e & -> & He & Hm)].
  - left. reflexivity.
  - unfold dmul, SFmul. simpl xorb.
    destruct (bra_below false (Zpos (mc * m)) (ec + e) loc_Exact 4503599627370496 12)
      as [H|(m' & e' & H & _)]; try lia.
    + exact canonical_2_64.
    + simpl slack. rewrite Z.add_0_r, Pos2Z.inj_mul.
      replace (12 - (ec + e)) with ((54 - ec) + (-42 - e)) by lia.
      rewrite pow2_split by lia.
      assert (0 < 2 ^ (-42 - e)) by (apply pow2_pos; lia).
      assert (2 ^ 54 <= 2 ^ (54 - ec)) by (apply Z.pow_le_mono_r; lia).
      change (2 ^ 53) with 9007199254740992 in *.
      change (2 ^ 54) with 18014398509481984 in *.
      set (P := 2 ^ (-42 - e)) in *. set (Q := 2 ^ (54 - ec)) in *.
      assert (Zpos mc * Zpos m <= 9007199254740992 * (6597069766656000 * P)) by nia.
      assert (9007199254740992 * (6597069766656000 * P) <= 4503599627370496 * (18014398509481984 * P)) by nia.
      nia.
    + left. exact H.
    + right. exists m', e'. exact H.
Qed.


Lemma of_Z_range v : 0 < v < 2 ^ 64 -> in_1_2_64 (of_Z v).
Proof.
  intros Hv. destruct v as [|p|p]; try lia.
  unfold of_Z, binary_normalize.
  destruct (binary_round_bounds false p 0 4503599627370496 12 0)
    as (m & e & H & Hb & Ha & He); try lia.
  - exact canonical_2_64.
  - split; [lia|]. change (4503599627370496 * 2 ^ (12 - 0)) with (2 ^ 64). lia.
  - split; [lia|]. intros _. simpl. lia.
  - exists m, e. rewrite fexp_eq in He. repeat split; auto; try apply Hb; try apply Ha; lia.
Qed.

Lemma dadd_range x y :
  in_1_2_64 x -> in_1_2_64 y ->
  exists m e, dadd x y = S754_finite false m e /\
              below (Zpos m) e 4503599627370496 13 /\ above (Zpos m) e 1 /\ -51 <= e.
Proof.
  intros (ma & ea & -> & [Ba1 Ba2] & [Aa1 Aa2] & Ea) (mb & eb & -> & [Bb1 Bb2] & [Ab1 Ab2] & Eb).
  unfold dadd, SFadd. simpl cond_Zopp.
  set (ez := Z.min ea eb).
  pose proof (shl_align_spec ma ea ez) as Sa.
  pose proof (shl_align_spec mb eb ez) as Sb.
  destruct (shl_align ma ea ez) as [ma' ea'], (shl_align mb eb ez) as [mb' eb'].
  destruct Sa as [Sa1 Sa2], Sb as [Sb1 Sb2]. simpl fst.
  assert (Ea' : ea' = ez) by (unfold ez in *; lia).
  assert (Eb' : eb' = ez) by (unfold ez in *; lia).
  clear Sa1 Sb1. rewrite Ea' in Sa2. rewrite Eb' in Sb2. clear Ea' Eb' ea' eb'.
  change (Z.pos ma' + Z.pos mb') with (Z.pos (ma' + mb')). unfold binary_normalize.
  assert (Hez1 : ez <= ea) by (unfold ez; lia).
  assert (Hez2 : ez <= eb) by (unfold ez; lia).
  assert (0 < 2 ^ (ea - ez)) by (apply pow2_pos; lia).
  assert (0 < 2 ^ (eb - ez)) by (apply pow2_pos; lia).
  assert (Ua : Zpos ma' <= 4503599627370496 * 2 ^ (12 - ez)).
  { rewrite Sa2. replace (12 - ez) with ((12 - ea) + (ea - ez)) by lia.
    rewrite pow2_split, Z.mul_assoc by lia. apply Z.mul_le_mono_nonneg_r; lia. }
  assert (Ub : Zpos mb' <= 4503599627370496 * 2 ^ (12 - ez)).
  { rewrite Sb2. replace (12 - ez) with ((12 - eb) + (eb - ez)) by lia.
    rewrite pow2_split, Z.mul_assoc by lia. apply Z.mul_le_mono_nonneg_r; lia. }
  assert (La : ez <= 0 -> 2 ^ (0 - ez) <= Zpos ma').
  { intros Hz. apply (above_shl (Zpos ma) ea (Zpos ma') ez 0 Hez1 Sa2); [split; auto | exact Hz]. }
  assert (Lb : ez <= 0 -> 2 ^ (0 - ez) <= Zpos mb').
  { intros Hz. apply (above_shl (Zpos mb) eb (Zpos mb') ez 0 Hez2 Sb2); [split; auto | exact Hz]. }
  destruct (binary_round_bounds false (ma' + mb') ez 4503599627370496 13 1)
    as (m & e & Hr & Hb & Ha & He); try lia.
  - exact canonical_2_65.
  - split; [lia|]. rewrite Pos2Z.inj_add.
    replace (13 - ez) with (1 + (12 - ez)) by lia. rewrite pow2_split by lia.
    change (2 ^ 1) with 2. lia.
  - split; [lia|]. intros Hz1. rewrite Pos2Z.inj_add.
    destruct (Z_le_gt_dec ez 0) as [Hz|Hz].
    + replace (1 - ez) with (1 + (0 - ez)) by lia. rewrite pow2_split by lia.
      change (2 ^ 1) with 2. specialize (La Hz). specialize (Lb Hz). lia.
    + replace (1 - ez) with 0 by lia. rewrite Z.pow_0_r. lia.
  - exists m, e. rewrite fexp_eq in He. repeat split; auto; try apply Hb; try apply Ha; lia.
Qed.

Lemma of_Z_2 : of_Z 2 = S754_finite false 4503599627370496 (-51).
Proof. vm_compute. reflexivity. Qed.

Lemma ddiv_two_range x :
  (exists m e, x = S754_finite false m e /\
               below (Zpos m) e 4503599627370496 13 /\ above (Zpos m) e 1 /\ -51 <= e) ->
  in_1_2_64 (ddiv x (of_Z 2)).
Proof.
  intros (ms & es & -> & [B1 B2] & [A1 A2] & Ees).
  rewrite of_Z_2. unfold ddiv, SFdiv.
  pose proof (SFdiv_core_spec ms es 4503599627370496 (-51)) as Hc.
  destruct (SFdiv_core_binary prec emax (Z.pos ms) es 4503599627370496 (-51)) as [[q e'] l].
  destruct Hc as (He' & r & Hqr & Hr & Hq & Hl).
  change (Zdigits2 4503599627370496) with 53 in He'. rewrite fexp_eq in He'.
  pose proof (below_digits (Zpos ms) es 4503599627370496 13 ltac:(lia) ltac:(lia)
                (conj B1 B2)) as Hd.
  change (Zdigits2 4503599627370496) with 53 in Hd.
  pose proof (above_digits (Zpos ms) es 1 (conj A1 A2)) as Hd'.
  pose proof (Zdigits2_spec (Zpos ms) ltac:(lia)) as [Hlo _].
  assert (Hd1 : 0 + 1 <= Zdigits2 (Zpos ms)) by (apply Zdigits2_ge_pow2; simpl; lia).
  set (d := Zdigits2 (Zpos ms)) in *.
  set (sh := es - -51 - e') in *.
  assert (Hsh : 0 <= sh) by (unfold sh; lia).
  assert (Hpsh : 0 < 2 ^ sh) by (apply pow2_pos; lia).
  simpl xorb.
  (* upper bound on the shifted dividend *)
  assert (Hup : Zpos ms * 2 ^ sh <= 4503599627370496 * 2 ^ (64 - e')).
  { replace (64 - e') with ((13 - es) + sh) by (unfold sh; lia).
    rewrite pow2_split, Z.mul_assoc by lia. apply Z.mul_le_mono_nonneg_r; lia. }
  (* lower bounds *)
  assert (Hlow1 : 2 ^ 52 <= Zpos ms * 2 ^ sh).
  { apply Z.le_trans with (2 ^ (d - 1) * 2 ^ sh); [|apply Z.mul_le_mono_nonneg_r; lia].
    rewrite <- pow2_split by lia. apply Z.pow_le_mono_r; unfold sh; lia. }
  assert (Hlow2 : e' <= 0 -> 4503599627370496 * 2 ^ (0 - e') <= Zpos ms * 2 ^ sh).
  { intros Hz. change 4503599627370496 with (2 ^ 52). rewrite <- pow2_split by lia.
    destruct (Z_le_gt_dec es 1) as [H1|H1].
    - specialize (A2 H1).
      apply Z.le_trans with (2 ^ (1 - es) * 2 ^ sh); [|apply Z.mul_le_mono_nonneg_r; lia].
      rewrite <- pow2_split by lia. apply Z.pow_le_mono_r; unfold sh; lia.
    - apply Z.le_trans with (1 * 2 ^ sh); [|apply Z.mul_le_mono_nonneg_r; lia].
      rewrite Z.mul_1_l.
      apply Z.pow_le_mono_r; unfold sh; lia. }
  change (2 ^ 52) with 4503599627370496 in Hlow1.
  pose proof (slack_le l) as Hsl.
  destruct (bra_bounds false q e' l 4503599627370496 12 0)
    as (m & e & H & Hb & Ha & He); try lia.
  - exact canonical_2_64.
  - replace (12 - e') with (64 - e' - 52) by lia.
    assert (0 < 2 ^ (12 - e')) by (apply pow2_pos; lia).
    assert (E64 : 2 ^ (64 - e') = 4503599627370496 * 2 ^ (12 - e')).
    { change 4503599627370496 with (2 ^ 52). rewrite <- pow2_split by lia. f_equal. lia. }
    replace (64 - e' - 52) with (12 - e') by lia.
    rewrite E64 in Hup. set (T := 2 ^ (12 - e')) in *.
    destruct (Z.eq_dec r 0) as [Er|Er].
    + rewrite (Hl Er). nia.
    + assert (q < 4503599627370496 * T) by nia. lia.
  - split; [nia|]. intros Hz. specialize (Hlow2 Hz).
    assert (0 < 2 ^ (0 - e')) by (apply pow2_pos; lia).
    set (T := 2 ^ (0 - e')) in *. nia.
  - exists m, e. rewrite fexp_eq in He. repeat split; auto; try apply Hb; try apply Ha; lia.
Qed.


(** Rounding a value that needs no rounding. *)
Lemma bra_exact sx M n ex :
  0 < M -> 0 <= n ->
  fexp prec emax (Zdigits2 (M * 2 ^ n) + ex) = ex + n -> ex + n <= 971 ->
  binary_round_aux prec emax sx (M * 2 ^ n) ex loc_Exact = S754_finite sx (Z.to_pos M) (ex + n).
Proof.
  intros HM Hn Hf He. unfold binary_round_aux.
  assert (Hp : 0 < 2 ^ n) by (apply pow2_pos; lia).
  pose proof (shr_fexp_spec (M * 2 ^ n) ex loc_Exact ltac:(nia)) as H1. cbv zeta in H1.
  destruct (shr_fexp prec emax (M * 2 ^ n) ex loc_Exact) as [mrs1 e1].
  destruct H1 as (E1 & M1 & L1).
  rewrite Hf in *. replace (Z.max 0 (ex + n - ex)) with n in * by lia.
  rewrite Z.div_mul in M1 by lia. rewrite Z.mod_mul in L1 by lia.
  rewrite (proj2 L1 (conj eq_refl eq_refl)), M1. simpl round_nearest_even.
  pose proof (shr_fexp_spec M e1 loc_Exact ltac:(lia)) as H2. cbv zeta in H2.
  destruct (shr_fexp prec emax M e1 loc_Exact) as [mrs2 e2].
  destruct H2 as (E2 & M2 & _).
  rewrite Zdigits2_mul_pow2 in Hf by lia.
  replace (Zdigits2 M + e1) with (Zdigits2 M + n + ex) in * by lia.
  rewrite Hf in *. replace (Z.max 0 (ex + n - e1)) with 0 in * by lia.
  rewrite Z.pow_0_r, Z.div_1_r in M2. rewrite M2.
  destruct M as [|p|p]; try lia.
  replace (e2 <=? emax - prec) with true
    by (symmetry; apply Z.leb_le; unfold emax, prec; lia).
  simpl. f_equal. lia.
Qed.

Lemma Zdigits2_unique x k : 1 <= k -> 2 ^ (k - 1) <= x < 2 ^ k -> Zdigits2 x = k.
Proof.
  intros Hk [H1 H2].
  assert (0 < 2 ^ (k - 1)) by (apply pow2_pos; lia).
  destruct x as [|p|p]; try lia.
  rewrite Zdigits2_log2.
  assert (Z.log2 (Z.pos p) = k - 1); [|lia].
  apply Z.log2_unique; [lia|]. replace (Z.succ (k - 1)) with k by lia. lia.
Qed.

Lemma Ztrunc_finite m e :
  Ztrunc (S754_finite false m e) = if e <? 0 then Zpos m / 2 ^ (- e) else Zpos m * 2 ^ e.
Proof.
  unfold Ztrunc. destruct e as [|p|p].
  - simpl. lia.
  - rewrite Z.shiftl_mul_pow2 by lia. reflexivity.
  - rewrite Z.shiftr_div_pow2 by lia. reflexivity.
Qed.

Lemma of_Z_UINT64_MAX : of_Z UINT64_MAX = S754_finite false 4503599627370496 12.
Proof. vm_compute. reflexivity. Qed.

(** Rounding a small positive integer to the nearest: [(ticks) (m + 0.5) = m]. *)
Lemma round_half m : 0 < m < 2 ^ 52 ->
  dle (of_Z UINT64_MAX) (of_Z m) = false /\
  double_to_ticks (dadd (of_Z m) c_0_5) = m.
Proof.
  intros Hm.
  assert (Hm53 : 0 < m < 2 ^ 53) by (change (2 ^ 53) with (2 * 2 ^ 52); lia).
  destruct (of_Z_exact m Hm53) as (m1 & E & Hm1).
  pose proof (Zdigits2_spec m ltac:(lia)) as [Hlo Hhi].
  assert (Hd : 1 <= Zdigits2 m <= 52).
  { pose proof (Zdigits2_le_53 m Hm53). split; [lia|].
    destruct (Z_le_gt_dec (Zdigits2 m) 52); auto.
    assert (2 ^ 52 <= 2 ^ (Zdigits2 m - 1)) by (apply Z.pow_le_mono_r; lia). lia. }
  set (d := Zdigits2 m) in *.
  rewrite E. split.
  { rewrite of_Z_UINT64_MAX. unfold dle, SFleb, SFcompare.
    destruct (Z.compare_spec 12 (d - 53)); try lia; reflexivity. }
  unfold dadd, SFadd, c_0_5. simpl cond_Zopp.
  replace (Z.min (d - 53) (-53)) with (-53) by lia.
  pose proof (shl_align_spec m1 (d - 53) (-53)) as Sa.
  pose proof (shl_align_spec 4503599627370496 (-53) (-53)) as Sb.
  destruct (shl_align m1 (d - 53) (-53)) as [ma' ea'],
           (shl_align 4503599627370496 (-53) (-53)) as [mb' eb'].
  destruct Sa as [Sa1 Sa2], Sb as [Sb1 Sb2]. simpl fst.
  replace ea' with (-53) in Sa2 by lia. replace eb' with (-53) in Sb2 by lia.
  replace (d - 53 - -53) with d in Sa2 by lia.
  rewrite Z.sub_diag, Z.pow_0_r, Z.mul_1_r in Sb2.
  change (Z.pos ma' + Z.pos mb') with (Z.pos (ma' + mb')).
  assert (Hp1 : 0 < 2 ^ (52 - d)) by (apply pow2_pos; lia).
  assert (Hp2 : 0 < 2 ^ d) by (apply pow2_pos; lia).
  assert (Hsum : Z.pos (ma' + mb') = ((2 * m + 1) * 2 ^ (52 - d)) * 2 ^ d).
  { rewrite Pos2Z.inj_add, Sa2, Sb2, Hm1.
    replace (53 - d) with (1 + (52 - d)) by lia. rewrite pow2_split by lia.
    change (2 ^ 1) with 2.
    assert (E52 : 2 ^ (52 - d) * 2 ^ d = 4503599627370496).
    { rewrite <- pow2_split by lia. replace (52 - d + d) with 52 by lia. reflexivity. }
    nia. }
  assert (Hdig : Zdigits2 (Z.pos (ma' + mb')) = d + 53).
  { rewrite Hsum, <- Z.mul_assoc, <- pow2_split by lia.
    replace (52 - d + d) with 52 by lia. rewrite Zdigits2_mul_pow2 by lia.
    rewrite (Zdigits2_unique (2 * m + 1) (d + 1)); [lia | lia |].
    replace (d + 1 - 1) with (1 + (d - 1)) by lia.
    replace (d + 1) with (1 + d) by lia. rewrite !pow2_split by lia.
    change (2 ^ 1) with 2. lia. }
  unfold binary_normalize, binary_round.
  change (Z.pos (digits2_pos (ma' + mb'))) with (Zdigits2 (Z.pos (ma' + mb'))).
  rewrite Hdig.
  pose proof (shl_align_spec (ma' + mb') (-53) (fexp prec emax (d + 53 + -53))) as Sc.
  destruct (shl_align (ma' + mb') (-53) (fexp prec emax (d + 53 + -53))) as [mz ez].
  destruct Sc as [Sc1 Sc2]. rewrite fexp_eq in Sc1.
  assert (Ez : ez = -53) by lia. clear Sc1. rewrite Ez in *. clear Ez ez.
  rewrite Z.sub_diag, Z.pow_0_r, Z.mul_1_r, Hsum in Sc2. rewrite Sc2.
  rewrite bra_exact; try lia; try (apply Z.mul_pos_pos; lia).
  - unfold double_to_ticks. rewrite Ztrunc_finite.
    destruct (Z.ltb_spec (-53 + d) 0); try lia.
    rewrite Z2Pos.id by (apply Z.mul_pos_pos; lia).
    replace (- (-53 + d)) with (1 + (52 - d)) by lia. rewrite pow2_split by lia.
    change (2 ^ 1) with 2.
    replace ((2 * m + 1) * 2 ^ (52 - d) / (2 * 2 ^ (52 - d))) with m
      by (apply Z.div_unique with (r := 2 ^ (52 - d)); [lia | ring]).
    unfold wrap64. apply Z.mod_small. split; [lia|].
    apply Z.lt_trans with (2 ^ 52); [lia | reflexivity].
  - rewrite <- Hsum, Hdig, fexp_eq. lia.
Qed.

(** * The deviation analyser *)

Lemma wrap32_small z : 0 <= z < 2 ^ 32 -> wrap32 z = z.
Proof. intros. unfold wrap32. apply Z.mod_small. lia. Qed.

Lemma wrap64_small z : 0 <= z < 2 ^ 64 -> wrap64 z = z.
Proof. intros. unfold wrap64. apply Z.mod_small. lia. Qed.

Lemma wrap64_is_ticks z : is_ticks (wrap64 z).
Proof. unfold is_ticks, wrap64. apply Z.mod_pos_bound. reflexivity. Qed.

Lemma clip_cases v : clip v = if (0 <=? v) && (v <=? 1500) then v else 0.
Proof.
  unfold clip, to_int64, PFD_VAL_UP_LIMIT.
  destruct (Z.ltb_spec v (2 ^ 63)); destruct (Z.ltb_spec v 0); destruct (Z.ltb_spec 1500 v);
    destruct (Z.leb_spec 0 v); destruct (Z.leb_spec v 1500);
    try destruct (Z.ltb_spec (v - 2 ^ 64) 0); simpl; try reflexivity; try lia.
Qed.

Lemma clip_bounds v : 0 <= clip v <= 1500.
Proof.
  rewrite clip_cases.
  destruct (Z.leb_spec 0 v); destruct (Z.leb_spec v 1500); simpl; lia.
Qed.

Lemma clip_idem v : clip (clip v) = clip v.
Proof.
  pose proof (clip_bounds v). rewrite (clip_cases (clip v)).
  destruct (Z.leb_spec 0 (clip v)); destruct (Z.leb_spec (clip v) 1500); simpl; lia.
Qed.

Lemma in_range_iff v : is_ticks v -> (in_range v <-> v <= 1500).
Proof.
  unfold is_ticks, in_range, to_int64, PFD_VAL_UP_LIMIT. intros Hv.
  destruct (Z.ltb_spec v (2 ^ 63)); lia.
Qed.

Lemma get_abs_deviation_vals vals : fst (get_abs_deviation vals) = map clip vals.
Proof. reflexivity. Qed.

Lemma get_abs_deviation_avg vals :
  avg (snd (get_abs_deviation vals)) =
  ddiv (of_Z (sum_ticks (map clip vals))) (of_Z (Z.of_nat (length vals))).
Proof. reflexivity. Qed.

Lemma get_abs_deviation_pass1 vals :
  let ad := snd (get_abs_deviation vals) in
  let p := pass1_of vals in
  max_val ad = p_max_val p /\ max_val_idx ad = p_max_val_idx p /\
  min_val ad = p_min_val p /\ min_val_idx ad = p_min_val_idx p /\
  num_dev_10p ad = at_10p (p_num_dev p) /\ num_dev_25p ad = at_25p (p_num_dev p) /\
  num_dev_50p ad = at_50p (p_num_dev p) /\ num_dev_75p ad = at_75p (p_num_dev p) /\
  num_dev_rst ad = at_rst (p_num_dev p).
Proof. repeat split; reflexivity. Qed.

(** Loop invariants: [Inv k s] holds of the state after [k] iterations. *)
Lemma for_each_invariant {S : Type} (body : Z -> ticks -> S -> S)
      (Inv : nat -> S -> Prop) (vals : list ticks) (s0 : S) :
  Z.of_nat (length vals) < 2 ^ 32 ->
  Inv O s0 ->
  (forall k v s, nth_error vals k = Some v -> Inv k s ->
                 Inv (Datatypes.S k) (body (Z.of_nat k) v s)) ->
  Inv (length vals) (for_each body 0 vals s0).
Proof.
  intros Hlen H0 Hstep.
  assert (G : forall rest pre s, vals = pre ++ rest -> Inv (length pre) s ->
              Inv (length vals) (for_each body (Z.of_nat (length pre)) rest s)).
  { induction rest as [|v rest IH]; intros pre s E Hs.
    - rewrite E, app_nil_r. exact Hs.
    - simpl for_each.
      assert (E' : vals = (pre ++ [v]) ++ rest) by (rewrite <- app_assoc; exact E).
      assert (Hl : (length pre < length vals)%nat).
      { rewrite E, length_app. simpl. lia. }
      rewrite wrap32_small by lia.
      replace (Z.of_nat (length pre) + 1) with (Z.of_nat (length (pre ++ [v])))
        by (rewrite length_app; simpl; lia).
      apply IH; [exact E'|].
      rewrite length_app. simpl. rewrite Nat.add_1_r.
      apply Hstep; [|exact Hs].
      rewrite E, nth_error_app2 by lia. rewrite Nat.sub_diag. reflexivity. }
  apply (G vals [] s0); [reflexivity | exact H0].
Qed.


Lemma pass1_counts vals a :
  Z.of_nat (length vals) < 2 ^ 32 ->
  let p := for_each (pass1_step a) 0 vals pass1_init in
  nonneg_bands (p_num_dev p) /\ counted (p_num_dev p) = Z.of_nat (length vals).
Proof.
  intros Hlen.
  apply (for_each_invariant (pass1_step a)
           (fun k s => nonneg_bands (p_num_dev s) /\ counted (p_num_dev s) = Z.of_nat k));
    [exact Hlen | |].
  - unfold nonneg_bands, counted. simpl. lia.
  - intros k v s Hk [Hn Hc].
    assert (Hkl : (k < length vals)%nat) by (apply nth_error_Some; congruence).
    unfold nonneg_bands, counted in *. destruct Hn as (H1 & H2 & H3 & H4 & H5).
    unfold pass1_step. cbn [p_num_dev].
    destruct (band_of a (absd (dsub (of_Z v) a))); cbn [bupd at_10p at_25p at_50p at_75p at_rst];
      rewrite wrap32_small by lia; lia.
Qed.

(** C3. For every sample array, [get_abs_deviation] leaves an array of the
    same length in which each entry is its original value or 0; an entry is
    changed exactly when its original value, read as [int64_t], lies
    outside [[0, 1500]] (negative readings included), and it is then 0; an
    in-range entry is never modified. *)
Theorem clipping_keeps_or_zeroes (vals : list ticks) (i : nat) (v : ticks) :
  is_ticks v -> nth_error vals i = Some v ->
  length (fst (get_abs_deviation vals)) = length vals /\
  exists v', nth_error (fst (get_abs_deviation vals)) i = Some v' /\
             (v' = v \/ v' = 0) /\
             (in_range v -> v' = v) /\
             (~ in_range v -> v' = 0) /\
             (v' <> v <-> ~ in_range v) /\
             (to_int64 v < 0 -> ~ in_range v) /\
             (in_range v <-> v <= PFD_VAL_UP_LIMIT).
Proof.
  intros Hv Hi. rewrite get_abs_deviation_vals. split; [apply length_map|].
  exists (clip v). split; [rewrite nth_error_map, Hi; reflexivity|].
  pose proof (in_range_iff v Hv) as Hr.
  assert (Hc : clip v = if v <=? 1500 then v else 0).
  { rewrite clip_cases. unfold is_ticks in Hv.
    destruct (Z.leb_spec 0 v); try lia. reflexivity. }
  unfold PFD_VAL_UP_LIMIT in *. unfold is_ticks in Hv.
  rewrite Hc. destruct (Z.leb_spec v 1500) as [Hle|Hgt].
  - assert (in_range v) by (apply Hr; exact Hle).
    assert (to_int64 v < 0 -> ~ in_range v) by (unfold in_range; lia).
    intuition congruence.
  - assert (~ in_range v) by (rewrite Hr; lia).
    assert (0 <> v) by lia.
    intuition congruence.
Qed.

Lemma clipping_keeps_or_zeroes_witness :
  exists v', nth_error (fst (get_abs_deviation [7; 2000; 18446744073709551615])) 2 = Some v' /\
             v' = 0.
Proof.
  destruct (clipping_keeps_or_zeroes [7; 2000; 18446744073709551615] 2 18446744073709551615)
    as (_ & v' & Hn & _ & _ & Hz & _).
  - unfold is_ticks. split; [discriminate | reflexivity].
  - reflexivity.
  - exists v'. split; [exact Hn|]. apply Hz. unfold in_range. vm_compute. intros [H _]. apply H. reflexivity.
Defined.

(** C4. For every sample array whose count fits the [uint32_t] loop index,
    the five band counts add up to the count: every sample is counted in
    exactly one band. *)
Theorem band_counts_partition (vals : list ticks) :
  Z.of_nat (length vals) < 2 ^ 32 ->
  let ad := snd (get_abs_deviation vals) in
  num_dev_10p ad + num_dev_25p ad + num_dev_50p ad + num_dev_75p ad + num_dev_rst ad
  = Z.of_nat (length vals)
  /\ num_vals ad = Z.of_nat (length vals).
Proof.
  intros Hlen ad. split; [|reflexivity].
  destruct (get_abs_deviation_pass1 vals) as (_ & _ & _ & _ & E1 & E2 & E3 & E4 & E5).
  fold ad in E1, E2, E3, E4, E5. rewrite E1, E2, E3, E4, E5.
  unfold pass1_of.
  pose proof (pass1_counts (map clip vals)
                (ddiv (of_Z (sum_ticks (map clip vals))) (of_Z (Z.of_nat (length vals)))))
    as H.
  rewrite length_map in H. destruct (H Hlen) as [_ Hc]. exact Hc.
Qed.

Lemma band_counts_partition_witness :
  let ad := snd (get_abs_deviation [20; 20; 100; 3; 1501; 0; 27]) in
  num_dev_10p ad + num_dev_25p ad + num_dev_50p ad + num_dev_75p ad + num_dev_rst ad = 7.
Proof.
  apply (band_counts_partition [20; 20; 100; 3; 1501; 0; 27]). reflexivity.
Defined.

(** * Calibration *)

Lemma min_delta_loop_ticks attempts best st :
  0 < best <= UINT64_MAX ->
  0 < fst (min_delta_loop attempts best st) <= UINT64_MAX.
Proof.
  revert best st. induction attempts as [|k IH]; intros best st Hb; simpl.
  - exact Hb.
  - apply IH.
    pose proof (wrap64_is_ticks (wrap64 (clock st (S (now st))) - wrap64 (clock st (now st)))) as Hw.
    unfold is_ticks in Hw. unfold UINT64_MAX in *.
    match goal with |- context [if ?c then _ else _] => destruct c eqn:Ec end; [|exact Hb].
    apply andb_true_iff in Ec. destruct Ec as [E1 E2].
    apply Z.ltb_lt in E1. apply Z.ltb_lt in E2. simpl in *. lia.
Qed.

Lemma measure_minimum_tick_delta_ticks attempts st :
  0 <= fst (measure_minimum_tick_delta attempts st) < UINT64_MAX.
Proof.
  unfold measure_minimum_tick_delta.
  pose proof (min_delta_loop_ticks attempts UINT64_MAX st ltac:(unfold UINT64_MAX; lia)) as H.
  destruct (min_delta_loop attempts UINT64_MAX st) as [best st']. simpl in *.
  destruct (Z.eqb_spec best UINT64_MAX); simpl; unfold UINT64_MAX in *; lia.
Qed.

Lemma conservative_default_rounds :
  double_to_ticks (dadd PFD_CONSERVATIVE_DEFAULT c_0_5) = 32.
Proof. vm_compute. reflexivity. Qed.

Lemma enforce_positive_correction std_pp st :
  is_ticks (pfd_correction st) ->
  0 < pfd_correction (snd (enforce_positive std_pp st)) < 2 ^ 64.
Proof.
  unfold enforce_positive, is_ticks. intros Hc.
  destruct (Z.leb_spec (pfd_correction st) 0) as [H0|H0]; [|simpl; lia].
  pose proof (measure_minimum_tick_delta_ticks 64 st) as Hm.
  destruct (measure_minimum_tick_delta 64 st) as [measured st']. simpl in Hm.
  destruct (Z.ltb_spec 0 measured) as [H1|H1].
  - simpl. unfold UINT64_MAX in Hm. lia.
  - cbn [snd printf set_pfd_correction pfd_correction].
    rewrite conservative_default_rounds. simpl. lia.
Qed.

Lemma round_correction_ticks x st : is_ticks (fst (round_correction x st)).
Proof.
  unfold round_correction.
  destruct (dle (of_Z UINT64_MAX) x); simpl; [unfold is_ticks, UINT64_MAX; lia|].
  destruct (Z.eqb_spec (double_to_ticks (dadd x c_0_5)) 0); simpl.
  - unfold is_ticks. lia.
  - apply wrap64_is_ticks.
Qed.

(** The assertion of l.367 never fails: [finish] always returns, with a
    correction in [(0, 2^64)]. *)
Lemma finish_returns ad_avg std_pp st :
  exists st', finish ad_avg std_pp st = Returns st' /\ 0 < pfd_correction st' < 2 ^ 64.
Proof.
  unfold finish.
  destruct (sanitize ad_avg st) as [corrected_avg st1].
  pose proof (round_correction_ticks corrected_avg st1) as Hr.
  destruct (round_correction corrected_avg st1) as [correction st2]. simpl in Hr.
  set (st3 := set_pfd_correction correction
                (if dle ad_avg (of_Z 0) then printf warn_le_zero_default st2 else st2)).
  pose proof (enforce_positive_correction std_pp st3 Hr) as He.
  destruct (enforce_positive std_pp st3) as [q st4]. simpl in He.
  destruct (Z.ltb_spec 0 (pfd_correction st4)); [|lia].
  eexists. split; [reflexivity|]. simpl. exact He.
Qed.

(** C1. Every call of [pfd_store_init] that returns, from any state (a
    fresh process or a store initialised before), for any capacity, clock
    and hardware flag, leaves [0 < pfd_correction] (within [uint64_t]); the
    only way out of the fallback chain with a non-positive correction
    would be the failed assertion, which is not a return. *)
Theorem init_correction_positive (a : arch) (num_entries : nat) (st st' : state) :
  pfd_store_init a num_entries st = Returns st' ->
  0 < pfd_correction st' < 2 ^ 64.
Proof.
  unfold pfd_store_init.
  destruct (pfd_store_alloc num_entries st) as [st1|[x st1]]; [|discriminate].
  destruct (calibrate a num_entries 10 0 st1) as [[ad_avg std_pp] st2].
  destruct (finish_returns ad_avg std_pp st2) as (st3 & E & H).
  rewrite E. intros [= <-]. exact H.
Qed.

(** The assertion on the correction (l.367) is never the one that fails. *)
Lemma init_fails_only_on_allocation (a : arch) (num_entries : nat) (st st' : state) x :
  pfd_store_init a num_entries st = AssertionFailed x st' -> x <> assert_correction.
Proof.
  unfold pfd_store_init, pfd_store_alloc. cbv zeta.
  destruct (malloc _) as [ok1 s1]. destruct (malloc _) as [ok2 s2].
  destruct (negb (ok1 && ok2)); [intros [= <- _]; discriminate|].
  destruct (alloc_slots _ _ _) as [[|] s3]; [|intros [= <- _]; discriminate].
  destruct (calibrate _ _ _ _ _) as [[ad_avg std_pp] s4].
  destruct (finish_returns ad_avg std_pp s4) as (s5 & E & _). rewrite E. discriminate.
Qed.

(** ** What each step leaves untouched *)

Lemma measure_loop_frame k i st :
  let st' := measure_loop k i st in
  stdout st' = stdout st /\ rounds st' = rounds st /\ failed st' = failed st /\
  brk st' = brk st /\ heap_ok st' = heap_ok st /\ clock st' = clock st /\
  pfd_correction st' = pfd_correction st /\ now st' = (now st + 2 * k)%nat /\
  length (pfd_store st') = length (pfd_store st).
Proof.
  revert i st. induction k as [|k IH]; intros i st.
  - simpl. repeat split; auto.
  - simpl measure_loop.
    destruct (IH (S i) (PFDO 0 i (PFDI 0 st))) as (H1 & H2 & H3 & H4 & H5 & H6 & H7 & H8 & H9).
    cbv zeta. rewrite H1, H2, H3, H4, H5, H6, H7, H8, H9.
    unfold PFDO, PFDI, getticks, set_slot. cbn.
    repeat split; auto; try lia.
    destruct (pfd_store st); reflexivity.
Qed.

Lemma median_frame samples st :
  let st' := snd (median_non_zero_ticks samples st) in
  stdout st' = stdout st /\ rounds st' = rounds st /\ failed st' = failed st /\
  pfd_correction st' = pfd_correction st /\ pfd_store st' = pfd_store st /\
  now st' = now st /\ clock st' = clock st.
Proof.
  unfold median_non_zero_ticks.
  destruct (Z.of_nat (length samples) =? 0); [simpl; repeat split; auto|].
  unfold malloc. destruct (heap_ok st (brk st)); cbn [negb]; [|simpl; repeat split; auto].
  match goal with |- context [if ?c then _ else _] => destruct c end; simpl; repeat split; auto.
Qed.

Lemma manual_correction_frame a st :
  let st' := snd (manual_correction a st) in
  rounds st' = rounds st /\ failed st' = failed st /\
  exists out, stdout st' = stdout st ++ out /\ filter is_recalculating out = [].
Proof.
  unfold manual_correction.
  pose proof (median_frame (slot 0 (printf warn_manual st)) (printf warn_manual st)) as H.
  destruct (median_non_zero_ticks (slot 0 (printf warn_manual st)) (printf warn_manual st))
    as [m st1].
  cbv zeta in H. simpl snd in H. destruct H as (H1 & H2 & H3 & _).
  destruct (isfinite m && dlt (of_Z 0) m).
  - simpl. rewrite H1, H2, H3. simpl. repeat split; auto.
    exists [warn_manual; warn_median m]. rewrite <- app_assoc. split; reflexivity.
  - destruct (arch_default a); simpl; rewrite ?H1, H2, H3; simpl; repeat split; auto.
    + exists [warn_manual]. split; reflexivity.
    + exists [warn_manual; warn_unknown_arch]. rewrite <- app_assoc. split; reflexivity.
Qed.

(** One round of the [retry] loop: measure, analyse, judge. *)
Lemma calibrate_unfold a n tries pw st :
  calibrate a n tries pw st =
  let st1 := measure_round n st in
  let ad := snd (get_abs_deviation (slot 0 st1)) in
  let st2 := set_slot 0 (fst (get_abs_deviation (slot 0 st1))) st1 in
  let std_pp := quality ad in
  if dlt (of_Z PFD_CORRECTION_CONF) std_pp
  then
    let st3 := count_failed st2 in
    let st4 := if pw =? 1
               then printf (warn_recalculating (avg ad) (printed std_pp)) st3
               else st3 in
    match tries with
    | S tries' => calibrate a n tries' (wrap32 (pw + 1)) st4
    | O => let '(m, st5) := manual_correction a st4 in (m, std_pp, st5)
    end
  else (avg ad, std_pp, st2).
Proof. destruct tries; reflexivity. Qed.

Lemma measure_round_frame n st :
  let st' := measure_round n st in
  stdout st' = stdout st /\ rounds st' = S (rounds st) /\ failed st' = failed st.
Proof.
  unfold measure_round.
  destruct (measure_loop_frame n 0 st) as (H1 & H2 & H3 & _).
  simpl. auto.
Qed.

(** The trace of the loop started with [tries] retries left and
    [print_warning = pw]. *)
Lemma calibrate_trace a n tries : forall pw st x q st',
  0 <= pw -> pw + Z.of_nat tries + 1 < 2 ^ 32 ->
  calibrate a n tries pw st = (x, q, st') ->
  exists (r f : nat) (out : list line) (raw : list ticks),
    rounds st' = (rounds st + r)%nat /\ failed st' = (failed st + f)%nat /\
    stdout st' = stdout st ++ out /\
    (1 <= r <= S tries)%nat /\
    q = quality (snd (get_abs_deviation raw)) /\
    ((S f = r /\ dlt (of_Z PFD_CORRECTION_CONF) q = false /\
      x = avg (snd (get_abs_deviation raw)))
     \/ (f = r /\ r = S tries /\ dlt (of_Z PFD_CORRECTION_CONF) q = true)) /\
    length (filter is_recalculating out)
    = if (pw <=? 1) && (2 - pw <=? Z.of_nat f) then 1%nat else 0%nat.
Proof.
  induction tries as [|t IH]; intros pw st x q st' Hpw Hbound; rewrite calibrate_unfold; cbv zeta.
  - destruct (measure_round_frame n st) as (M1 & M2 & M3).
    remember (measure_round n st) as st1 eqn:Est1. clear Est1.
    remember (slot 0 st1) as raw eqn:Eraw. clear Eraw.
    destruct (dlt (of_Z PFD_CORRECTION_CONF) (quality (snd (get_abs_deviation raw)))) eqn:Eq.
    + destruct (Z.eqb_spec pw 1) as [->|Hne];
        match goal with |- context [manual_correction a ?s] =>
          pose proof (manual_correction_frame a s) as Hm;
          destruct (manual_correction a s) as [m st5]
        end;
        cbv zeta in Hm; simpl snd in Hm; destruct Hm as (R & F & out & O & Fil);
        intros [= <- <- <-]; exists 1%nat, 1%nat.
      * exists (warn_recalculating (avg (snd (get_abs_deviation raw)))
                  (printed (quality (snd (get_abs_deviation raw)))) :: out), raw.
        rewrite R, F, O. st_simpl. rewrite M1, M2, M3, Fil.
        repeat split; auto; try lia.
        rewrite <- app_assoc. reflexivity.
      * exists out, raw. rewrite R, F, O. st_simpl. rewrite M1, M2, M3, Fil.
        repeat split; auto; try lia.
        leb_cases.
    + intros [= <- <- <-]. exists 1%nat, 0%nat, [], raw.
      st_simpl. rewrite M1, M2, M3, app_nil_r.
      repeat split; auto; try lia.
      leb_cases.
  - destruct (measure_round_frame n st) as (M1 & M2 & M3).
    remember (measure_round n st) as st1 eqn:Est1. clear Est1.
    remember (slot 0 st1) as raw eqn:Eraw. clear Eraw.
    destruct (dlt (of_Z PFD_CORRECTION_CONF) (quality (snd (get_abs_deviation raw)))) eqn:Eq.
    + rewrite wrap32_small by lia.
      destruct (Z.eqb_spec pw 1) as [->|Hne]; intros Hc; apply IH in Hc; try lia;
        destruct Hc as (r & f & out & raw' & R & F & O & Hr & Hq & Hcase & Hcount);
        exists (S r), (S f).
      * exists (warn_recalculating (avg (snd (get_abs_deviation raw)))
                  (printed (quality (snd (get_abs_deviation raw)))) :: out), raw'.
        rewrite R, F, O. st_simpl. rewrite M1, M2, M3.
        repeat split; auto; try lia.
        -- rewrite <- app_assoc. reflexivity.
        -- destruct Hcase as [(A & B & C)|(A & B & C)]; [left|right]; repeat split; auto; lia.
        -- rewrite Hcount. leb_cases.
      * exists out, raw'. rewrite R, F, O. st_simpl. rewrite M1, M2, M3.
        repeat split; auto; try lia.
        -- destruct Hcase as [(A & B & C)|(A & B & C)]; [left|right]; repeat split; auto; lia.
        -- rewrite Hcount. leb_cases.
    + intros [= <- <- <-]. exists 1%nat, 0%nat, [], raw.
      st_simpl. rewrite M1, M2, M3, app_nil_r.
      repeat split; auto; try lia.
      leb_cases.
Qed.

Lemma init_correction_positive_witness :
  match pfd_store_init DEFAULT 10 (boot (tsc_of steady_samples) always_ok) with
  | Returns st' => 0 < pfd_correction st' < 2 ^ 64
  | AssertionFailed _ _ => False
  end.
Proof.
  destruct (pfd_store_init DEFAULT 10 (boot (tsc_of steady_samples) always_ok)) as [st'|x st'] eqn:E.
  - exact (init_correction_positive _ _ _ _ E).
  - vm_compute in E. discriminate E.
Defined.












(** ** Allocation *)

Lemma fresh_block_length st k n : length (fresh_block st k n) = n.
Proof. unfold fresh_block. rewrite length_map, length_seq. reflexivity. Qed.

Lemma alloc_slots_spec k n : forall st st',
  alloc_slots k n st = (true, st') ->
  pfd_store st'
  = pfd_store st ++ map (fun j => fresh_block st (brk st + j) n) (seq 0 k) /\
  stdout st' = stdout st /\ rounds st' = rounds st /\ failed st' = failed st /\
  pfd_correction st' = pfd_correction st /\ _pfd_s st' = _pfd_s st /\
  clock st' = clock st /\ now st' = now st /\
  heap_ok st' = heap_ok st /\ brk st' = (brk st + k)%nat /\
  (forall j, (j < k)%nat -> heap_ok st (brk st + j)%nat = true).
Proof.
  induction k as [|k IH]; intros st st'; cbn [alloc_slots]; cbv zeta.
  - intros [= <-]. cbn [seq map]. rewrite app_nil_r, Nat.add_0_r.
    repeat split; auto. intros j Hj. lia.
  - unfold malloc. destruct (heap_ok st (brk st)) eqn:Eh; [|discriminate].
    intros H. apply IH in H. st_simpl_in H.
    destruct H as (H1 & H2 & H3 & H4 & H5 & H6 & H7 & H8 & H9 & H10 & H11).
    rewrite H1, <- app_assoc. cbn [seq map app]. rewrite Nat.add_0_r, <- seq_shift, map_map.
    repeat split; auto; try lia.
    + f_equal. f_equal. apply map_ext. intros j. unfold fresh_block. st_simpl.
      replace (S (brk st) + j)%nat with (brk st + S j)%nat by lia. reflexivity.
    + intros j Hj. destruct j as [|j]; [rewrite Nat.add_0_r; exact Eh|].
      replace (brk st + S j)%nat with (S (brk st) + j)%nat by lia.
      apply H11. lia.
Qed.

Lemma pfd_store_alloc_unfold n st :
  pfd_store_alloc n st
  = let ok_s := heap_ok st (brk st) in
    let ok_store := heap_ok st (S (brk st)) in
    let st0 := set_pfd_s [] (set_pfd_store [] st) in
    let st2 := set_brk (S (S (brk st)))
                 (if ok_s then set_pfd_s (fresh_block st (brk st) PFD_NUM_STORES) st0
                  else st0) in
    if negb (ok_s && ok_store) then inr (assert_tables, st2)
    else match alloc_slots PFD_NUM_STORES n st2 with
         | (false, s) => inr (assert_slot, s)
         | (true, s) => inl (set_pfd_correction 0 s)
         end.
Proof.
  unfold pfd_store_alloc, malloc. cbv zeta. st_simpl.
  destruct (heap_ok st (brk st)); reflexivity.
Qed.

Lemma pfd_store_alloc_spec n st st1 :
  pfd_store_alloc n st = inl st1 ->
  pfd_store st1
  = map (fun j => fresh_block st (brk st + 2 + j) n) (seq 0 PFD_NUM_STORES) /\
  _pfd_s st1 = fresh_block st (brk st) PFD_NUM_STORES /\ pfd_correction st1 = 0 /\
  stdout st1 = stdout st /\ rounds st1 = rounds st /\ failed st1 = failed st /\
  clock st1 = clock st /\ now st1 = now st /\
  brk st1 = (brk st + 2 + PFD_NUM_STORES)%nat /\
  length (pfd_store st1) = PFD_NUM_STORES /\ length (slot 0 st1) = n /\
  pfd_store st1 <> [].
Proof.
  rewrite pfd_store_alloc_unfold. cbv zeta.
  destruct (heap_ok st (brk st)); destruct (heap_ok st (S (brk st)));
    cbn [andb negb]; try discriminate.
  match goal with |- context [alloc_slots ?k ?n ?s] =>
    destruct (alloc_slots k n s) as [[|] s'] eqn:E end; [|discriminate].
  intros [= <-]. apply alloc_slots_spec in E. st_simpl_in E.
  destruct E as (H1 & H2 & H3 & H4 & H5 & H6 & H7 & H8 & H9 & H10 & _).
  assert (A1 : pfd_store s'
               = map (fun j => fresh_block st (brk st + 2 + j) n) (seq 0 PFD_NUM_STORES)).
  { rewrite H1. apply map_ext. intros j. unfold fresh_block. st_simpl.
    replace (S (S (brk st)) + j)%nat with (brk st + 2 + j)%nat by lia. reflexivity. }
  st_simpl. rewrite H2, H3, H4, H6, H7, H8, H10.
  split; [exact A1|]. repeat split; auto; try lia.
  - rewrite A1, length_map, length_seq. reflexivity.
  - unfold slot. st_simpl. rewrite A1. cbn [PFD_NUM_STORES seq map nth].
    apply fresh_block_length.
  - rewrite A1. discriminate.
Qed.

Lemma slot_set_slot vals st :
  pfd_store st <> [] -> slot 0 (set_slot 0 vals st) = vals.
Proof.
  unfold slot, set_slot. st_simpl. destruct (pfd_store st); [congruence|reflexivity].
Qed.

Lemma measure_round_store n st :
  length (pfd_store (measure_round n st)) = length (pfd_store st).
Proof.
  unfold measure_round. st_simpl.
  destruct (measure_loop_frame n 0 st) as (_ & _ & _ & _ & _ & _ & _ & _ & H). exact H.
Qed.

(** ** The last lines of [pfd_store_init] on particular averages *)

Lemma finish_plain x q st c :
  isfinite x = true -> dle x (of_Z 0) = false -> dlt x (of_Z 1) = false ->
  dle (of_Z UINT64_MAX) x = false -> double_to_ticks (dadd x c_0_5) = c -> 0 < c ->
  finish x q st
  = Returns (printf (set_correction c (printed q)) (set_pfd_correction c st)).
Proof.
  intros H1 H2 H3 H4 H5 H6.
  unfold finish, sanitize, round_correction, enforce_positive.
  rewrite H1, H2, H3. cbn [negb]. rewrite H4, H5.
  destruct (Z.eqb_spec c 0); [lia|]. st_simpl.
  destruct (Z.leb_spec c 0); [lia|].
  st_simpl. destruct (Z.ltb_spec 0 c); [reflexivity|lia].
Qed.

Lemma conservative_default_facts :
  dle (of_Z UINT64_MAX) PFD_CONSERVATIVE_DEFAULT = false /\
  isfinite (S754_zero false) = true /\ dle (S754_zero false) (of_Z 0) = true.
Proof. vm_compute. repeat split; reflexivity. Qed.

Lemma sum_ticks_zeros n : sum_ticks (repeat 0 n) = 0.
Proof.
  unfold sum_ticks. induction n as [|n IH]; [reflexivity|]. simpl. exact IH.
Qed.

Lemma get_abs_deviation_zeros n :
  (0 < n)%nat -> Z.of_nat n < 2 ^ 32 ->
  fst (get_abs_deviation (repeat 0 n)) = repeat 0 n /\
  avg (snd (get_abs_deviation (repeat 0 n))) = S754_zero false /\
  quality (snd (get_abs_deviation (repeat 0 n))) = NAN.
Proof.
  intros Hn Hlt.
  assert (Hm : map clip (repeat 0 n) = repeat 0 n) by (rewrite map_repeat; reflexivity).
  assert (Ha : avg (snd (get_abs_deviation (repeat 0 n))) = S754_zero false).
  { rewrite get_abs_deviation_avg, Hm, sum_ticks_zeros, repeat_length.
    destruct (of_Z_exact (Z.of_nat n)) as (m & -> & _).
    - split; [lia|]. apply Z.lt_trans with (2 ^ 32); [lia|reflexivity].
    - reflexivity. }
  split; [rewrite get_abs_deviation_vals; exact Hm|]. split; [exact Ha|].
  unfold quality. rewrite Ha. reflexivity.
Qed.

Lemma min_delta_loop_frame k : forall best st,
  let st' := snd (min_delta_loop k best st) in
  stdout st' = stdout st /\ rounds st' = rounds st /\ failed st' = failed st /\
  pfd_store st' = pfd_store st /\ pfd_correction st' = pfd_correction st /\
  clock st' = clock st /\ now st' = (now st + 2 * k)%nat /\ brk st' = brk st.
Proof.
  induction k as [|k IH]; intros best st.
  - simpl. repeat split; auto.
  - simpl min_delta_loop.
    match goal with |- context [min_delta_loop k ?b ?s] =>
      destruct (IH b s) as (H1 & H2 & H3 & H4 & H5 & H6 & H7 & H8) end.
    cbv zeta. rewrite H1, H2, H3, H4, H5, H6, H7, H8. st_simpl.
    repeat split; auto. lia.
Qed.

Lemma measure_minimum_tick_delta_frame k st :
  let st' := snd (measure_minimum_tick_delta k st) in
  stdout st' = stdout st /\ rounds st' = rounds st /\ failed st' = failed st /\
  pfd_store st' = pfd_store st /\ pfd_correction st' = pfd_correction st /\
  clock st' = clock st /\ now st' = (now st + 2 * k)%nat /\ brk st' = brk st.
Proof.
  unfold measure_minimum_tick_delta.
  pose proof (min_delta_loop_frame k UINT64_MAX st) as H.
  destruct (min_delta_loop k UINT64_MAX st) as [best st']. exact H.
Qed.

Lemma gate_rejects_not_nan : dlt (of_Z PFD_CORRECTION_CONF) NAN = false.
Proof. reflexivity. Qed.

(** A first round that passes the gate is used as it is. *)
Lemma init_first_round_accepted (a : arch) (n : nat) (st st1 : state) (raw : list ticks) :
  pfd_store_alloc n st = inl st1 ->
  slot 0 (measure_round n st1) = raw ->
  dlt (of_Z PFD_CORRECTION_CONF) (quality (snd (get_abs_deviation raw))) = false ->
  pfd_store_init a n st
  = finish (avg (snd (get_abs_deviation raw))) (quality (snd (get_abs_deviation raw)))
           (set_slot 0 (fst (get_abs_deviation raw)) (measure_round n st1)).
Proof.
  intros Halloc Hslot Hq.
  unfold pfd_store_init. rewrite Halloc, calibrate_unfold. cbv zeta.
  rewrite Hslot, Hq. reflexivity.
Qed.

(** What the last part of [pfd_store_init] makes of a zero average. *)
Lemma finish_zero_effect q st :
  let measured := fst (measure_minimum_tick_delta 64 st) in
  let x := if measured =? 0 then PFD_CONSERVATIVE_DEFAULT else of_Z measured in
  let first := if measured =? 0 then warn_le_zero_default else warn_direct_delta measured in
  let k := double_to_ticks (dadd x c_0_5) in
  let c := if dle (of_Z UINT64_MAX) x then UINT64_MAX else if k =? 0 then 1 else k in
  let clamp := if dle (of_Z UINT64_MAX) x then [warn_clamp_max]
               else if k =? 0 then [warn_rounded_zero] else [] in
  exists st',
    finish (S754_zero false) q st = Returns st' /\
    pfd_correction st' = c /\
    stdout st' = stdout st ++ first :: clamp ++ [warn_le_zero_default; set_correction c (printed q)] /\
    rounds st' = rounds st /\ failed st' = failed st /\ brk st' = brk st /\
    pfd_store st' = pfd_store st.
Proof.
  cbv zeta.
  pose proof (measure_minimum_tick_delta_ticks 64 st) as Hr.
  pose proof (measure_minimum_tick_delta_frame 64 st) as Hf. cbv zeta in Hf.
  destruct Hf as (F1 & F2 & F3 & F4 & _ & _ & _ & F8).
  unfold finish, sanitize.
  destruct conservative_default_facts as (_ & D2 & D3).
  rewrite D2, D3. cbn [negb].
  destruct (measure_minimum_tick_delta 64 st) as [measured st1]. cbn [fst snd] in *.
  assert (Hpos : forall x' s,
            0 < fst (round_correction x' s) /\
            fst (round_correction x' s)
            = (if dle (of_Z UINT64_MAX) x' then UINT64_MAX
               else if double_to_ticks (dadd x' c_0_5) =? 0 then 1
                    else double_to_ticks (dadd x' c_0_5)) /\
            snd (round_correction x' s)
            = (if dle (of_Z UINT64_MAX) x' then printf warn_clamp_max s
               else if double_to_ticks (dadd x' c_0_5) =? 0 then printf warn_rounded_zero s
                    else s)).
  { intros x' s. unfold round_correction.
    destruct (dle (of_Z UINT64_MAX) x'); cbn [fst snd]; [repeat split; reflexivity|].
    destruct (Z.eqb_spec (double_to_ticks (dadd x' c_0_5)) 0) as [E|E]; cbn [fst snd];
      [repeat split; lia|].
    pose proof (wrap64_is_ticks (Ztrunc (dadd x' c_0_5))) as H.
    unfold double_to_ticks, is_ticks in *. repeat split; lia. }
  assert (Hfin : forall x' first s,
            stdout s = stdout st ++ [first] -> rounds s = rounds st -> failed s = failed st ->
            brk s = brk st -> pfd_store s = pfd_store st ->
            exists st',
              (let '(correction, s2) := round_correction x' s in
               let s3 := set_pfd_correction correction (printf warn_le_zero_default s2) in
               let '(std_pp, s4) := enforce_positive q s3 in
               if 0 <? pfd_correction s4
               then Returns (printf (set_correction (pfd_correction s4) (printed std_pp)) s4)
               else AssertionFailed assert_correction s4) = Returns st' /\
              pfd_correction st'
              = (if dle (of_Z UINT64_MAX) x' then UINT64_MAX
                 else if double_to_ticks (dadd x' c_0_5) =? 0 then 1
                      else double_to_ticks (dadd x' c_0_5)) /\
              stdout st'
              = stdout st ++ first ::
                  (if dle (of_Z UINT64_MAX) x' then [warn_clamp_max]
                   else if double_to_ticks (dadd x' c_0_5) =? 0 then [warn_rounded_zero]
                        else []) ++
                  [warn_le_zero_default;
                   set_correction
                     (if dle (of_Z UINT64_MAX) x' then UINT64_MAX
                      else if double_to_ticks (dadd x' c_0_5) =? 0 then 1
                           else double_to_ticks (dadd x' c_0_5)) (printed q)] /\
              rounds st' = rounds st /\ failed st' = failed st /\ brk st' = brk st /\
              pfd_store st' = pfd_store st).
  { intros x' first s O R F B P.
    destruct (Hpos x' s) as (Hp & Hc & Hs).
    destruct (round_correction x' s) as [correction s2]. cbn [fst snd] in *.
    unfold enforce_positive. st_simpl.
    destruct (Z.leb_spec correction 0); [lia|]. st_simpl.
    destruct (Z.ltb_spec 0 correction); [|lia].
    eexists. split; [reflexivity|]. st_simpl. rewrite <- Hc. subst s2.
    destruct (dle (of_Z UINT64_MAX) x'); [|destruct (double_to_ticks (dadd x' c_0_5) =? 0)];
      st_simpl; rewrite O, R, F, B, P, <- !app_assoc; repeat split; reflexivity. }
  destruct (Z.eqb_spec measured 0) as [->|Hne].
  - cbn [Z.ltb Z.compare].
    destruct (Hfin PFD_CONSERVATIVE_DEFAULT warn_le_zero_default
                (printf warn_le_zero_default st1)) as (st' & E & Rest).
    + st_simpl. rewrite F1. reflexivity.
    + exact F2.
    + exact F3.
    + exact F8.
    + exact F4.
    + exists st'. split; [exact E | exact Rest].
  - destruct (Z.ltb_spec 0 measured); [|lia].
    destruct (Hfin (of_Z measured) (warn_direct_delta measured)
                (printf (warn_direct_delta measured) st1)) as (st' & E & Rest).
    + st_simpl. rewrite F1. reflexivity.
    + exact F2.
    + exact F3.
    + exact F8.
    + exact F4.
    + exists st'. split; [exact E | exact Rest].
Qed.

Lemma direct_delta_facts :
  dle (of_Z UINT64_MAX) PFD_CONSERVATIVE_DEFAULT = false /\
  dle (of_Z UINT64_MAX) (of_Z 0) = false /\
  printed NAN = of_Z 0.
Proof. vm_compute. repeat split; reflexivity. Qed.

(** C2 (as the code behaves). When every sample of the measurement round is
    0, [avg] is 0 and the quality is NaN; the test [std_pp > 3] is false on
    NaN, so the round is accepted without a retry, and neither the median
    helper nor a hardware constant is consulted (one round, none failed,
    no allocation, no line of the manual correction).  The zero average is
    replaced by a direct measurement [measured] of 64 back-to-back
    readings, or by the conservative 32 when no pair of readings advanced.
    The correction is what the rounding step of l.292-314 makes of that
    value: [UINT64_MAX] when [(double) measured >= (double) UINT64_MAX],
    else [(ticks) ((double) measured + 0.5)].  It is 32 when [measured] is
    0 and [measured] itself when [0 < measured < 2^52]. *)
Theorem zero_round_uses_direct_delta (a : arch) (n : nat) (st st1 : state) :
  (0 < n)%nat -> Z.of_nat n < 2 ^ 32 ->
  pfd_store_alloc n st = inl st1 ->
  slot 0 (measure_round n st1) = repeat 0 n ->
  let measured :=
    fst (measure_minimum_tick_delta 64 (set_slot 0 (repeat 0 n) (measure_round n st1))) in
  let x := if measured =? 0 then PFD_CONSERVATIVE_DEFAULT else of_Z measured in
  let first := if measured =? 0 then warn_le_zero_default else warn_direct_delta measured in
  let k := double_to_ticks (dadd x c_0_5) in
  let c := if dle (of_Z UINT64_MAX) x then UINT64_MAX else if k =? 0 then 1 else k in
  let clamp := if dle (of_Z UINT64_MAX) x then [warn_clamp_max]
               else if k =? 0 then [warn_rounded_zero] else [] in
  exists st',
    pfd_store_init a n st = Returns st' /\
    avg (snd (get_abs_deviation (repeat 0 n))) = S754_zero false /\
    quality (snd (get_abs_deviation (repeat 0 n))) = NAN /\
    rounds st' = S (rounds st) /\ failed st' = failed st /\ brk st' = brk st1 /\
    pfd_correction st' = c /\
    stdout st' = stdout st ++ first :: clamp ++ [warn_le_zero_default; set_correction c (of_Z 0)] /\
    (measured = 0 ->
     pfd_correction st' = 32 /\
     stdout st' = stdout st ++
       [warn_le_zero_default; warn_le_zero_default; set_correction 32 (of_Z 0)]) /\
    (0 < measured < 2 ^ 52 ->
     pfd_correction st' = measured /\
     stdout st' = stdout st ++
       [warn_direct_delta measured; warn_le_zero_default; set_correction measured (of_Z 0)]) /\
    (dle (of_Z UINT64_MAX) (of_Z measured) = true ->
     pfd_correction st' = UINT64_MAX /\
     stdout st' = stdout st ++
       [warn_direct_delta measured; warn_clamp_max; warn_le_zero_default;
        set_correction UINT64_MAX (of_Z 0)]).
Proof.
  intros Hn Hlt Halloc Hslot. cbv zeta.
  destruct (get_abs_deviation_zeros n Hn Hlt) as (G1 & G2 & G3).
  destruct (pfd_store_alloc_spec n st st1 Halloc) as (A1 & _ & _ & A4 & A5 & A6 & _).
  destruct (measure_round_frame n st1) as (M1 & M2 & M3).
  assert (M4 : brk (measure_round n st1) = brk st1).
  { unfold measure_round. st_simpl.
    destruct (measure_loop_frame n 0 st1) as (_ & _ & _ & H & _). exact H. }
  rewrite (init_first_round_accepted a n st st1 (repeat 0 n) Halloc Hslot)
    by (rewrite G3; exact gate_rejects_not_nan).
  clear Hslot. remember (measure_round n st1) as st2 eqn:E2. clear E2.
  rewrite G1, G2, G3.
  destruct (finish_zero_effect NAN (set_slot 0 (repeat 0 n) st2))
    as (st' & E & C & O & R & F & B & _).
  cbv zeta in C, O. st_simpl_in O. st_simpl_in R. st_simpl_in F. st_simpl_in B.
  destruct direct_delta_facts as (D1 & D2 & D3). rewrite D3 in O.
  set (measured := fst (measure_minimum_tick_delta 64 (set_slot 0 (repeat 0 n) st2))) in *.
  exists st'. split; [exact E|]. split; [reflexivity|]. split; [reflexivity|].
  split; [rewrite R, M2, A5; reflexivity|]. split; [rewrite F, M3, A6; reflexivity|].
  split; [rewrite B, M4; reflexivity|]. split; [exact C|].
  rewrite M1, A4 in O. split; [exact O|].
  split; [|split].
  - intros E0. rewrite E0 in C, O. cbn [Z.eqb] in C, O.
    rewrite D1, conservative_default_rounds in C, O. cbn [Z.eqb] in C, O.
    split; [exact C | exact O].
  - intros Hm. destruct (round_half measured Hm) as [R1 R2].
    destruct (Z.eqb_spec measured 0) as [E0|_]; [lia|].
    rewrite R1, R2 in C, O.
    destruct (Z.eqb_spec measured 0) as [E0|_]; [lia|].
    split; [exact C | exact O].
  - intros Hd. destruct (Z.eqb_spec measured 0) as [E0|_].
    + rewrite E0, D2 in Hd. discriminate Hd.
    + rewrite Hd in C, O. split; [exact C | exact O].
Qed.

Lemma zero_round_uses_direct_delta_witness :
  exists st',
    pfd_store_init DEFAULT 10 (boot frozen_then_running always_ok) = Returns st' /\
    pfd_correction st' = 3.
Proof.
  destruct (zero_round_uses_direct_delta DEFAULT 10
              (boot frozen_then_running always_ok)
              (allocated 10 (boot frozen_then_running always_ok)))
    as (st' & E & _ & _ & _ & _ & _ & _ & _ & _ & H & _).
  - lia.
  - reflexivity.
  - vm_compute. reflexivity.
  - vm_compute. reflexivity.
  - exists st'. split; [exact E|].
    replace 3 with (fst (measure_minimum_tick_delta 64
                           (set_slot 0 (repeat 0 10)
                              (measure_round 10
                                 (allocated 10 (boot frozen_then_running always_ok))))))
      by (vm_compute; reflexivity).
    apply H. vm_compute. split; reflexivity.
Defined.

(** C2, as stated, fails: with a counter that stands still during the
    round and runs afterwards, all ten samples are 0, yet a single round is
    run (no retry), nothing is printed about a manual or median
    correction, and the final correction is 3, not 32. *)
Lemma zero_round_counterexample :
  slot 0 (measure_round 10 (allocated 10 (boot frozen_then_running always_ok)))
  = repeat 0 10 /\
  match pfd_store_init DEFAULT 10 (boot frozen_then_running always_ok) with
  | Returns st' =>
      rounds st' = 1%nat /\ failed st' = 0%nat /\ pfd_correction st' = 3 /\
      pfd_correction st' <> 32 /\
      stdout st' = [warn_direct_delta 3; warn_le_zero_default; set_correction 3 (of_Z 0)]
  | AssertionFailed _ _ => False
  end.
Proof. vm_compute. repeat split; try reflexivity. discriminate. Qed.

Lemma steady_round_facts :
  fst (get_abs_deviation steady_samples) = steady_samples /\
  avg (snd (get_abs_deviation steady_samples)) = of_Z 20 /\
  quality (snd (get_abs_deviation steady_samples)) = steady_quality /\
  dlt (of_Z PFD_CORRECTION_CONF) steady_quality = false /\
  isfinite (of_Z 20) = true /\ dle (of_Z 20) (of_Z 0) = false /\
  dlt (of_Z 20) (of_Z 1) = false /\ dle (of_Z UINT64_MAX) (of_Z 20) = false /\
  double_to_ticks (dadd (of_Z 20) c_0_5) = 20 /\ printed steady_quality = steady_quality /\
  dlt (of_Z 3) steady_quality = false /\ dlt (of_Z 2) steady_quality = true.
Proof. vm_compute. repeat split; reflexivity. Qed.

(** What [pfd_store_init] leaves when the first round is accepted with an
    average that needs no sanitizing. *)
Lemma accepted_round_effect (n : nat) (st st1 : state) (vals : list ticks)
      (x q : double) (c : ticks) :
  pfd_store_alloc n st = inl st1 ->
  isfinite x = true -> dle x (of_Z 0) = false -> dlt x (of_Z 1) = false ->
  dle (of_Z UINT64_MAX) x = false -> double_to_ticks (dadd x c_0_5) = c -> 0 < c ->
  exists st',
    finish x q (set_slot 0 vals (measure_round n st1)) = Returns st' /\
    pfd_correction st' = c /\ rounds st' = S (rounds st) /\ failed st' = failed st /\
    stdout st' = stdout st ++ [set_correction c (printed q)].
Proof.
  intros Halloc H1 H2 H3 H4 H5 H6.
  destruct (pfd_store_alloc_spec n st st1 Halloc) as (A1 & _ & _ & A4 & A5 & A6 & _).
  destruct (measure_round_frame n st1) as (M1 & M2 & M3).
  rewrite (finish_plain x q _ c H1 H2 H3 H4 H5 H6).
  eexists. split; [reflexivity|]. st_simpl.
  rewrite M1, M2, M3, A4, A5, A6. repeat split; reflexivity.
Qed.

(** C8 (as the code behaves). For the samples
    [20,20,20,20,20,20,20,20,21,19] the average is 20 and the quality is
    about 2.24, which does not exceed the threshold 3: the round is
    accepted at the first attempt, nothing but the final line is printed,
    and the correction is 20. *)
Theorem steady_round_accepted (a : arch) (st st1 : state) :
  pfd_store_alloc 10 st = inl st1 ->
  slot 0 (measure_round 10 st1) = steady_samples ->
  exists st',
    pfd_store_init a 10 st = Returns st' /\
    avg (snd (get_abs_deviation steady_samples)) = of_Z 20 /\
    quality (snd (get_abs_deviation steady_samples)) = steady_quality /\
    dlt (of_Z 3) steady_quality = false /\ dlt (of_Z 2) steady_quality = true /\
    pfd_correction st' = 20 /\
    rounds st' = S (rounds st) /\ failed st' = failed st /\
    stdout st' = stdout st ++ [set_correction 20 steady_quality].
Proof.
  intros Halloc Hslot.
  destruct steady_round_facts
    as (G1 & G2 & G3 & G4 & G5 & G6 & G7 & G8 & G9 & G10 & G11 & G12).
  pose proof (init_first_round_accepted a 10 st st1 steady_samples Halloc Hslot) as Hrun.
  rewrite G3 in Hrun. specialize (Hrun G4). rewrite G1, G2 in Hrun.
  destruct (accepted_round_effect 10 st st1 steady_samples (of_Z 20) steady_quality 20
              Halloc G5 G6 G7 G8 G9 ltac:(lia))
    as (st' & E & H1 & H2 & H3 & H4).
  exists st'. rewrite G10 in H4. rewrite Hrun.
  split; [exact E|].
  split; [exact G2|]. split; [exact G3|]. split; [exact G11|]. split; [exact G12|].
  split; [exact H1|]. split; [exact H2|]. split; [exact H3|exact H4].
Qed.

Lemma steady_round_accepted_witness :
  exists st',
    pfd_store_init DEFAULT 10 (boot (tsc_of steady_samples) always_ok) = Returns st' /\
    pfd_correction st' = 20.
Proof.
  destruct (steady_round_accepted DEFAULT
              (boot (tsc_of steady_samples) always_ok)
              (allocated 10 (boot (tsc_of steady_samples) always_ok)))
    as (st' & E & _ & _ & _ & _ & Hc & _).
  - vm_compute. reflexivity.
  - vm_compute. reflexivity.
  - exists st'. split; [exact E | exact Hc].
Defined.

(** C8, as stated, fails: the quality of this round is below 3 (it is about
    2.24, not about 97) and does not exceed the threshold; the round is
    accepted because of that. *)
Lemma steady_quality_counterexample :
  let q := quality (snd (get_abs_deviation steady_samples)) in
  dlt q (of_Z 3) = true /\ dlt (of_Z 3) q = false /\ dle (of_Z 96) q = false.
Proof. vm_compute. repeat split; reflexivity. Qed.

(** * Minimum and maximum tracking *)

Lemma dlt_of_Z a b : 0 <= a < 2 ^ 53 -> 0 <= b < 2 ^ 53 -> dlt (of_Z a) (of_Z b) = (a <? b).
Proof.
  intros Ha Hb. unfold dlt, SFltb. rewrite (SFcompare_of_Z a b Ha Hb).
  unfold Z.ltb. destruct (a ?= b); reflexivity.
Qed.

Lemma small_lt_2_53 v : 0 <= v <= 1500 -> 0 <= v < 2 ^ 53.
Proof. intros. split; [lia|]. apply Z.le_lt_trans with 1500; [lia|reflexivity]. Qed.

Lemma extremes_step (l : list ticks) (k : nat) (v : ticks) (s : pass1) :
  (forall (j : nat) (u : ticks), nth_error l j = Some u -> 0 <= u <= 1500) ->
  nth_error l k = Some v ->
  forall a, extremes_inv l k s -> extremes_inv l (S k) (pass1_step a (Z.of_nat k) v s).
Proof.
  intros Hl Hk a (M & HM & HMr & Hall & Hidx & Hmin).
  pose proof (Hl k v Hk) as Hv.
  unfold pass1_step. cbv zeta.
  rewrite HM, (dlt_of_Z M v (small_lt_2_53 M HMr) (small_lt_2_53 v Hv)).
  destruct (Z.ltb_spec M v) as [Hlt|Hge]; cbn [negb andb].
  - (* the sample raises the maximum *)
    assert (Hnew : new_maximum l k).
    { exists v. split; [exact Hk|]. split; [lia|].
      intros i u Hi Hu. specialize (Hall i u Hi Hu). lia. }
    exists v. cbn [p_max_val p_max_val_idx p_min_val p_min_val_idx].
    split; [reflexivity|]. split; [lia|]. split.
    { intros j u Hj Hu. destruct (Nat.eq_dec j k) as [Ejk|Hne].
      - rewrite Ejk, Hk in Hu. injection Hu as <-. lia.
      - specialize (Hall j u ltac:(lia) Hu). lia. }
    split.
    { right. split; [lia|]. exists k. repeat split; auto.
      intros i u Hi Hu. specialize (Hall i u Hi Hu). lia. }
    destruct Hmin as [(H1 & H2 & H3)|(jn & m & H1 & H2 & H3 & H4 & j & Hj & Hnj)].
    + left. repeat split; auto. intros j Hj.
      destruct (Nat.eq_dec j k) as [Ejk|Hne]; [rewrite Ejk; exact Hnew | apply H3; lia].
    + right. exists jn, m. repeat split; auto. exists j. split; [lia|exact Hnj].
  - (* it does not *)
    assert (Hnot : ~ new_maximum l k).
    { intros (v' & Hv' & Hpos & Hbefore). rewrite Hk in Hv'. injection Hv' as <-.
      destruct Hidx as [(H0 & _)|(Hpos' & jm & _ & Hjm & Hnth & _)]; [lia|].
      specialize (Hbefore jm M Hjm Hnth). lia. }
    exists M. cbn [p_max_val p_max_val_idx p_min_val p_min_val_idx].
    split; [reflexivity|]. split; [exact HMr|]. split.
    { intros j u Hj Hu. destruct (Nat.eq_dec j k) as [Ejk|Hne].
      - rewrite Ejk, Hk in Hu. injection Hu as <-. lia.
      - apply (Hall j u); [lia|exact Hu]. }
    split.
    { destruct Hidx as [H0|(Hpos & jm & H1 & H2 & H3 & H4)]; [left; exact H0|].
      right. split; [exact Hpos|]. exists jm. repeat split; auto. }
    right.
    destruct Hmin as [(H1 & H2 & H3)|(jn & m & H1 & H2 & H3 & H4 & j & Hj & Hnj)].
    + rewrite H1. unfold dlt, DBL_MAX. rewrite (of_Z_lt_DBL_MAX v (small_lt_2_53 v Hv)).
      exists k, v. repeat split; auto. exists k. split; [lia|exact Hnot].
    + rewrite H4.
      pose proof (Hl jn m H3) as Hm.
      rewrite (dlt_of_Z v m (small_lt_2_53 v Hv) (small_lt_2_53 m Hm)).
      destruct (Z.ltb_spec v m).
      * exists k, v. repeat split; auto. exists j. split; [lia|exact Hnj].
      * exists jn, m. repeat split; auto. exists j. split; [lia|exact Hnj].
Qed.

Lemma clipped_range (vals : list ticks) (j : nat) (u : ticks) :
  nth_error (map clip vals) j = Some u -> 0 <= u <= 1500.
Proof.
  rewrite nth_error_map. destruct (nth_error vals j); [|discriminate].
  intros [= <-]. apply clip_bounds.
Qed.

Lemma extremes_final vals :
  Z.of_nat (length vals) < 2 ^ 32 ->
  extremes_inv (map clip vals) (length vals) (pass1_of vals).
Proof.
  intros Hlen. unfold pass1_of. cbv zeta.
  match goal with |- extremes_inv _ _ (for_each ?body _ _ _) =>
    pose proof (for_each_invariant body (extremes_inv (map clip vals))
                  (map clip vals) pass1_init) as H
  end.
  rewrite length_map in H. apply H.
  - exact Hlen.
  - exists 0. cbn [pass1_init p_max_val p_max_val_idx p_min_val p_min_val_idx].
    split; [reflexivity|]. split; [lia|]. split; [intros; lia|].
    split; [left; split; reflexivity|]. left. repeat split; auto. intros; lia.
  - intros k v s Hk Hinv. apply extremes_step; auto. apply clipped_range.
Qed.

Lemma pass1_step_exclusive a i v s :
  let s' := pass1_step a i v s in
  (p_max_val s' = p_max_val s /\ p_max_val_idx s' = p_max_val_idx s) \/
  (p_min_val s' = p_min_val s /\ p_min_val_idx s' = p_min_val_idx s).
Proof.
  unfold pass1_step. cbv zeta. cbn [p_max_val p_max_val_idx p_min_val p_min_val_idx].
  destruct (dlt (p_max_val s) (of_Z v)); cbn [negb andb]; [right|left]; split; reflexivity.
Qed.

Lemma for_each_cons {S : Type} (body : Z -> ticks -> S -> S) i v rest s :
  for_each body i (v :: rest) s = for_each body (wrap32 (i + 1)) rest (body i v s).
Proof. reflexivity. Qed.

(** On equal samples the tracked extremes stop moving once both hold the
    sample. *)
Lemma pass1_stable a v : forall l i s,
  Forall (fun u => u = v) l -> 0 <= v <= 1500 ->
  p_max_val s = of_Z v -> p_min_val s = of_Z v ->
  let s' := for_each (pass1_step a) i l s in
  p_max_val s' = p_max_val s /\ p_max_val_idx s' = p_max_val_idx s /\
  p_min_val s' = p_min_val s /\ p_min_val_idx s' = p_min_val_idx s.
Proof.
  induction l as [|u l IH]; intros i s Hall Hv Hmax Hmin.
  - repeat split; reflexivity.
  - cbv zeta. rewrite for_each_cons. inversion Hall as [|? ? Hu Hall']; subst.
    assert (Hd : dlt (of_Z v) (of_Z v) = false).
    { rewrite (dlt_of_Z v v (small_lt_2_53 v Hv) (small_lt_2_53 v Hv)). apply Z.ltb_irrefl. }
    assert (E : p_max_val (pass1_step a i v s) = p_max_val s /\
                p_max_val_idx (pass1_step a i v s) = p_max_val_idx s /\
                p_min_val (pass1_step a i v s) = p_min_val s /\
                p_min_val_idx (pass1_step a i v s) = p_min_val_idx s).
    { unfold pass1_step. cbv zeta. cbn [p_max_val p_max_val_idx p_min_val p_min_val_idx].
      rewrite Hmax, Hmin, Hd. cbn [negb andb]. repeat split; reflexivity. }
    destruct E as (E1 & E2 & E3 & E4).
    destruct (IH (wrap32 (i + 1)) (pass1_step a i v s) Hall' Hv) as (F1 & F2 & F3 & F4);
      try congruence.
    cbv zeta. rewrite F1, F2, F3, F4. repeat split; assumption.
Qed.

Lemma pass1_all_equal a v n :
  0 <= v <= 1500 ->
  let s := for_each (pass1_step a) 0 (repeat v (S n)) pass1_init in
  p_max_val_idx s = 0 /\
  p_min_val_idx s = if (v =? 0) || (n =? 0)%nat then 0 else 1.
Proof.
  intros Hv. cbv zeta.
  change (repeat v (S n)) with (v :: repeat v n). rewrite for_each_cons.
  assert (Hall : forall k, Forall (fun u => u = v) (repeat v k)).
  { intros k. apply Forall_forall. intros x Hx. apply repeat_spec in Hx. exact Hx. }
  change (wrap32 (0 + 1)) with 1.
  destruct (Z.eqb_spec v 0) as [->|Hne]; cbn [orb].
  - (* all zeros: the first sample moves [min] only *)
    assert (E : p_max_val (pass1_step a 0 0 pass1_init) = of_Z 0 /\
                p_max_val_idx (pass1_step a 0 0 pass1_init) = 0 /\
                p_min_val (pass1_step a 0 0 pass1_init) = of_Z 0 /\
                p_min_val_idx (pass1_step a 0 0 pass1_init) = 0).
    { unfold pass1_step. cbv zeta. cbn [p_max_val p_max_val_idx p_min_val p_min_val_idx pass1_init].
      replace (dlt (of_Z 0) (of_Z 0)) with false by reflexivity.
      replace (dlt (of_Z 0) DBL_MAX) with true by reflexivity.
      cbn [negb andb]. repeat split; reflexivity. }
    destruct E as (E1 & E2 & E3 & E4).
    destruct (pass1_stable a 0 (repeat 0 n) 1 (pass1_step a 0 0 pass1_init)
                (Hall n) ltac:(lia) E1 E3) as (F1 & F2 & F3 & F4).
    rewrite F2, F4, E2, E4. split; reflexivity.
  - (* positive samples: the first moves [max], the second moves [min] *)
    assert (Hpos : dlt (of_Z 0) (of_Z v) = true).
    { rewrite (dlt_of_Z 0 v ltac:(split; [lia|reflexivity]) (small_lt_2_53 v Hv)).
      apply Z.ltb_lt. lia. }
    assert (E : p_max_val (pass1_step a 0 v pass1_init) = of_Z v /\
                p_max_val_idx (pass1_step a 0 v pass1_init) = 0 /\
                p_min_val (pass1_step a 0 v pass1_init) = DBL_MAX /\
                p_min_val_idx (pass1_step a 0 v pass1_init) = 0).
    { unfold pass1_step. cbv zeta. cbn [p_max_val p_max_val_idx p_min_val p_min_val_idx pass1_init].
      rewrite Hpos. cbn [negb andb]. repeat split; reflexivity. }
    destruct E as (E1 & E2 & E3 & E4).
    destruct n as [|n]; [cbn [repeat for_each Nat.eqb]; rewrite E2, E4; split; reflexivity|].
    cbn [Nat.eqb]. change (repeat v (S n)) with (v :: repeat v n). rewrite for_each_cons.
    set (s1 := pass1_step a 0 v pass1_init) in *.
    assert (E' : p_max_val (pass1_step a 1 v s1) = of_Z v /\
                 p_max_val_idx (pass1_step a 1 v s1) = 0 /\
                 p_min_val (pass1_step a 1 v s1) = of_Z v /\
                 p_min_val_idx (pass1_step a 1 v s1) = 1).
    { unfold pass1_step. cbv zeta. cbn [p_max_val p_max_val_idx p_min_val p_min_val_idx].
      rewrite E1, E2, E3.
      rewrite (dlt_of_Z v v (small_lt_2_53 v Hv) (small_lt_2_53 v Hv)), Z.ltb_irrefl.
      unfold dlt, DBL_MAX. rewrite (of_Z_lt_DBL_MAX v (small_lt_2_53 v Hv)).
      cbn [negb andb]. repeat split; reflexivity. }
    destruct E' as (E1' & E2' & E3' & E4').
    destruct (pass1_stable a v (repeat v n) (wrap32 (1 + 1)) (pass1_step a 1 v s1)
                (Hall n) Hv E1' E3') as (F1 & F2 & F3 & F4).
    rewrite F2, F4, E2', E4'. split; reflexivity.
Qed.

Lemma of_Z_ne_DBL_MAX v : 0 <= v <= 1500 -> of_Z v <> DBL_MAX.
Proof.
  intros Hv E. pose proof (of_Z_lt_DBL_MAX v (small_lt_2_53 v Hv)) as H.
  unfold DBL_MAX in E. rewrite E in H. discriminate H.
Qed.

(** C6 (amended). For a non-empty sample array whose count fits the loop
    index: [max_val] is the largest clipped sample and [max_val_idx] is the
    first position that holds it.  [min_val_idx] points to an entry equal to
    [min_val] exactly when some sample did not raise the maximum; when every
    sample raised it (a strictly increasing run of positive samples, a single
    positive sample), [min_val] is still [DBL_MAX], [min_val_idx] is 0 and no
    entry equals [min_val].  For all-equal samples [max_val_idx] is 0 and
    [min_val_idx] is 1 when the clipped sample is positive and there are two
    or more, 0 otherwise.  One iteration never updates both extremes. *)
Theorem extremes_point_to_entries (vals : list ticks) :
  Z.of_nat (length vals) < 2 ^ 32 -> vals <> [] ->
  let l := fst (get_abs_deviation vals) in
  let ad := snd (get_abs_deviation vals) in
  (exists jm M,
      max_val_idx ad = Z.of_nat jm /\ nth_error l jm = Some M /\ max_val ad = of_Z M /\
      (forall j v, nth_error l j = Some v -> v <= M) /\
      (forall i u, (i < jm)%nat -> nth_error l i = Some u -> u < M)) /\
  ((exists j, (j < length vals)%nat /\ ~ new_maximum l j) ->
   exists jn m, min_val_idx ad = Z.of_nat jn /\ nth_error l jn = Some m /\
                min_val ad = of_Z m) /\
  ((forall j, (j < length vals)%nat -> new_maximum l j) ->
   min_val ad = DBL_MAX /\ min_val_idx ad = 0 /\
   forall j v, nth_error l j = Some v -> of_Z v <> min_val ad) /\
  (forall v n, vals = repeat v (S n) ->
               max_val_idx ad = 0 /\
               min_val_idx ad = if (clip v =? 0) || (n =? 0)%nat then 0 else 1) /\
  (forall a i v s,
      let s' := pass1_step a i v s in
      (p_max_val s' = p_max_val s /\ p_max_val_idx s' = p_max_val_idx s) \/
      (p_min_val s' = p_min_val s /\ p_min_val_idx s' = p_min_val_idx s)).
Proof.
  intros Hlen Hne l ad.
  destruct (get_abs_deviation_pass1 vals) as (E1 & E2 & E3 & E4 & _).
  fold ad in E1, E2, E3, E4.
  assert (El : l = map clip vals) by reflexivity.
  destruct (extremes_final vals Hlen) as (M & HM & HMr & Hall & Hidx & Hmin).
  rewrite <- El in Hall, Hidx, Hmin.
  assert (Hin : forall j (v : ticks), nth_error l j = Some v -> (j < length vals)%nat).
  { intros j v Hj. rewrite <- (length_map clip vals), <- El.
    apply nth_error_Some. rewrite Hj. discriminate. }
  repeat split.
  - destruct Hidx as [(H0 & Hi)|(Hpos & jm & Hi & Hjm & Hnth & Hfirst)].
    + exists O, M. rewrite E2, E1, Hi, HM.
      assert (Hhd : nth_error l 0 = Some M).
      { rewrite El. destruct vals as [|v0 rest]; [contradiction|].
        pose proof (Hall O (clip v0) ltac:(simpl; lia)) as H.
        rewrite El in H. specialize (H eq_refl).
        pose proof (clip_bounds v0). simpl. f_equal. lia. }
      repeat split; auto.
      * intros j v Hj. exact (Hall j v (Hin j v Hj) Hj).
      * intros i u Hi'. lia.
    + exists jm, M. rewrite E2, E1, Hi, HM. repeat split; auto.
      intros j v Hj. exact (Hall j v (Hin j v Hj) Hj).
  - intros (j & Hj & Hnj).
    destruct Hmin as [(_ & _ & Hnew)|(jn & m & H1 & _ & H3 & H4 & _)].
    + contradiction (Hnj (Hnew j Hj)).
    + exists jn, m. rewrite E4, E3. auto.
  - destruct Hmin as [(H1 & _)|(_ & _ & _ & _ & _ & _ & j & Hj & Hnj)].
    + rewrite E3. exact H1.
    + contradiction (Hnj (H j Hj)).
  - destruct Hmin as [(_ & H2 & _)|(_ & _ & _ & _ & _ & _ & j & Hj & Hnj)].
    + rewrite E4. exact H2.
    + contradiction (Hnj (H j Hj)).
  - intros j v Hj.
    destruct Hmin as [(H1 & _)|(_ & _ & _ & _ & _ & _ & j' & Hj' & Hnj)].
    + rewrite E3, H1. apply of_Z_ne_DBL_MAX.
      rewrite El in Hj. exact (clipped_range vals j v Hj).
    + contradiction (Hnj (H j' Hj')).
  - rewrite E2. unfold pass1_of. cbv zeta. rewrite H, map_repeat.
    apply (pass1_all_equal _ (clip v) n (clip_bounds v)).
  - rewrite E4. unfold pass1_of. cbv zeta. rewrite H, map_repeat.
    apply (pass1_all_equal _ (clip v) n (clip_bounds v)).
  - apply pass1_step_exclusive.
Qed.

Lemma extremes_point_to_entries_witness :
  let ad := snd (get_abs_deviation [5; 3; 9; 3]) in
  exists jn m, min_val_idx ad = Z.of_nat jn /\
               nth_error (fst (get_abs_deviation [5; 3; 9; 3])) jn = Some m /\
               min_val ad = of_Z m.
Proof.
  apply (extremes_point_to_entries [5; 3; 9; 3]).
  - reflexivity.
  - discriminate.
  - exists 1%nat. split; [simpl; lia|].
    intros (v & Hv & _ & Hlt).
    assert (Ev : v = 3) by (vm_compute in Hv; congruence).
    assert (H5 : 5 < v) by (apply (Hlt O); [apply Nat.lt_0_1 | reflexivity]).
    rewrite Ev in H5. discriminate H5.
Defined.

(** C6, as the specification words it, fails on the one-sample array [[5]]:
    [min_val_idx] is 0 and entry 0 holds 5, yet [min_val] is [DBL_MAX]. *)
Lemma min_idx_counterexample :
  min_val_idx (snd (get_abs_deviation [5])) = 0 /\
  nth_error (fst (get_abs_deviation [5])) 0 = Some 5 /\
  min_val (snd (get_abs_deviation [5])) = DBL_MAX /\
  deq (of_Z 5) (min_val (snd (get_abs_deviation [5]))) = false.
Proof. vm_compute. repeat split; reflexivity. Qed.

(** * The median of the non-zero samples *)

Lemma ticks_compare_le a b : (ticks_compare a b <=? 0) = (a <=? b).
Proof.
  unfold ticks_compare.
  destruct (Z.ltb_spec a b); destruct (Z.ltb_spec b a); destruct (Z.leb_spec a b);
    try reflexivity; lia.
Qed.

Lemma qsort_insert_perm x l : Permutation (x :: l) (qsort_insert ticks_compare x l).
Proof.
  induction l as [|y r IH]; simpl; [apply Permutation_refl|].
  destruct (ticks_compare x y <=? 0); [apply Permutation_refl|].
  apply perm_trans with (y :: x :: r); [apply perm_swap|].
  apply perm_skip. exact IH.
Qed.

Lemma qsort_perm l : Permutation l (qsort ticks_compare l).
Proof.
  induction l as [|x r IH]; simpl; [apply perm_nil|].
  apply perm_trans with (x :: qsort ticks_compare r); [apply perm_skip; exact IH|].
  apply qsort_insert_perm.
Qed.

Lemma qsort_insert_sorted x l :
  StronglySorted Z.le l -> StronglySorted Z.le (qsort_insert ticks_compare x l).
Proof.
  induction 1 as [|y r Hs IH Hall]; simpl.
  - constructor; constructor.
  - rewrite ticks_compare_le. destruct (Z.leb_spec x y) as [Hle|Hgt].
    + constructor; [constructor; assumption|].
      constructor; [exact Hle|].
      apply Forall_impl with (P := Z.le y); [intros; lia | exact Hall].
    + constructor; [exact IH|].
      apply (Permutation_Forall (qsort_insert_perm x r)).
      constructor; [lia | exact Hall].
Qed.

Lemma qsort_sorted l : StronglySorted Z.le (qsort ticks_compare l).
Proof.
  induction l as [|x r IH]; simpl; [constructor|].
  apply qsort_insert_sorted. exact IH.
Qed.

Lemma qsort_length l : length (qsort ticks_compare l) = length l.
Proof. symmetry. apply Permutation_length, qsort_perm. Qed.

Lemma land_1_even n : (Z.land n 1 =? 0) = Z.even n.
Proof.
  change 1 with (Z.ones 1) at 1. rewrite Z.land_ones by lia.
  rewrite Z.pow_1_r, Zmod_even. destruct (Z.even n); reflexivity.
Qed.

Lemma median_non_zero_ticks_cases samples st :
  let scratch := filter (fun value => negb (value =? 0)) samples in
  fst (median_non_zero_ticks samples st) =
  if negb (heap_ok st (brk st)) then NAN
  else match scratch with
       | [] => NAN
       | _ :: _ => middle (qsort ticks_compare scratch)
       end.
Proof.
  cbv zeta. unfold median_non_zero_ticks, malloc.
  destruct samples as [|v0 rest]; [destruct (heap_ok st (brk st)); reflexivity|].
  replace (Z.of_nat (length (v0 :: rest)) =? 0) with false
    by (symmetry; apply Z.eqb_neq; simpl length; lia).
  destruct (heap_ok st (brk st)); cbn [negb]; [|reflexivity].
  set (scratch := filter (fun value => negb (value =? 0)) (v0 :: rest)).
  destruct scratch as [|s0 srest] eqn:E; [reflexivity|].
  replace (Z.of_nat (length (s0 :: srest)) =? 0) with false
    by (symmetry; apply Z.eqb_neq; simpl length; lia).
  unfold middle. rewrite qsort_length, land_1_even. reflexivity.
Qed.

Lemma filter_non_zero_nil samples :
  filter (fun value => negb (value =? 0)) samples = [] <-> Forall (fun v => v = 0) samples.
Proof.
  induction samples as [|v r IH]; simpl.
  - split; auto.
  - destruct (Z.eqb_spec v 0) as [->|Hne]; simpl.
    + rewrite IH. split; [intros; constructor; auto | intros H; inversion H; auto].
    + split; [discriminate | intros H; inversion H; congruence].
Qed.

(** C7. [median_non_zero_ticks] works on the non-zero samples, which
    [qsort] leaves sorted, and returns their middle element, or the mean of
    the two middle elements when their number is even; it returns NaN when
    every sample is 0 (or there is none) and when [malloc] fails; for
    [[0,0,5,0,3]] it returns 4.0. *)
Theorem median_is_middle_of_non_zero (samples : list ticks) (st : state) :
  let scratch := filter (fun value => negb (value =? 0)) samples in
  let sorted := qsort ticks_compare scratch in
  let result := fst (median_non_zero_ticks samples st) in
  Permutation scratch sorted /\ StronglySorted Z.le sorted /\
  (forall v, In v sorted <-> In v samples /\ v <> 0) /\
  (heap_ok st (brk st) = true -> scratch <> [] -> result = middle sorted) /\
  (Forall (fun v => v = 0) samples -> result = NAN) /\
  (heap_ok st (brk st) = false -> result = NAN) /\
  (heap_ok st (brk st) = true ->
   fst (median_non_zero_ticks [0; 0; 5; 0; 3] st) = of_Z 4 /\
   of_Z 4 = S754_finite false 4503599627370496 (-50)) /\
  snd (median_non_zero_ticks samples st) =
    (if (length samples =? 0)%nat then st else snd (malloc st)).
Proof.
  cbv zeta. pose proof (median_non_zero_ticks_cases samples st) as Hc. cbv zeta in Hc.
  split; [apply qsort_perm|]. split; [apply qsort_sorted|]. split.
  { intros v. split.
    - intros Hin. apply (Permutation_in v (Permutation_sym (qsort_perm _))) in Hin.
      apply filter_In in Hin. destruct Hin as [Hin Hnz]. split; [exact Hin|].
      intros ->. discriminate Hnz.
    - intros [Hin Hnz]. apply (Permutation_in v (qsort_perm _)).
      apply filter_In. split; [exact Hin|].
      destruct (Z.eqb_spec v 0); [contradiction | reflexivity]. }
  split.
  { intros Hok Hne. rewrite Hc, Hok. cbn [negb].
    destruct (filter (fun value => negb (value =? 0)) samples);
      [contradiction | reflexivity]. }
  split.
  { intros Hz. apply filter_non_zero_nil in Hz. rewrite Hc, Hz.
    destruct (negb _); reflexivity. }
  split.
  { intros Hf. rewrite Hc, Hf. reflexivity. }
  split.
  { intros Hok. split; [|vm_compute; reflexivity].
    rewrite (median_non_zero_ticks_cases [0; 0; 5; 0; 3] st), Hok.
    vm_compute. reflexivity. }
  unfold median_non_zero_ticks.
  destruct samples as [|v0 rest]; [reflexivity|].
  replace (Z.of_nat (length (v0 :: rest)) =? 0) with false
    by (symmetry; apply Z.eqb_neq; simpl length; lia).
  cbn [length Nat.eqb].
  destruct (malloc st) as [ok st1]. cbn [snd].
  destruct (negb ok); [reflexivity|].
  match goal with |- context [if ?c then _ else _] => destruct c end; reflexivity.
Qed.

Lemma in_1_2_64_facts x :
  in_1_2_64 x ->
  x <> NAN /\ isfinite x = true /\ dlt (of_Z 0) x = true /\ dle x (of_Z 0) = false /\
  dle (of_Z 1) x = true /\ dlt x (of_Z 1) = false.
Proof.
  intros (m & e & -> & _ & Ha & He).
  destruct (ge_one m e Ha He) as [H1 H2].
  repeat split; try reflexivity; try assumption. discriminate.
Qed.

Lemma nthZ_in i (l : list ticks) :
  0 <= i < Z.of_nat (length l) -> In (nthZ i l) l.
Proof. intros Hi. unfold nthZ. apply nth_In. lia. Qed.

Lemma middle_range (sorted : list ticks) :
  sorted <> [] -> Forall (fun v => 0 < v < 2 ^ 64) sorted -> in_1_2_64 (middle sorted).
Proof.
  intros Hne Hall. rewrite Forall_forall in Hall.
  assert (Hlen : 0 < Z.of_nat (length sorted)).
  { destruct sorted; [contradiction | simpl length; lia]. }
  unfold middle. cbv zeta.
  set (count := Z.of_nat (length sorted)) in *.
  destruct (Z.even count) eqn:Ev.
  - apply Z.even_spec in Ev. destruct Ev as [h Eh].
    assert (Hh : count / 2 = h) by (rewrite Eh, Z.mul_comm; apply Z.div_mul; lia).
    rewrite Hh.
    apply ddiv_two_range, dadd_range; apply of_Z_range, Hall, nthZ_in; fold count; lia.
  - assert (Hh : 0 <= count / 2 < count).
    { split; [apply Z.div_pos; lia | apply Z.div_lt; lia]. }
    apply of_Z_range, Hall, nthZ_in. exact Hh.
Qed.

Lemma median_range samples st :
  Forall is_ticks samples ->
  fst (median_non_zero_ticks samples st) = NAN \/
  in_1_2_64 (fst (median_non_zero_ticks samples st)).
Proof.
  intros Ht. rewrite median_non_zero_ticks_cases. cbv zeta.
  destruct (negb (heap_ok st (brk st))); [left; reflexivity|].
  destruct (filter (fun value => negb (value =? 0)) samples) as [|s0 r] eqn:E;
    [left; reflexivity|].
  right. apply middle_range.
  - intros H. pose proof (qsort_perm (s0 :: r)) as P. rewrite H in P.
    apply Permutation_sym, Permutation_nil in P. discriminate P.
  - apply (Permutation_Forall (qsort_perm (s0 :: r))). rewrite <- E.
    apply Forall_forall. intros v Hv. apply filter_In in Hv. destruct Hv as [Hin Hnz].
    rewrite Forall_forall in Ht. specialize (Ht v Hin). unfold is_ticks in Ht.
    destruct (Z.eqb_spec v 0); [discriminate | lia].
Qed.

Lemma slot_printf s l st : slot s (printf l st) = slot s st.
Proof. reflexivity. Qed.

(** C10. On [uint64_t] samples [median_non_zero_ticks] returns NaN or a
    finite value that is at least 1.  When the median is not NaN the
    fallback of [pfd_store_init] installs it as the average, and the final
    checks on the average leave it as it is: it is finite, not [<= 0] and
    not [< 1], so nothing is clamped and nothing is printed. *)
Theorem median_at_least_one (a : arch) (samples : list ticks) (st : state) :
  Forall is_ticks samples ->
  let median := fst (median_non_zero_ticks samples st) in
  (median = NAN \/
   (isfinite median = true /\ dle (of_Z 1) median = true /\ dlt median (of_Z 1) = false)) /\
  (median <> NAN ->
   (slot 0 st = samples ->
    fst (manual_correction a st) = fst (median_non_zero_ticks samples (printf warn_manual st))) /\
   forall st', sanitize median st' = (median, st')).
Proof.
  intros Ht median. 
  destruct (median_range samples st Ht) as [E|Hr].
  - split; [left; exact E|]. intros Hn. contradiction.
  - destruct (in_1_2_64_facts _ Hr) as (Hnan & Hfin & Hpos & Hle0 & Hge1 & Hlt1).
    fold median in Hnan, Hfin, Hpos, Hle0, Hge1, Hlt1.
    split; [right; repeat split; assumption|]. intros _. split.
    + intros Es. unfold manual_correction. rewrite slot_printf, Es.
      assert (Em : fst (median_non_zero_ticks samples (printf warn_manual st)) = median).
      { unfold median. rewrite !median_non_zero_ticks_cases. reflexivity. }
      destruct (median_non_zero_ticks samples (printf warn_manual st)) as [m st1].
      cbn [fst] in Em |- *. rewrite Em, Hfin, Hpos. reflexivity.
    + intros st'. unfold sanitize. rewrite Hfin, Hle0, Hlt1. reflexivity.
Qed.

Lemma median_at_least_one_witness :
  let median := fst (median_non_zero_ticks [0; 7; 0; 2] (boot (fun _ => 0) always_ok)) in
  median = NAN \/
  (isfinite median = true /\ dle (of_Z 1) median = true /\ dlt median (of_Z 1) = false).
Proof.
  apply (median_at_least_one DEFAULT [0; 7; 0; 2] (boot (fun _ => 0) always_ok)).
  repeat constructor; unfold is_ticks; lia.
Defined.

(** * The average and the band cutoffs *)

Lemma fold_sum_bounded (l : list ticks) : forall acc B,
  Forall (fun v => 0 <= v <= B) l -> 0 <= acc ->
  acc + B * Z.of_nat (length l) < 2 ^ 64 ->
  acc <= fold_left (fun s v => wrap64 (s + v)) l acc <= acc + B * Z.of_nat (length l).
Proof.
  induction l as [|v r IH]; intros acc B Hall Hacc Hb.
  - simpl. lia.
  - inversion Hall as [|? ? Hv Hr]; subst.
    change (length (v :: r)) with (S (length r)) in *.
    rewrite Nat2Z.inj_succ, Z.mul_succ_r in *.
    assert (Hn : 0 <= B * Z.of_nat (length r)) by (apply Z.mul_nonneg_nonneg; lia).
    cbn [fold_left]. rewrite wrap64_small by lia.
    specialize (IH (acc + v) B Hr ltac:(lia) ltac:(lia)). lia.
Qed.

Lemma sum_ticks_clipped vals :
  Z.of_nat (length vals) < 2 ^ 32 ->
  0 <= sum_ticks (map clip vals) <= 1500 * Z.of_nat (length vals).
Proof.
  intros Hlen. unfold sum_ticks.
  pose proof (fold_sum_bounded (map clip vals) 0 1500) as H.
  rewrite length_map in H. apply H.
  - apply Forall_forall. intros v Hv. apply in_map_iff in Hv.
    destruct Hv as (u & <- & _). apply clip_bounds.
  - lia.
  - apply Z.le_lt_trans with (1500 * 2 ^ 32); [lia | reflexivity].
Qed.

Lemma of_Z_1500 : of_Z 1500 = S754_finite false 6597069766656000 (-42).
Proof. vm_compute. reflexivity. Qed.

Lemma of_Z_0 : of_Z 0 = S754_zero false.
Proof. reflexivity. Qed.

Lemma avg_shape vals :
  vals <> [] -> Z.of_nat (length vals) < 2 ^ 32 ->
  let a := avg (snd (get_abs_deviation vals)) in
  a = S754_zero false \/
  exists m e, a = S754_finite false m e /\ below (Zpos m) e 6597069766656000 (-42).
Proof.
  intros Hne Hlen. cbv zeta. rewrite get_abs_deviation_avg.
  pose proof (sum_ticks_clipped vals Hlen) as Hs.
  apply ddiv_of_Z_below; try lia.
  split; [|exact Hlen]. destruct vals; [contradiction|].
  change (length (t :: vals)) with (S (length vals)). lia.
Qed.

Lemma cutoff_facts mc ec a :
  Zpos mc < 2 ^ 53 -> ec <= 0 ->
  (a = S754_zero false \/
   exists m e, a = S754_finite false m e /\ below (Zpos m) e 6597069766656000 (-42)) ->
  isfinite (dmul (S754_finite false mc ec) a) = true /\
  dle (of_Z 0) (dmul (S754_finite false mc ec) a) = true.
Proof.
  intros Hmc Hec Ha.
  destruct (dmul_cutoff mc ec a Hmc Hec Ha) as [->|(m & e & ->)]; split; reflexivity.
Qed.

(** C9. For every non-empty sample array whose count fits the loop index,
    the average returned by [get_abs_deviation] is finite and lies in
    [[0, 1500]]: the sum of the clipped samples does not wrap.  The four
    cutoffs [0.1 * avg], [0.25 * avg], [0.5 * avg] and [0.75 * avg] that
    separate the five bands are finite and not negative. *)
Theorem average_and_cutoffs_in_range (vals : list ticks) :
  vals <> [] -> Z.of_nat (length vals) < 2 ^ 32 ->
  let a := avg (snd (get_abs_deviation vals)) in
  (0 <= sum_ticks (fst (get_abs_deviation vals)) <= 1500 * Z.of_nat (length vals)) /\
  isfinite a = true /\ dle (of_Z 0) a = true /\ dle a (of_Z 1500) = true /\
  (isfinite (dev_10p a) = true /\ dle (of_Z 0) (dev_10p a) = true) /\
  (isfinite (dev_25p a) = true /\ dle (of_Z 0) (dev_25p a) = true) /\
  (isfinite (dev_50p a) = true /\ dle (of_Z 0) (dev_50p a) = true) /\
  (isfinite (dev_75p a) = true /\ dle (of_Z 0) (dev_75p a) = true).
Proof.
  intros Hne Hlen a.
  pose proof (avg_shape vals Hne Hlen) as Ha. cbv zeta in Ha. fold a in Ha.
  split; [rewrite get_abs_deviation_vals; apply sum_ticks_clipped; exact Hlen|].
  assert (H53 : forall p, Zpos p <= 7205759403792794 -> Zpos p < 2 ^ 53).
  { intros p Hp. apply Z.le_lt_trans with 7205759403792794; [exact Hp | reflexivity]. }
  repeat split;
    try (unfold dev_10p, c_0_1; apply cutoff_facts; [apply H53; lia | lia | exact Ha]);
    try (unfold dev_25p, c_0_25; apply cutoff_facts; [apply H53; lia | lia | exact Ha]);
    try (unfold dev_50p, c_0_5; apply cutoff_facts; [apply H53; lia | lia | exact Ha]);
    try (unfold dev_75p, c_0_75; apply cutoff_facts; [apply H53; lia | lia | exact Ha]).
  - destruct Ha as [->|(m & e & -> & _)]; reflexivity.
  - destruct Ha as [->|(m & e & -> & _)]; reflexivity.
  - rewrite of_Z_1500. destruct Ha as [->|(m & e & -> & Hb)]; [reflexivity|].
    apply dle_below. exact Hb.
Qed.

Lemma average_and_cutoffs_in_range_witness :
  let a := avg (snd (get_abs_deviation [1500; 7; 2000; 0])) in
  isfinite a = true /\ dle (of_Z 0) a = true /\ dle a (of_Z 1500) = true.
Proof.
  destruct (average_and_cutoffs_in_range [1500; 7; 2000; 0]) as (_ & H1 & H2 & H3 & _).
  - discriminate.
  - reflexivity.
  - repeat split; assumption.
Defined.

(** * The direct measurement *)

Lemma delta_at_shift st k :
  delta_at (set_now (S (S (now st))) st) k = delta_at st (S k).
Proof.
  unfold delta_at. cbn [clock now set_now].
  replace (S (S (now st)) + 2 * k + 1)%nat with (now st + 2 * S k + 1)%nat by lia.
  replace (S (S (now st)) + 2 * k)%nat with (now st + 2 * S k)%nat by lia.
  reflexivity.
Qed.

Lemma min_delta_loop_unfold k best st :
  min_delta_loop (S k) best st =
  min_delta_loop k (if (0 <? delta_at st 0) && (delta_at st 0 <? best)
                    then delta_at st 0 else best)
                 (set_now (S (S (now st))) st).
Proof.
  unfold delta_at. rewrite Nat.mul_0_r, !Nat.add_0_r, Nat.add_1_r. reflexivity.
Qed.

Lemma min_delta_loop_least k : forall best st,
  let r := fst (min_delta_loop k best st) in
  r <= best /\
  (r = best \/ exists j, (j < k)%nat /\ delta_at st j = r /\ 0 < r) /\
  (forall j, (j < k)%nat -> 0 < delta_at st j -> r <= delta_at st j).
Proof.
  induction k as [|k IH]; intros best st.
  - simpl. split; [lia|]. split; [left; reflexivity|]. intros j Hj. lia.
  - cbv zeta. rewrite min_delta_loop_unfold.
    set (d := delta_at st 0).
    set (best' := if (0 <? d) && (d <? best) then d else best).
    destruct (IH best' (set_now (S (S (now st))) st)) as (H1 & H2 & H3).
    set (r := fst (min_delta_loop k best' (set_now (S (S (now st))) st))) in *.
    assert (Hb : best' <= best /\ (best' = best \/ (best' = d /\ 0 < d)) /\ (0 < d -> best' <= d)).
    { unfold best'. destruct (Z.ltb_spec 0 d); destruct (Z.ltb_spec d best); cbn [andb]; lia. }
    destruct Hb as (Hb1 & Hb2 & Hb3).
    split; [lia|]. split.
    + destruct H2 as [E|(j & Hj & Ej & Hpos)].
      * destruct Hb2 as [E'|[E' Hd]]; [left; congruence|].
        right. exists O. split; [lia|]. fold d. split; [congruence | lia].
      * right. exists (S j). split; [lia|]. rewrite <- delta_at_shift. auto.
    + intros j Hj Hpos. destruct j as [|j].
      * fold d in Hpos |- *. specialize (Hb3 Hpos). lia.
      * rewrite <- delta_at_shift in Hpos |- *. apply H3; [lia | exact Hpos].
Qed.

Lemma delta_at_ticks st k : 0 <= delta_at st k <= UINT64_MAX.
Proof.
  unfold delta_at. pose proof (wrap64_is_ticks
    (wrap64 (clock st (now st + 2 * k + 1)%nat) - wrap64 (clock st (now st + 2 * k)%nat))) as H.
  unfold is_ticks, UINT64_MAX in *. lia.
Qed.

(** X1. [measure_minimum_tick_delta attempts] reads the counter
    [2 * attempts] times and changes nothing else.  It returns the smallest
    delta among the pairs whose delta is positive and below [UINT64_MAX],
    and 0 exactly when no pair has such a delta: a counter that stands
    still, or one that steps back by one tick (delta [UINT64_MAX]), counts
    as not having advanced. *)
Theorem minimum_tick_delta_is_least (attempts : nat) (st : state) :
  let m := fst (measure_minimum_tick_delta attempts st) in
  let st' := snd (measure_minimum_tick_delta attempts st) in
  (m = 0 <-> forall k, (k < attempts)%nat -> ~ usable (delta_at st k)) /\
  (m <> 0 ->
   usable m /\ (exists k, (k < attempts)%nat /\ delta_at st k = m) /\
   forall k, (k < attempts)%nat -> usable (delta_at st k) -> m <= delta_at st k) /\
  now st' = (now st + 2 * attempts)%nat /\
  stdout st' = stdout st /\ pfd_store st' = pfd_store st /\
  pfd_correction st' = pfd_correction st /\ brk st' = brk st.
Proof.
  cbv zeta.
  destruct (measure_minimum_tick_delta_frame attempts st) as (F1 & _ & _ & F4 & F5 & _ & F7 & F8).
  split; [|split; [|repeat split; assumption]].
  - unfold measure_minimum_tick_delta.
    destruct (min_delta_loop_least attempts UINT64_MAX st) as (H1 & H2 & H3).
    pose proof (min_delta_loop_ticks attempts UINT64_MAX st ltac:(unfold UINT64_MAX; lia)) as Hr.
    destruct (min_delta_loop attempts UINT64_MAX st) as [best st1]. cbn [fst] in *.
    destruct (Z.eqb_spec best UINT64_MAX) as [E|Hne]; cbn [fst].
    + split; [|reflexivity]. intros _ k Hk [Hpos Hlt].
      specialize (H3 k Hk Hpos). lia.
    + split; [intros E0; lia|]. intros Hnone. exfalso.
      destruct H2 as [E|(j & Hj & Ej & Hpos)]; [contradiction|].
      apply (Hnone j Hj). unfold usable. rewrite Ej. lia.
  - unfold measure_minimum_tick_delta.
    destruct (min_delta_loop_least attempts UINT64_MAX st) as (H1 & H2 & H3).
    pose proof (min_delta_loop_ticks attempts UINT64_MAX st ltac:(unfold UINT64_MAX; lia)) as Hr.
    destruct (min_delta_loop attempts UINT64_MAX st) as [best st1]. cbn [fst] in *.
    destruct (Z.eqb_spec best UINT64_MAX) as [E|Hne]; cbn [fst]; [intros H; contradiction|].
    intros _. split; [unfold usable; lia|]. split.
    + destruct H2 as [E|(j & Hj & Ej & Hpos)]; [contradiction|]. exists j. auto.
    + intros k Hk [Hpos _]. apply H3; assumption.
Qed.

(** * The comparison function and the analyser *)

(** X2. [ticks_compare] is a three-way comparison of unsigned values: its
    result is -1, 0 or 1, it is 0 exactly on equal arguments, swapping the
    arguments negates it, and "not greater" is transitive, which is what
    [qsort] requires of it. *)
Theorem ticks_compare_total_order (a b c : ticks) :
  (ticks_compare a b = -1 <-> a < b) /\
  (ticks_compare a b = 0 <-> a = b) /\
  (ticks_compare a b = 1 <-> b < a) /\
  ticks_compare b a = - ticks_compare a b /\
  (ticks_compare a b <= 0 \/ ticks_compare b a <= 0) /\
  (ticks_compare a b <= 0 /\ ticks_compare b c <= 0 -> ticks_compare a c <= 0).
Proof.
  unfold ticks_compare.
  destruct (Z.ltb_spec a b); destruct (Z.ltb_spec b a);
    destruct (Z.ltb_spec b c); destruct (Z.ltb_spec c b);
    destruct (Z.ltb_spec a c); destruct (Z.ltb_spec c a);
    repeat split; try intro; try lia.
Qed.

Lemma map_clip_idem vals : map clip (map clip vals) = map clip vals.
Proof. rewrite map_map. apply map_ext. intros v. apply clip_idem. Qed.

Lemma get_abs_deviation_clipped (vals : list ticks) :
  get_abs_deviation (map clip vals) = get_abs_deviation vals.
Proof. unfold get_abs_deviation. rewrite map_clip_idem, length_map. reflexivity. Qed.

(** X3. Analysing again the array that [get_abs_deviation] left gives the
    same array and the same summary: the only change the analyser makes to
    the samples is the clipping, and clipped samples are kept. *)
Theorem get_abs_deviation_idempotent (vals : list ticks) :
  get_abs_deviation (fst (get_abs_deviation vals)) = get_abs_deviation vals.
Proof. rewrite get_abs_deviation_vals. apply get_abs_deviation_clipped. Qed.

(** X4. The average is NaN exactly when the array is empty: the division
    is then 0/0; on a non-empty array it divides a sum that did not wrap by
    a positive count. *)
Theorem average_nan_iff_empty (vals : list ticks) :
  Z.of_nat (length vals) < 2 ^ 32 ->
  (avg (snd (get_abs_deviation vals)) = NAN <-> vals = []) /\
  (vals = [] -> quality (snd (get_abs_deviation vals)) = NAN /\
                num_vals (snd (get_abs_deviation vals)) = 0 /\
                max_val (snd (get_abs_deviation vals)) = of_Z 0 /\
                min_val (snd (get_abs_deviation vals)) = DBL_MAX).
Proof.
  intros Hlen. split; [split|].
  - intros E. destruct vals as [|v r]; [reflexivity|]. exfalso.
    pose proof (avg_shape (v :: r) ltac:(discriminate) Hlen) as H. cbv zeta in H.
    rewrite E in H. destruct H as [H|(m & e & H & _)]; discriminate H.
  - intros ->. reflexivity.
  - intros ->. repeat split; reflexivity.
Qed.

Lemma average_nan_iff_empty_witness :
  avg (snd (get_abs_deviation [0; 0; 0])) = NAN <-> [0; 0; 0] = ([] : list ticks).
Proof. apply (average_nan_iff_empty [0; 0; 0]). reflexivity. Defined.

(** X5. [absd] never returns a negative value: the result compares [>= 0]
    unless the argument is NaN, in which case it is NaN; a second
    application changes nothing; the result of a finite non-zero or an
    infinite argument has its sign cleared, while a zero keeps its sign
    ([-0.0 >= 0] holds). *)
Theorem absd_not_negative (x : double) :
  (x <> NAN -> dle (of_Z 0) (absd x) = true /\ dlt (absd x) (of_Z 0) = false) /\
  (x = NAN -> absd x = NAN) /\
  absd (absd x) = absd x /\
  (forall s m e, x = S754_finite s m e -> absd x = S754_finite false m e) /\
  (forall s, x = S754_infinity s -> absd x = S754_infinity false) /\
  (forall s, x = S754_zero s -> absd x = x).
Proof.
  split.
  { intros Hx. destruct x as [[]|[]| |[] m e]; try (split; reflexivity).
    contradiction Hx. reflexivity. }
  split.
  { intros ->. reflexivity. }
  split.
  { destruct x as [[]|[]| |[] m e]; reflexivity. }
  split.
  { intros s m e ->. destruct s; reflexivity. }
  split.
  { intros s ->. destruct s; reflexivity. }
  intros s ->. destruct s; reflexivity.
Qed.

(** * Initialisation: edge cases and failures *)

Lemma finish_nan q st :
  finish NAN q st
  = Returns (printf (set_correction 32 (printed q))
               (set_pfd_correction 32 (printf warn_non_finite st))).
Proof.
  destruct conservative_default_facts as (F1 & _ & _).
  unfold finish, sanitize, NAN. cbn [isfinite negb].
  unfold round_correction. rewrite F1, conservative_default_rounds.
  cbn [Z.eqb]. replace (dle S754_nan (of_Z 0)) with false by reflexivity.
  unfold enforce_positive. st_simpl. reflexivity.
Qed.

(** X6. With capacity 0 no sample is taken: the analyser divides 0 by 0,
    the NaN quality passes the gate, and the NaN average is replaced by the
    conservative default.  Whatever the clock and the hardware flag, the
    call reads the counter not once, runs one round, prints the non-finite
    warning and the final line, and publishes 32. *)
Theorem zero_capacity_uses_default (a : arch) (st st1 : state) :
  pfd_store_alloc 0 st = inl st1 ->
  exists st',
    pfd_store_init a 0 st = Returns st' /\
    pfd_correction st' = 32 /\ now st' = now st /\
    rounds st' = S (rounds st) /\ failed st' = failed st /\
    stdout st' = stdout st ++ [warn_non_finite; set_correction 32 (of_Z 0)].
Proof.
  intros Halloc.
  destruct (pfd_store_alloc_spec 0 st st1 Halloc) as (A1 & _ & _ & A4 & A5 & A6 & _ & A8 & _).
  assert (Hslot : slot 0 (measure_round 0 st1) = []).
  { unfold measure_round, slot. cbn [measure_loop]. st_simpl. rewrite A1. reflexivity. }
  rewrite (init_first_round_accepted a 0 st st1 [] Halloc Hslot) by reflexivity.
  change (avg (snd (get_abs_deviation []))) with NAN.
  change (quality (snd (get_abs_deviation []))) with NAN.
  rewrite finish_nan. eexists. split; [reflexivity|].
  unfold measure_round. cbn [measure_loop]. st_simpl.
  rewrite A4, A5, A6, A8, <- app_assoc. repeat split; reflexivity.
Qed.

Lemma zero_capacity_uses_default_witness :
  exists st', pfd_store_init XEON 0 (boot frozen_then_running always_ok) = Returns st' /\
              pfd_correction st' = 32.
Proof.
  destruct (zero_capacity_uses_default XEON (boot frozen_then_running always_ok)
              (allocated 0 (boot frozen_then_running always_ok)))
    as (st' & E & Hc & _).
  - vm_compute. reflexivity.
  - exists st'. split; [exact E | exact Hc].
Defined.

Lemma alloc_slots_none k n : forall st st',
  alloc_slots k n st = (false, st') ->
  (exists j, (j < k)%nat /\ heap_ok st (brk st + j)%nat = false) /\
  stdout st' = stdout st /\ now st' = now st /\ pfd_correction st' = pfd_correction st.
Proof.
  induction k as [|k IH]; intros st st'; cbn [alloc_slots]; cbv zeta; [discriminate|].
  unfold malloc. destruct (heap_ok st (brk st)) eqn:Eh.
  - intros H. apply IH in H. st_simpl_in H. destruct H as ((j & Hj & Hf) & H2 & H3 & H4).
    split; [|repeat split; assumption].
    exists (S j). split; [lia|]. rewrite <- Hf. f_equal. lia.
  - intros [= <-]. split; [|repeat split; reflexivity].
    exists O. split; [lia|]. rewrite Nat.add_0_r. exact Eh.
Qed.

(** X7. The outcome of [pfd_store_init] is decided by the allocator alone.
    The call returns exactly when the two tables and every slot could be
    allocated.  Otherwise it stops at an assertion: the one on the tables
    when one of the first two requests failed (both are made before the
    check), the one on a slot otherwise; nothing has been printed, no
    counter reading taken and the published correction not yet touched.
    The assertion on the final correction is never the one that fails. *)
Theorem init_outcome_by_allocation (a : arch) (num_entries : nat) (st : state) :
  let ok := fun k => heap_ok st (brk st + k)%nat in
  match pfd_store_init a num_entries st with
  | Returns st' =>
      forall k, (k < 2 + PFD_NUM_STORES)%nat -> ok k = true
  | AssertionFailed x st' =>
      x = (if ok 0%nat && ok 1%nat then assert_slot else assert_tables) /\
      (exists k, (k < 2 + PFD_NUM_STORES)%nat /\ ok k = false) /\
      stdout st' = stdout st /\ now st' = now st /\
      pfd_correction st' = pfd_correction st
  end.
Proof.
  cbv zeta. unfold pfd_store_init. rewrite pfd_store_alloc_unfold. cbv zeta.
  rewrite Nat.add_0_r, Nat.add_1_r.
  destruct (heap_ok st (brk st)) eqn:E0; destruct (heap_ok st (S (brk st))) eqn:E1;
    cbn [andb negb].
  - match goal with |- context [alloc_slots ?k ?n ?s] =>
      destruct (alloc_slots k n s) as [[|] s'] eqn:Es end.
    + destruct (calibrate a num_entries 10 0 (set_pfd_correction 0 s'))
        as [[ad_avg std_pp] st2] eqn:Ecal.
      destruct (finish_returns ad_avg std_pp st2) as (st3 & E & _). rewrite E.
      apply alloc_slots_spec in Es. st_simpl_in Es.
      destruct Es as (_ & _ & _ & _ & _ & _ & _ & _ & _ & _ & Hok).
      intros k Hk. destruct k as [|[|k]].
      * rewrite Nat.add_0_r. exact E0.
      * rewrite Nat.add_1_r. exact E1.
      * replace (brk st + S (S k))%nat with (S (S (brk st)) + k)%nat by lia.
        apply Hok. lia.
    + apply alloc_slots_none in Es. st_simpl_in Es.
      destruct Es as ((j & Hj & Hf) & H2 & H3 & H4).
      split; [reflexivity|]. split; [|repeat split; assumption].
      exists (S (S j)). split; [lia|]. rewrite <- Hf. f_equal. lia.
  - st_simpl. split; [reflexivity|]. split; [|repeat split; reflexivity].
    exists 1%nat. split; [unfold PFD_NUM_STORES; lia|]. rewrite Nat.add_1_r. exact E1.
  - st_simpl. split; [reflexivity|]. split; [|repeat split; reflexivity].
    exists 0%nat. split; [lia|]. rewrite Nat.add_0_r. exact E0.
  - st_simpl. split; [reflexivity|]. split; [|repeat split; reflexivity].
    exists 0%nat. split; [lia|]. rewrite Nat.add_0_r. exact E0.
Qed.

(** * Initialisation: what a successful call leaves *)

Lemma upd_length {A : Type} (i : nat) (v : A) (l : list A) : length (upd i v l) = length l.
Proof.
  revert i. induction l as [|x r IH]; intros i; [destruct i; reflexivity|].
  destruct i; simpl; [reflexivity|]. rewrite IH. reflexivity.
Qed.

Lemma slot_upd_0 (vals : list ticks) (m : list (list ticks)) :
  m <> [] -> nth 0 (upd 0 vals m) [] = vals.
Proof. destruct m; [congruence | reflexivity]. Qed.

Lemma measure_loop_slot k : forall i st,
  pfd_store st <> [] ->
  pfd_store (measure_loop k i st) <> [] /\
  length (slot 0 (measure_loop k i st)) = length (slot 0 st).
Proof.
  induction k as [|k IH]; intros i st Hne; [split; [exact Hne | reflexivity]|].
  cbn [measure_loop].
  assert (Hne' : pfd_store (PFDO 0 i (PFDI 0 st)) <> []).
  { unfold PFDO, PFDI, getticks, set_slot. st_simpl.
    intros E. apply (f_equal (@length _)) in E. rewrite upd_length in E.
    destruct (pfd_store st); [congruence | discriminate E]. }
  destruct (IH (S i) (PFDO 0 i (PFDI 0 st)) Hne') as [H1 H2].
  split; [exact H1|]. rewrite H2.
  unfold PFDO, PFDI, getticks, set_slot, slot. st_simpl.
  rewrite (slot_upd_0 _ _ Hne), upd_length. reflexivity.
Qed.

Lemma clipped_slot (vals : list ticks) (st : state) :
  pfd_store st <> [] ->
  let st' := set_slot 0 (fst (get_abs_deviation vals)) st in
  pfd_store st' <> [] /\ length (pfd_store st') = length (pfd_store st) /\
  length (slot 0 st') = length vals /\
  Forall (fun v => 0 <= v <= 1500) (slot 0 st').
Proof.
  intros Hne. cbv zeta. rewrite slot_set_slot by exact Hne.
  rewrite get_abs_deviation_vals, length_map.
  unfold set_slot. st_simpl. rewrite upd_length.
  repeat split; auto.
  - intros E. apply (f_equal (@length _)) in E. rewrite upd_length in E.
    destruct (pfd_store st); [congruence | discriminate E].
  - apply Forall_forall. intros v Hv. apply in_map_iff in Hv.
    destruct Hv as (u & <- & _). apply clip_bounds.
Qed.

Lemma manual_correction_store a st :
  pfd_store (snd (manual_correction a st)) = pfd_store st.
Proof.
  unfold manual_correction.
  pose proof (median_frame (slot 0 (printf warn_manual st)) (printf warn_manual st)) as H.
  destruct (median_non_zero_ticks (slot 0 (printf warn_manual st)) (printf warn_manual st))
    as [m st1].
  cbv zeta in H. cbn [snd] in H. destruct H as (_ & _ & _ & _ & H & _).
  destruct (isfinite m && dlt (of_Z 0) m); [exact H|].
  destruct (arch_default a); exact H.
Qed.

Lemma calibrate_store a n tries : forall pw st x q st',
  pfd_store st <> [] ->
  calibrate a n tries pw st = (x, q, st') ->
  length (pfd_store st') = length (pfd_store st) /\
  length (slot 0 st') = length (slot 0 st) /\
  Forall (fun v => 0 <= v <= 1500) (slot 0 st').
Proof.
  induction tries as [|t IH]; intros pw st x q st' Hne; rewrite calibrate_unfold; cbv zeta;
    destruct (measure_loop_slot n 0 st Hne) as [M1 M2];
    pose proof (measure_round_store n st) as M3;
    assert (M1' : pfd_store (measure_round n st) <> []) by exact M1;
    assert (M2' : length (slot 0 (measure_round n st)) = length (slot 0 st)) by exact M2;
    destruct (clipped_slot (slot 0 (measure_round n st)) (measure_round n st) M1')
      as (C1 & C2 & C3 & C4); cbv zeta in C1, C2, C3, C4;
    set (st2 := set_slot 0 (fst (get_abs_deviation (slot 0 (measure_round n st))))
                  (measure_round n st)) in *;
    destruct (dlt _ _).
  - match goal with |- context [manual_correction a ?s] =>
      assert (Es : pfd_store s = pfd_store st2) by (destruct (pw =? 1); reflexivity);
      pose proof (manual_correction_store a s) as Hm;
      destruct (manual_correction a s) as [m st5]
    end.
    cbn [snd] in Hm. intros [= <- <- <-].
    unfold slot in *. rewrite Hm, Es. repeat split; congruence.
  - intros [= <- <- <-]. repeat split; congruence.
  - intros Hc. apply IH in Hc.
    + destruct Hc as (H1 & H2 & H3).
      assert (Es : forall s, pfd_store (if pw =? 1 then printf s (count_failed st2)
                                        else count_failed st2) = pfd_store st2)
        by (intros; destruct (pw =? 1); reflexivity).
      unfold slot in *. rewrite Es in H1, H2. repeat split; congruence.
    + destruct (pw =? 1); exact C1.
  - intros [= <- <- <-]. repeat split; congruence.
Qed.

Lemma printed_finite q : isfinite (printed q) = true.
Proof. unfold printed. destruct q as [s|s| |s m e]; reflexivity. Qed.

Lemma sanitize_frame x st :
  let st' := snd (sanitize x st) in
  pfd_store st' = pfd_store st /\ rounds st' = rounds st /\ failed st' = failed st /\
  exists out, stdout st' = stdout st ++ out.
Proof.
  unfold sanitize. destruct (negb (isfinite x)).
  { cbn. repeat split; auto. eexists. reflexivity. }
  destruct (dle x (of_Z 0)).
  { destruct (measure_minimum_tick_delta_frame 64 st) as (F1 & F2 & F3 & F4 & _).
    destruct (measure_minimum_tick_delta 64 st) as [measured st1]. cbn [snd] in *.
    destruct (0 <? measured); cbn [snd]; st_simpl; rewrite F1, F2, F3, F4;
      repeat split; auto; eexists; reflexivity. }
  destruct (dlt x (of_Z 1)); cbn [snd]; st_simpl; repeat split; auto.
  - eexists. reflexivity.
  - exists []. rewrite app_nil_r. reflexivity.
Qed.

Lemma round_correction_frame x st :
  let st' := snd (round_correction x st) in
  pfd_store st' = pfd_store st /\ rounds st' = rounds st /\ failed st' = failed st /\
  exists out, stdout st' = stdout st ++ out.
Proof.
  unfold round_correction. destruct (dle (of_Z UINT64_MAX) x).
  { cbn. repeat split; auto. eexists. reflexivity. }
  destruct (double_to_ticks (dadd x c_0_5) =? 0); cbn [snd]; st_simpl; repeat split; auto.
  - eexists. reflexivity.
  - exists []. rewrite app_nil_r. reflexivity.
Qed.

Lemma enforce_positive_frame q st :
  let st' := snd (enforce_positive q st) in
  pfd_store st' = pfd_store st /\ rounds st' = rounds st /\ failed st' = failed st /\
  (exists out, stdout st' = stdout st ++ out) /\
  isfinite (printed (fst (enforce_positive q st))) = true.
Proof.
  unfold enforce_positive. destruct (pfd_correction st <=? 0).
  - destruct (measure_minimum_tick_delta_frame 64 st) as (F1 & F2 & F3 & F4 & _).
    destruct (measure_minimum_tick_delta 64 st) as [measured st1]. cbn [snd] in *.
    destruct (0 <? measured); cbn [snd fst]; st_simpl; rewrite F1, F2, F3, F4;
      repeat split; auto; try apply printed_finite; eexists; reflexivity.
  - cbn [snd fst]. repeat split; auto; [|apply printed_finite].
    exists []. rewrite app_nil_r. reflexivity.
Qed.

Lemma finish_frame x q st :
  exists st' out q',
    finish x q st = Returns st' /\
    pfd_store st' = pfd_store st /\ rounds st' = rounds st /\ failed st' = failed st /\
    stdout st' = stdout st ++ out ++ [set_correction (pfd_correction st') q'] /\
    isfinite q' = true.
Proof.
  destruct (finish_returns x q st) as (st' & E & Hpos).
  exists st'. revert E. unfold finish.
  destruct (sanitize_frame x st) as (S1 & S2 & S3 & o1 & S4).
  destruct (sanitize x st) as [corrected_avg st1]. cbn [snd] in *.
  destruct (round_correction_frame corrected_avg st1) as (R1 & R2 & R3 & o2 & R4).
  destruct (round_correction corrected_avg st1) as [correction st2]. cbn [snd] in *.
  set (st3 := set_pfd_correction correction
                (if dle x (of_Z 0) then printf warn_le_zero_default st2 else st2)).
  assert (T : pfd_store st3 = pfd_store st2 /\ rounds st3 = rounds st2 /\
              failed st3 = failed st2 /\ exists o3, stdout st3 = stdout st2 ++ o3).
  { unfold st3. destruct (dle x (of_Z 0)); st_simpl; repeat split; auto.
    - eexists. reflexivity.
    - exists []. rewrite app_nil_r. reflexivity. }
  destruct T as (T1 & T2 & T3 & o3 & T4).
  destruct (enforce_positive_frame q st3) as (P1 & P2 & P3 & (o4 & P4) & P5).
  destruct (enforce_positive q st3) as [q1 st4]. cbn [snd fst] in *.
  destruct (0 <? pfd_correction st4); [|discriminate].
  intros [= <-]. exists (o1 ++ o2 ++ o3 ++ o4), (printed q1). st_simpl.
  split; [reflexivity|].
  rewrite P1, P2, P3, P4, T1, T2, T3, T4, R1, R2, R3, R4, S1, S2, S3, S4.
  repeat split; auto. rewrite <- !app_assoc. reflexivity.
Qed.

(** X8. When the allocations succeed [pfd_store_init] returns, after one to
    eleven measurement rounds.  It leaves a store of [PFD_NUM_STORES] slots
    whose slot 0 has the requested capacity and holds clipped samples only
    (each within [[0, 1500]]).  What was on [stdout] before is kept, and the
    last line printed reports the correction that was published, with a
    finite deviation. *)
Theorem init_success_postconditions (a : arch) (num_entries : nat) (st st1 : state) :
  pfd_store_alloc num_entries st = inl st1 ->
  exists st' out q,
    pfd_store_init a num_entries st = Returns st' /\
    (rounds st + 1 <= rounds st' <= rounds st + 11)%nat /\
    (failed st' - failed st <= rounds st' - rounds st)%nat /\
    length (pfd_store st') = PFD_NUM_STORES /\
    length (slot 0 st') = num_entries /\
    Forall (fun v => 0 <= v <= PFD_VAL_UP_LIMIT) (slot 0 st') /\
    stdout st' = stdout st ++ out ++ [set_correction (pfd_correction st') q] /\
    isfinite q = true.
Proof.
  intros Halloc.
  destruct (pfd_store_alloc_spec num_entries st st1 Halloc)
    as (_ & _ & _ & A4 & A5 & A6 & _ & _ & _ & L1 & L2 & Hne).
  unfold pfd_store_init. rewrite Halloc.
  destruct (calibrate a num_entries 10 0 st1) as [[ad_avg std_pp] st2] eqn:Ecal.
  destruct (calibrate_store a num_entries 10 0 st1 ad_avg std_pp st2 Hne Ecal) as (C1 & C2 & C3).
  apply calibrate_trace in Ecal; [|lia|simpl; lia].
  destruct Ecal as (r & f & out & raw & R & F & O & Hr & _ & Hcase & _).
  destruct (finish_frame ad_avg std_pp st2) as (st3 & out' & q' & E & F1 & F2 & F3 & F4 & F5).
  exists st3, (out ++ out'), q'. rewrite E. split; [reflexivity|].
  unfold slot in *. rewrite F1, F2, F3, F4, C1, C2, R, F, O, A4, A5, A6.
  split; [lia|]. split; [destruct Hcase as [(H & _)|(H & _)]; lia|].
  split; [exact L1|]. split; [exact L2|].
  split; [exact C3|]. split; [rewrite <- !app_assoc; reflexivity | exact F5].
Qed.

Lemma init_success_postconditions_witness :
  exists st' out q,
    pfd_store_init DEFAULT 12 (boot (tsc_of noisy_then_steady) always_ok) = Returns st' /\
    stdout st' = out ++ [set_correction (pfd_correction st') q].
Proof.
  destruct (init_success_postconditions DEFAULT 12 (boot (tsc_of noisy_then_steady) always_ok)
              (allocated 12 (boot (tsc_of noisy_then_steady) always_ok)))
    as (st' & out & q & E & _ & _ & _ & _ & _ & Ho & _).
  - vm_compute. reflexivity.
  - exists st', out, q. split; [exact E | exact Ho].
Defined.

(** * The fallbacks *)

Lemma arch_default_facts a c :
  arch_default a = Some c ->
  isfinite c = true /\ dlt (of_Z 0) c = true /\ dle c (of_Z 0) = false /\
  dle (of_Z 1) c = true /\ dlt c (of_Z 1) = false.
Proof.
  destruct a; cbn [arch_default]; intros [= <-]; vm_compute; repeat split; reflexivity.
Qed.

Lemma conservative_default_plain :
  isfinite PFD_CONSERVATIVE_DEFAULT = true /\ dle PFD_CONSERVATIVE_DEFAULT (of_Z 0) = false /\
  dle (of_Z 1) PFD_CONSERVATIVE_DEFAULT = true /\ dlt PFD_CONSERVATIVE_DEFAULT (of_Z 1) = false.
Proof. vm_compute. repeat split; reflexivity. Qed.

(** X9. Once the retries are used up, the average installed by the
    fallback is the median of the non-zero samples when there is one, else
    the constant of the hardware flag, else the conservative 32, in that
    order.  Whichever it is, it is finite and at least 1, so the checks
    that follow leave it unchanged and print nothing; the first line
    printed by the fallback is the manual-correction warning. *)
Theorem fallback_average_at_least_one (a : arch) (st : state) :
  Forall is_ticks (slot 0 st) ->
  let median := fst (median_non_zero_ticks (slot 0 st) (printf warn_manual st)) in
  let m := fst (manual_correction a st) in
  let st' := snd (manual_correction a st) in
  m = (if isfinite median then median
       else match arch_default a with
            | Some c => c
            | None => PFD_CONSERVATIVE_DEFAULT
            end) /\
  isfinite m = true /\ dle (of_Z 1) m = true /\
  (forall s, sanitize m s = (m, s)) /\
  (exists out, stdout st' = stdout st ++ warn_manual :: out) /\
  pfd_store st' = pfd_store st.
Proof.
  intros Ht. cbv zeta.
  pose proof (manual_correction_store a st) as Hstore.
  pose proof (median_range (slot 0 st) (printf warn_manual st) Ht) as Hm.
  pose proof (median_frame (slot 0 st) (printf warn_manual st)) as Hf.
  cbv zeta in Hf. destruct Hf as (Hout & _).
  revert Hstore. unfold manual_correction. rewrite slot_printf.
  destruct (median_non_zero_ticks (slot 0 st) (printf warn_manual st)) as [med st1].
  cbn [fst snd] in *.
  assert (Hsan : forall x, isfinite x = true -> dle x (of_Z 0) = false ->
                           dlt x (of_Z 1) = false -> forall s, sanitize x s = (x, s)).
  { intros x H1 H2 H3 s. unfold sanitize. rewrite H1, H2, H3. reflexivity. }
  destruct Hm as [->|Hr].
  - unfold NAN. cbn [isfinite andb].
    destruct (arch_default a) as [c|] eqn:Ea; cbn [fst snd]; intros Hstore.
    + destruct (arch_default_facts a c Ea) as (H1 & _ & H3 & H4 & H5).
      split; [reflexivity|]. split; [exact H1|]. split; [exact H4|].
      split; [exact (Hsan c H1 H3 H5)|]. split; [|exact Hstore].
      exists []. rewrite Hout. reflexivity.
    + destruct conservative_default_plain as (H1 & H3 & H4 & H5).
      split; [reflexivity|]. split; [exact H1|]. split; [exact H4|].
      split; [exact (Hsan _ H1 H3 H5)|]. split; [|exact Hstore].
      exists [warn_unknown_arch]. st_simpl. rewrite Hout. st_simpl.
      rewrite <- app_assoc. reflexivity.
  - destruct (in_1_2_64_facts med Hr) as (_ & H1 & H2 & H3 & H4 & H5).
    rewrite H1, H2. cbn [andb fst snd]. intros Hstore.
    split; [reflexivity|]. split; [exact H1|]. split; [exact H4|].
    split; [exact (Hsan _ H1 H3 H5)|]. split; [|exact Hstore].
    exists [warn_median med]. st_simpl. rewrite Hout. st_simpl.
    rewrite <- app_assoc. reflexivity.
Qed.

Lemma fallback_average_at_least_one_witness :
  dle (of_Z 1)
      (fst (manual_correction NIAGARA
              (allocated 3 (boot frozen_then_running always_ok)))) = true.
Proof.
  destruct (fallback_average_at_least_one NIAGARA
              (allocated 3 (boot frozen_then_running always_ok)))
    as (_ & _ & H & _).
  - replace (slot 0 (allocated 3 (boot frozen_then_running always_ok))) with [0; 0; 0]
      by (vm_compute; reflexivity).
    repeat constructor; unfold is_ticks; lia.
  - exact H.
Defined.

(** * The block that enforces a positive correction is never entered *)

Lemma round_correction_positive x st : 0 < fst (round_correction x st).
Proof.
  unfold round_correction.
  destruct (dle (of_Z UINT64_MAX) x); cbn [fst]; [reflexivity|].
  destruct (Z.eqb_spec (double_to_ticks (dadd x c_0_5)) 0) as [E|Hne]; cbn [fst]; [lia|].
  pose proof (wrap64_is_ticks (Ztrunc (dadd x c_0_5))) as H.
  unfold double_to_ticks, is_ticks in *. lia.
Qed.

(** X10. The value handed to [pfd_correction] at l.329 is already
    positive: it is [UINT64_MAX], 1, or a non-zero rounded average.  So the
    block of l.331-365 that would enforce a positive correction never
    runs: [pfd_store_init] publishes the rounded, sanitized average as it
    is, takes no second direct measurement and prints neither of the two
    diagnostics of that block; the deviation of the final line is the
    quality of the last round (0.0 when that is not finite). *)
Theorem positive_enforcement_never_runs (ad_avg std_pp : double) (st : state) :
  let corrected := sanitize ad_avg st in
  let rounded := round_correction (fst corrected) (snd corrected) in
  let st3 := if dle ad_avg (of_Z 0) then printf warn_le_zero_default (snd rounded)
             else snd rounded in
  0 < fst rounded /\
  finish ad_avg std_pp st
  = Returns (printf (set_correction (fst rounded) (printed std_pp))
               (set_pfd_correction (fst rounded) st3)) /\
  (forall st', finish ad_avg std_pp st = Returns st' ->
               filter is_enforcement (printed_since st st') = []).
Proof.
  cbv zeta.
  pose proof (round_correction_positive (fst (sanitize ad_avg st)) (snd (sanitize ad_avg st)))
    as Hpos.
  assert (E : finish ad_avg std_pp st
    = Returns (printf (set_correction
                         (fst (round_correction (fst (sanitize ad_avg st))
                                 (snd (sanitize ad_avg st)))) (printed std_pp))
               (set_pfd_correction
                  (fst (round_correction (fst (sanitize ad_avg st)) (snd (sanitize ad_avg st))))
                  (if dle ad_avg (of_Z 0)
                   then printf warn_le_zero_default
                          (snd (round_correction (fst (sanitize ad_avg st))
                                  (snd (sanitize ad_avg st))))
                   else snd (round_correction (fst (sanitize ad_avg st))
                               (snd (sanitize ad_avg st))))))).
  { unfold finish. destruct (sanitize ad_avg st) as [c st1]. cbn [fst snd] in *.
    destruct (round_correction c st1) as [k st2]. cbn [fst snd] in *.
    unfold enforce_positive. st_simpl.
    destruct (Z.leb_spec k 0); [lia|]. st_simpl.
    destruct (Z.ltb_spec 0 k); [reflexivity|lia]. }
  split; [exact Hpos|]. split; [exact E|].
  intros st' E'. rewrite E in E'. injection E' as <-.
  unfold printed_since. st_simpl.
  unfold sanitize, round_correction.
  pose proof (measure_minimum_tick_delta_frame 64 st) as Hf. cbv zeta in Hf.
  destruct Hf as (F1 & _).
  destruct (measure_minimum_tick_delta 64 st) as [measured stm]. cbn [snd] in F1.
  repeat match goal with
         | |- context [if ?c then _ else _] => destruct c
         end;
    cbn [fst snd]; st_simpl; rewrite ?F1, <- ?app_assoc, skipn_app, skipn_all, Nat.sub_diag;
    reflexivity.
Qed.

(** * The bands of the analyser *)

Lemma band_eqb_eq a b : band_eqb a b = true <-> a = b.
Proof. destruct a, b; simpl; split; congruence. Qed.

Lemma bget_bupd {A : Type} (b b' : band) (f : A -> A) (p : per_band A) :
  bget b (bupd b' f p) = if band_eqb b' b then f (bget b p) else bget b p.
Proof. destruct b, b'; reflexivity. Qed.

Lemma firstn_succ_nth (l : list ticks) (k : nat) (v : ticks) :
  nth_error l k = Some v -> firstn (S k) l = firstn k l ++ [v].
Proof.
  revert k. induction l as [|x r IH]; intros k H; destruct k; try discriminate.
  - injection H as ->. reflexivity.
  - cbn [nth_error] in H. change (firstn (S (S k)) (x :: r)) with (x :: firstn (S k) r).
    rewrite (IH k H). reflexivity.
Qed.

Lemma members_snoc a b l v :
  members a b (l ++ [v]) = members a b l ++ (if band_eqb (sample_band a v) b then [v] else []).
Proof. unfold members. rewrite filter_app. reflexivity. Qed.

Lemma total_app l1 l2 : total (l1 ++ l2) = total l1 + total l2.
Proof. unfold total. induction l1 as [|x r IH]; simpl; [reflexivity|]. rewrite IH. lia. Qed.

Lemma total_bounded l B :
  0 <= B -> Forall (fun v => 0 <= v <= B) l -> 0 <= total l <= B * Z.of_nat (length l).
Proof.
  intros HB. induction 1 as [|x r Hx Hr IH]; [simpl; lia|].
  change (total (x :: r)) with (x + total r).
  change (length (x :: r)) with (S (length r)). rewrite Nat2Z.inj_succ, Z.mul_succ_r. lia.
Qed.

Lemma members_bounded a b l B :
  Forall (fun v => 0 <= v <= B) l -> Forall (fun v => 0 <= v <= B) (members a b l).
Proof.
  intros H. apply Forall_forall. intros v Hv. apply filter_In in Hv.
  rewrite Forall_forall in H. apply H. tauto.
Qed.

Lemma members_length a b l : (length (members a b l) <= length l)%nat.
Proof. unfold members. apply filter_length_le. Qed.

Lemma firstn_bounded (l : list ticks) k B :
  Forall (fun v => 0 <= v <= B) l -> Forall (fun v => 0 <= v <= B) (firstn k l).
Proof.
  intros H. rewrite <- (firstn_skipn k l) in H. apply Forall_app in H. tauto.
Qed.

(** After [k] iterations the counter and the sum of each band hold the
    number and the sum of the samples seen so far that fall in the band. *)
Lemma pass1_bands (l : list ticks) (a : double) :
  Z.of_nat (length l) < 2 ^ 32 -> Forall (fun v => 0 <= v <= 1500) l ->
  let p := for_each (pass1_step a) 0 l pass1_init in
  forall b, bget b (p_num_dev p) = Z.of_nat (length (members a b l)) /\
            bget b (p_sum_vals p) = total (members a b l).
Proof.
  intros Hlen Hall.
  pose proof (for_each_invariant (pass1_step a)
    (fun k s => forall b,
       bget b (p_num_dev s) = Z.of_nat (length (members a b (firstn k l))) /\
       bget b (p_sum_vals s) = total (members a b (firstn k l))) l pass1_init Hlen) as H.
  cbv beta in H. rewrite firstn_all in H. apply H; clear H.
  - intros b. destruct b; split; reflexivity.
  - intros k v s Hk Hinv b.
    assert (Hkl : (k < length l)%nat) by (apply nth_error_Some; congruence).
    destruct (Hinv b) as [Hn Hs].
    rewrite (firstn_succ_nth l k v Hk), members_snoc.
    unfold pass1_step. cbn [p_num_dev p_sum_vals]. rewrite !bget_bupd.
    fold (sample_band a v).
    pose proof (members_length a b (firstn k l)) as Hml.
    rewrite length_firstn in Hml.
    apply Nat.le_trans with (p := k) in Hml; [|apply Nat.le_min_l].
    pose proof (total_bounded (members a b (firstn k l)) 1500 ltac:(lia)
                  (members_bounded a b _ 1500 (firstn_bounded l k 1500 Hall))) as Ht.
    assert (Hv : 0 <= v <= 1500).
    { rewrite Forall_forall in Hall. apply Hall. eapply nth_error_In. exact Hk. }
    destruct (band_eqb (sample_band a v) b).
    + rewrite Hn, Hs, length_app, total_app.
      change (total [v]) with (v + 0). change (length [v]) with 1%nat.
      unfold ticks in *.
      rewrite wrap32_small by lia.
      rewrite wrap64_small.
      * split; lia.
      * split; [lia|]. apply Z.le_lt_trans with (1500 * 2 ^ 32); [lia | reflexivity].
    + rewrite app_nil_r. split; assumption.
Qed.

(** A band that received no sample keeps the initial 0 in both of its
    accumulators of the third loop. *)
Lemma pass2_empty_band (l : list ticks) (a : double) (band_avg : per_band double) :
  Z.of_nat (length l) < 2 ^ 32 ->
  let q := for_each (pass2_step a band_avg) 0 l pass2_init in
  forall b, members a b l = [] ->
            bget b (p_sum_adev_b q) = of_Z 0 /\ bget b (p_sum_stdev_b q) = of_Z 0.
Proof.
  intros Hlen.
  pose proof (for_each_invariant (pass2_step a band_avg)
    (fun k s => forall b, members a b (firstn k l) = [] ->
       bget b (p_sum_adev_b s) = of_Z 0 /\ bget b (p_sum_stdev_b s) = of_Z 0)
    l pass2_init Hlen) as H.
  cbv beta in H. rewrite firstn_all in H. apply H; clear H.
  - intros b _. destruct b; split; reflexivity.
  - intros k v s Hk Hinv b.
    rewrite (firstn_succ_nth l k v Hk), members_snoc.
    unfold pass2_step. cbn [p_sum_adev_b p_sum_stdev_b]. rewrite !bget_bupd.
    fold (sample_band a v).
    destruct (band_eqb (sample_band a v) b).
    + intros E. apply app_eq_nil in E. destruct E as [_ E]. discriminate E.
    + rewrite app_nil_r. apply Hinv.
Qed.

Lemma get_abs_deviation_bands (vals : list ticks) (b : band) :
  let ad := snd (get_abs_deviation vals) in
  let l := map clip vals in
  let p := for_each (pass1_step (avg ad)) 0 l pass1_init in
  exists band_avg,
    let q := for_each (pass2_step (avg ad) band_avg) 0 l pass2_init in
    ad_num_dev b ad = bget b (p_num_dev p) /\
    ad_avg b ad = ddiv (of_Z (bget b (p_sum_vals p))) (of_Z (bget b (p_num_dev p))) /\
    ad_abs_dev b ad = ddiv (bget b (p_sum_adev_b q)) (of_Z (bget b (p_num_dev p))) /\
    ad_std_dev b ad = dsqrt (ddiv (bget b (p_sum_stdev_b q)) (of_Z (bget b (p_num_dev p)))).
Proof.
  cbv zeta. eexists. destruct b; repeat split; reflexivity.
Qed.

Lemma ratio_in_range s n :
  0 <= s -> 0 < n < 2 ^ 32 -> s <= 1500 * n ->
  isfinite (ddiv (of_Z s) (of_Z n)) = true /\
  dle (of_Z 0) (ddiv (of_Z s) (of_Z n)) = true /\
  dle (ddiv (of_Z s) (of_Z n)) (of_Z 1500) = true.
Proof.
  intros Hs Hn Hsn. rewrite of_Z_1500.
  destruct (ddiv_of_Z_below s n Hs Hn Hsn) as [->|(m & e & -> & Hb)].
  - repeat split; reflexivity.
  - split; [reflexivity|]. split; [reflexivity|]. apply dle_below. exact Hb.
Qed.

(** X11. For each of the five bands, [get_abs_deviation] reports the
    number of clipped samples whose deviation from the average falls in the
    band, and as the band's average their sum (which does not wrap)
    divided by that number.  A band that received a sample has a finite
    average within [[0, 1500]]; a band that received none has NaN for its
    average, its absolute deviation and its standard deviation (0/0). *)
Theorem band_average_of_members (vals : list ticks) (b : band) :
  Z.of_nat (length vals) < 2 ^ 32 ->
  let l := fst (get_abs_deviation vals) in
  let ad := snd (get_abs_deviation vals) in
  let m := members (avg ad) b l in
  ad_num_dev b ad = Z.of_nat (length m) /\
  ad_avg b ad = ddiv (of_Z (total m)) (of_Z (Z.of_nat (length m))) /\
  0 <= total m <= 1500 * Z.of_nat (length m) /\
  (m = [] -> ad_avg b ad = NAN /\ ad_abs_dev b ad = NAN /\ ad_std_dev b ad = NAN) /\
  (m <> [] -> isfinite (ad_avg b ad) = true /\ dle (of_Z 0) (ad_avg b ad) = true /\
              dle (ad_avg b ad) (of_Z 1500) = true).
Proof.
  intros Hlen. cbv zeta. rewrite get_abs_deviation_vals.
  set (ad := snd (get_abs_deviation vals)).
  set (l := map clip vals).
  assert (Hl : Z.of_nat (length l) < 2 ^ 32) by (unfold l; rewrite length_map; exact Hlen).
  assert (Hall : Forall (fun v => 0 <= v <= 1500) l).
  { apply Forall_forall. intros v Hv. apply in_map_iff in Hv.
    destruct Hv as (u & <- & _). apply clip_bounds. }
  destruct (get_abs_deviation_bands vals b) as (band_avg & E1 & E2 & E3 & E4).
  fold ad l in E1, E2, E3, E4.
  destruct (pass1_bands l (avg ad) Hl Hall b) as [P1 P2].
  pose proof (pass2_empty_band l (avg ad) band_avg Hl b) as P3.
  rewrite P1 in E1, E2, E3, E4. rewrite P2 in E2.
  set (m := members (avg ad) b l) in *.
  pose proof (total_bounded m 1500 ltac:(lia) (members_bounded _ _ _ _ Hall)) as Ht.
  split; [exact E1|]. split; [exact E2|]. split; [exact Ht|]. split.
  - intros Em. destruct (P3 Em) as [Q1 Q2].
    rewrite E2, E3, E4, Q1, Q2, Em. repeat split; reflexivity.
  - intros Hne. rewrite E2.
    pose proof (members_length (avg ad) b l) as Hml. fold m in Hml.
    assert (Hpos : (0 < length m)%nat) by (destruct m; [congruence | cbn [length]; lia]).
    unfold ticks in *. apply ratio_in_range; lia.
Qed.

Lemma band_average_of_members_witness :
  ad_avg Brst (snd (get_abs_deviation [20; 20; 20; 20])) = NAN.
Proof.
  destruct (band_average_of_members [20; 20; 20; 20] Brst) as (_ & _ & _ & H & _).
  - reflexivity.
  - apply H. vm_compute. reflexivity.
Defined.

(** * Collecting the statistics of a slot *)

Lemma print_values_frame vals : forall i st,
  pfd_store (print_values i vals st) = pfd_store st /\
  pfd_correction (print_values i vals st) = pfd_correction st /\
  rounds (print_values i vals st) = rounds st /\
  failed (print_values i vals st) = failed st /\
  now (print_values i vals st) = now st /\ brk (print_values i vals st) = brk st.
Proof.
  induction vals as [|v r IH]; intros i st; [repeat split; reflexivity|].
  cbn [print_values]. destruct (IH (wrap32 (i + 1))
    (printf (sample_line (to_int32 i) (to_int64 v)) st)) as (H1 & H2 & H3 & H4 & H5 & H6).
  rewrite H1, H2, H3, H4, H5, H6. repeat split; reflexivity.
Qed.

Lemma print_values_stdout vals : forall (k : nat) st,
  Z.of_nat k + Z.of_nat (length vals) < 2 ^ 32 ->
  stdout (print_values (Z.of_nat k) vals st) = stdout st ++ sample_lines k vals.
Proof.
  induction vals as [|v r IH]; intros k st Hk; [cbn; rewrite app_nil_r; reflexivity|].
  change (length (v :: r)) with (S (length r)) in Hk. rewrite Nat2Z.inj_succ in Hk.
  cbn [print_values sample_lines].
  rewrite wrap32_small by lia.
  replace (Z.of_nat k + 1) with (Z.of_nat (S k)) by lia.
  rewrite IH by lia. st_simpl. rewrite <- app_assoc. reflexivity.
Qed.

Lemma sample_lines_length vals : forall k, length (sample_lines k vals) = length vals.
Proof. induction vals as [|v r IH]; intros k; cbn; [reflexivity|]. rewrite IH. reflexivity. Qed.

Lemma sample_lines_nth vals : forall (k j : nat) (v : ticks),
  nth_error vals j = Some v ->
  nth_error (sample_lines k vals) j
  = Some (sample_line (to_int32 (Z.of_nat (k + j))) (to_int64 v)).
Proof.
  induction vals as [|x r IH]; intros k j v Hj; [destruct j; discriminate|].
  destruct j as [|j]; cbn [sample_lines nth_error] in *.
  - injection Hj as ->. rewrite Nat.add_0_r. reflexivity.
  - rewrite (IH (S k) j v Hj). do 3 f_equal. lia.
Qed.

Lemma upd_nth_same {A : Type} (m : list A) (s : nat) (x d : A) :
  (s < length m)%nat -> nth s (upd s x m) d = x.
Proof.
  revert s. induction m as [|y r IH]; intros s Hs; [simpl in Hs; lia|].
  destruct s; [reflexivity|]. simpl. apply IH. simpl in Hs. lia.
Qed.

Lemma upd_nth_other {A : Type} (m : list A) (s t : nat) (x d : A) :
  s <> t -> nth t (upd s x m) d = nth t m d.
Proof.
  revert s t. induction m as [|y r IH]; intros s t Hne; [destruct s, t; reflexivity|].
  destruct s, t; try reflexivity; [congruence|]. simpl. apply IH. congruence.
Qed.

Lemma upd_upd {A : Type} (m : list A) (s : nat) (x y : A) : upd s y (upd s x m) = upd s y m.
Proof.
  revert s. induction m as [|z r IH]; intros s; [destruct s; reflexivity|].
  destruct s; [reflexivity|]. simpl. rewrite IH. reflexivity.
Qed.

(** X12. A call of [pfd_collect_abs_deviation] on an [uint32_t] count that
    stays inside the store appends to [stdout] the first
    [min num_print num_vals] samples, each with its index as [%d] reads it
    and its value as it was before the analysis, read as signed, and then
    the statistics.  It hands back the summary of [get_abs_deviation] on
    the first [num_vals] entries of the slot, leaves these entries clipped
    and every other entry and slot as it was.  A second call with the same
    arguments hands back the same summary and leaves the store as the
    first call left it; the samples it prints are the clipped ones. *)
Theorem collect_twice_same_summary (store num_vals num_print : nat) (st st1 : state)
        (r : option abs_deviation_t) :
  Z.of_nat num_vals < 2 ^ 32 ->
  pfd_collect_abs_deviation store num_vals num_print true st = Some (r, st1) ->
  let raw := firstn num_vals (slot store st) in
  let summary := snd (get_abs_deviation raw) in
  let p := Nat.min num_print num_vals in
  r = Some summary /\
  stdout st1 = stdout st ++ sample_lines 0 (firstn p raw) ++ [statistics summary] /\
  length (sample_lines 0 (firstn p raw)) = p /\
  (forall k v, (k < p)%nat -> nth_error (slot store st) k = Some v ->
               nth_error (sample_lines 0 (firstn p raw)) k
               = Some (sample_line (to_int32 (Z.of_nat k)) (to_int64 v))) /\
  slot store st1 = map clip raw ++ skipn num_vals (slot store st) /\
  (forall t, t <> store -> slot t st1 = slot t st) /\
  pfd_correction st1 = pfd_correction st /\
  exists st2,
    pfd_collect_abs_deviation store num_vals num_print true st1 = Some (r, st2) /\
    pfd_store st2 = pfd_store st1 /\
    stdout st2 = stdout st1 ++ sample_lines 0 (firstn p (map clip raw)) ++ [statistics summary].
Proof.
  intros Hn. unfold pfd_collect_abs_deviation.
  destruct (Nat.ltb_spec store (length (pfd_store st))) as [Hs|Hs]; [|discriminate].
  destruct (Nat.leb_spec num_vals (length (slot store st))) as [Hv|Hv]; [|discriminate].
  cbn [andb]. cbv zeta.
  set (p := if (num_vals <? num_print)%nat then num_vals else num_print).
  assert (Hp : p = Nat.min num_print num_vals).
  { unfold p. destruct (Nat.ltb_spec num_vals num_print); lia. }
  rewrite <- Hp.
  set (raw := firstn num_vals (slot store st)).
  assert (Hraw : length raw = num_vals) by (unfold raw; rewrite length_firstn; lia).
  assert (Hlp : length (firstn p raw) = p) by (rewrite length_firstn; lia).
  pose proof (get_abs_deviation_vals raw) as Hvals.
  pose proof (get_abs_deviation_clipped raw) as Hclip.
  destruct (get_abs_deviation raw) as [vals ad]. cbn [fst snd] in *. subst vals.
  destruct (print_values_frame (firstn p raw) 0 st) as (V1 & V2 & _).
  pose proof (print_values_stdout (firstn p raw) 0 st ltac:(rewrite Hlp; simpl; lia)) as V3.
  change (Z.of_nat 0) with 0 in V3.
  set (st0 := print_values 0 (firstn p raw) st) in *.
  assert (Hs0 : slot store st0 = slot store st) by (unfold slot; rewrite V1; reflexivity).
  intros E. cbv beta iota zeta in E. rewrite Hs0 in E. injection E as <- <-.
  set (st1' := printf (statistics ad)
                 (set_slot store (map clip raw ++ skipn num_vals (slot store st)) st0)).
  assert (Hstore1 : pfd_store st1' = upd store (map clip raw ++ skipn num_vals (slot store st))
                                       (pfd_store st)).
  { unfold st1', set_slot. st_simpl. rewrite V1. reflexivity. }
  assert (Hslot : slot store st1' = map clip raw ++ skipn num_vals (slot store st)).
  { unfold slot. rewrite Hstore1. apply upd_nth_same. exact Hs. }
  split; [reflexivity|]. split.
  { unfold st1'. st_simpl. rewrite V3, <- app_assoc. reflexivity. }
  split; [rewrite sample_lines_length; exact Hlp|]. split.
  { intros k v Hk Hnth. rewrite (sample_lines_nth (firstn p raw) 0 k v); [reflexivity|].
    rewrite nth_error_firstn. destruct (Nat.ltb_spec k p); [|lia].
    unfold raw. rewrite nth_error_firstn. destruct (Nat.ltb_spec k num_vals); [exact Hnth|lia]. }
  split; [exact Hslot|]. split.
  { intros t Ht. unfold slot. rewrite Hstore1. apply upd_nth_other. congruence. }
  split; [unfold st1'; st_simpl; exact V2|].
  rewrite Hslot.
  assert (Hlen' : length (pfd_store st1') = length (pfd_store st)).
  { rewrite Hstore1. apply upd_length. }
  rewrite Hlen'.
  destruct (Nat.ltb_spec store (length (pfd_store st))) as [_|]; [|lia].
  assert (Hl2 : length (map clip raw ++ skipn num_vals (slot store st)) = length (slot store st)).
  { rewrite length_app, length_map, Hraw, length_skipn. lia. }
  rewrite Hl2.
  destruct (Nat.leb_spec num_vals (length (slot store st))) as [_|]; [|lia].
  cbn [andb].
  assert (Hf : firstn num_vals (map clip raw ++ skipn num_vals (slot store st)) = map clip raw).
  { rewrite firstn_app, length_map, Hraw, Nat.sub_diag, firstn_O, app_nil_r.
    apply firstn_all2. rewrite length_map. lia. }
  assert (Hsk : skipn num_vals (map clip raw ++ skipn num_vals (slot store st))
                = skipn num_vals (slot store st)).
  { rewrite skipn_app, length_map, Hraw, Nat.sub_diag. cbn [skipn].
    rewrite skipn_all2 by (rewrite length_map; lia). reflexivity. }
  rewrite Hf.
  assert (Hlp' : length (firstn p (map clip raw)) = p).
  { rewrite length_firstn, length_map. lia. }
  destruct (print_values_frame (firstn p (map clip raw)) 0 st1') as (W1 & _).
  assert (Hs1 : slot store (print_values 0 (firstn p (map clip raw)) st1')
                = map clip raw ++ skipn num_vals (slot store st)).
  { unfold slot. rewrite W1. exact Hslot. }
  rewrite Hs1, Hsk, Hclip.
  pose proof (print_values_stdout (firstn p (map clip raw)) 0 st1'
                ltac:(rewrite Hlp'; simpl; lia)) as W3.
  change (Z.of_nat 0) with 0 in W3.
  eexists. split; [reflexivity|]. split.
  - unfold set_slot. st_simpl. rewrite W1, Hstore1, upd_upd. reflexivity.
  - st_simpl. rewrite W3, <- app_assoc. reflexivity.
Qed.

Lemma collect_twice_same_summary_witness :
  match pfd_collect_abs_deviation 0 3 2 true
          (set_slot 0 [7; 2000; 3] (allocated 3 (boot frozen_then_running always_ok))) with
  | Some (r, st1) =>
      nth_error (stdout st1) 1 = Some (sample_line 1 2000) /\ slot 0 st1 = [7; 0; 3]
  | None => False
  end.
Proof.
  destruct (pfd_collect_abs_deviation 0 3 2 true
              (set_slot 0 [7; 2000; 3] (allocated 3 (boot frozen_then_running always_ok))))
    as [[r st1]|] eqn:E; [|vm_compute in E; discriminate E].
  destruct (collect_twice_same_summary 0 3 2 _ st1 r ltac:(vm_compute; reflexivity) E)
    as (_ & Hout & _ & _ & Hslot & _).
  split.
  - rewrite Hout. reflexivity.
  - rewrite Hslot. reflexivity.
Defined.

(** * A steady counter *)

Lemma Zdigits2_mul_le v n : 0 < v -> 0 < n -> Zdigits2 (v * n) <= Zdigits2 v + Zdigits2 n.
Proof.
  intros Hv Hn.
  pose proof (Zdigits2_spec v Hv) as [_ V]. pose proof (Zdigits2_spec n Hn) as [_ N].
  pose proof (Zdigits2_nonneg v ltac:(lia)) as Dv.
  pose proof (Zdigits2_nonneg n ltac:(lia)) as Dn.
  assert (H : v * n < 2 ^ (Zdigits2 v + Zdigits2 n)).
  { rewrite pow2_split by lia. apply Z.mul_lt_mono_nonneg; lia. }
  destruct (Z_le_gt_dec (Zdigits2 (v * n)) (Zdigits2 v + Zdigits2 n)) as [Hle|Hgt]; [exact Hle|].
  pose proof (Zdigits2_spec (v * n) ltac:(nia)) as [L _].
  assert (2 ^ (Zdigits2 v + Zdigits2 n) <= 2 ^ (Zdigits2 (v * n) - 1))
    by (apply Z.pow_le_mono_r; lia).
  lia.
Qed.

Lemma Zdigits2_mul_ge v n : 0 < v -> 0 < n -> Zdigits2 v + Zdigits2 n - 1 <= Zdigits2 (v * n).
Proof.
  intros Hv Hn.
  pose proof (Zdigits2_spec v Hv) as [V _]. pose proof (Zdigits2_spec n Hn) as [N _].
  assert (Dv : 0 + 1 <= Zdigits2 v) by (apply Zdigits2_ge_pow2; simpl; lia).
  assert (Dn : 0 + 1 <= Zdigits2 n) by (apply Zdigits2_ge_pow2; simpl; lia).
  assert (H : 2 ^ (Zdigits2 v - 1 + (Zdigits2 n - 1)) <= v * n).
  { rewrite pow2_split by lia. apply Z.mul_le_mono_nonneg; try lia; apply Z.pow_nonneg; lia. }
  apply Zdigits2_ge_pow2 in H; lia.
Qed.

(** A quotient of integers that is itself an integer is computed exactly. *)
Lemma ddiv_exact v n :
  0 < v -> 0 < n -> v * n < 2 ^ 53 ->
  ddiv (of_Z (v * n)) (of_Z n) = of_Z v.
Proof.
  intros Hv Hn Hvn.
  assert (Hn53 : 0 < n < 2 ^ 53) by nia.
  assert (Hv53 : 0 < v < 2 ^ 53) by nia.
  assert (Hs53 : 0 < v * n < 2 ^ 53) by nia.
  destruct (of_Z_exact n Hn53) as (m2 & En & Hm2).
  destruct (of_Z_exact (v * n) Hs53) as (m1 & Es & Hm1).
  destruct (of_Z_exact v Hv53) as (m3 & Ev & Hm3).
  pose proof (Zdigits2_le_53 n Hn53) as Hdn.
  pose proof (Zdigits2_le_53 v Hv53) as Hdv.
  pose proof (Zdigits2_le_53 (v * n) Hs53) as Hds.
  pose proof (Zdigits2_mul_le v n Hv Hn) as Hle.
  pose proof (Zdigits2_mul_ge v n Hv Hn) as Hge.
  set (ds := Zdigits2 (v * n)) in *. set (dn := Zdigits2 n) in *. set (dv := Zdigits2 v) in *.
  rewrite Es, En, Ev. unfold ddiv, SFdiv.
  pose proof (SFdiv_core_spec m1 (ds - 53) m2 (dn - 53)) as Hc.
  destruct (SFdiv_core_binary prec emax (Z.pos m1) (ds - 53) (Z.pos m2) (dn - 53))
    as [[q e'] l].
  destruct Hc as (He' & r & Hqr & Hr & Hq & Hl).
  rewrite Hm1, Hm2 in He'. rewrite !Zdigits2_mul_pow2 in He' by lia.
  fold ds dn in He'. rewrite fexp_eq in He'.
  assert (Ee : e' = ds - dn - 53) by lia.
  rewrite Ee in *. replace (ds - 53 - (dn - 53) - (ds - dn - 53)) with 53 in Hqr by lia.
  simpl xorb.
  set (k := dn - ds + dv) in *.
  assert (Hk : 0 <= k <= 1) by (unfold k; lia).
  assert (HQ : Z.pos m1 * 2 ^ 53 = Z.pos m2 * (Z.pos m3 * 2 ^ k) + 0).
  { rewrite Hm1, Hm2, Hm3, Z.add_0_r.
    replace (v * n * 2 ^ (53 - ds) * 2 ^ 53) with (v * n * (2 ^ (53 - ds) * 2 ^ 53)) by ring.
    replace (n * 2 ^ (53 - dn) * (v * 2 ^ (53 - dv) * 2 ^ k))
      with (v * n * (2 ^ (53 - dn) * (2 ^ (53 - dv) * 2 ^ k))) by ring.
    f_equal. rewrite <- !pow2_split by lia. f_equal. unfold k. lia. }
  assert (Eq : q = Z.pos m3 * 2 ^ k /\ r = 0).
  { assert (Ha : Z.pos m1 * 2 ^ 53 = Z.pos m2 * q + r) by lia.
    split.
    - rewrite (Z.div_unique _ _ _ _ (or_introl Hr) Ha).
      rewrite (Z.div_unique _ _ _ _ (or_introl (conj (Z.le_refl 0) (Pos2Z.is_pos m2))) HQ).
      reflexivity.
    - rewrite (Z.mod_unique _ _ _ _ (or_introl Hr) Ha).
      rewrite (Z.mod_unique _ _ _ _ (or_introl (conj (Z.le_refl 0) (Pos2Z.is_pos m2))) HQ).
      reflexivity. }
  destruct Eq as [-> Er].
  assert (El : l = loc_Exact).
  { specialize (Hl Er). destruct l; [reflexivity | discriminate Hl]. }
  rewrite El.
  rewrite (bra_exact false (Z.pos m3) k (ds - dn - 53)); try lia.
  - rewrite Pos2Z.id. f_equal. unfold k. lia.
  - rewrite Zdigits2_mul_pow2 by lia. rewrite Hm3, Zdigits2_mul_pow2 by lia.
    fold dv. rewrite fexp_eq. unfold k. lia.
Qed.

Lemma dsub_self m e : dsub (S754_finite false m e) (S754_finite false m e) = S754_zero false.
Proof.
  unfold dsub, SFsub. rewrite Z.min_id. cbn [negb cond_Zopp].
  rewrite Z.sub_diag. reflexivity.
Qed.

Lemma sum_ticks_repeat (v : ticks) (n : nat) :
  0 <= v <= 1500 -> Z.of_nat n < 2 ^ 32 -> sum_ticks (repeat v n) = v * Z.of_nat n.
Proof.
  intros Hv Hn. unfold sum_ticks.
  assert (G : forall k acc, 0 <= acc -> acc + v * Z.of_nat k < 2 ^ 64 ->
              fold_left (fun s x => wrap64 (s + x)) (repeat v k) acc = acc + v * Z.of_nat k).
  { induction k as [|k IH]; intros acc Ha Hb; [simpl; lia|].
    rewrite Nat2Z.inj_succ, Z.mul_succ_r in *.
    assert (0 <= v * Z.of_nat k) by (apply Z.mul_nonneg_nonneg; lia).
    cbn [repeat fold_left]. rewrite wrap64_small by lia. rewrite IH by lia. lia. }
  rewrite G; [lia | lia |].
  apply Z.le_lt_trans with (1500 * 2 ^ 32); [nia | reflexivity].
Qed.

Lemma steady_pass1 (v : ticks) (m : positive) (e : Z) :
  of_Z v = S754_finite false m e ->
  forall l i s,
    Forall (fun u => u = v) l ->
    p_sum_adev s = S754_zero false -> p_sum_stdev s = S754_zero false ->
    p_sum_adev (for_each (pass1_step (of_Z v)) i l s) = S754_zero false /\
    p_sum_stdev (for_each (pass1_step (of_Z v)) i l s) = S754_zero false.
Proof.
  intros Ev. induction l as [|u r IH]; intros i s Hall H1 H2; [split; assumption|].
  inversion Hall as [|? ? Hu Hr]; subst.
  rewrite for_each_cons. apply IH; [exact Hr | |].
  - unfold pass1_step. cbn [p_sum_adev]. rewrite H1, Ev, dsub_self. reflexivity.
  - unfold pass1_step. cbn [p_sum_stdev]. rewrite H2, Ev, dsub_self. reflexivity.
Qed.

Lemma steady_quality_facts :
  dmul (of_Z 100) (dsub (of_Z 1) (of_Z 1)) = S754_zero false /\
  dlt (of_Z PFD_CORRECTION_CONF) (S754_zero false) = false /\
  printed (S754_zero false) = of_Z 0.
Proof. vm_compute. repeat split; reflexivity. Qed.

Lemma get_abs_deviation_steady (v : ticks) (n : nat) :
  1 <= v <= 1500 -> (0 < n)%nat -> Z.of_nat n < 2 ^ 32 ->
  let ad := snd (get_abs_deviation (repeat v n)) in
  fst (get_abs_deviation (repeat v n)) = repeat v n /\
  avg ad = of_Z v /\ abs_dev ad = S754_zero false /\ std_dev ad = S754_zero false /\
  quality ad = S754_zero false.
Proof.
  intros Hv Hn Hlt. cbv zeta.
  assert (Hc : clip v = v).
  { rewrite clip_cases. destruct (Z.leb_spec 0 v); destruct (Z.leb_spec v 1500); simpl; lia. }
  assert (Hm : map clip (repeat v n) = repeat v n) by (rewrite map_repeat, Hc; reflexivity).
  assert (Hv53 : 0 < v < 2 ^ 53).
  { split; [lia|]. apply Z.le_lt_trans with 1500; [lia | reflexivity]. }
  assert (Hn53 : 0 < Z.of_nat n < 2 ^ 53).
  { split; [lia|]. apply Z.lt_trans with (2 ^ 32); [lia | reflexivity]. }
  assert (Hvn : v * Z.of_nat n < 2 ^ 53).
  { apply Z.le_lt_trans with (1500 * 2 ^ 32); [nia | reflexivity]. }
  destruct (of_Z_exact v Hv53) as (m & Ev & _).
  destruct (of_Z_exact (Z.of_nat n) Hn53) as (mn & En & _).
  assert (Ha : avg (snd (get_abs_deviation (repeat v n))) = of_Z v).
  { rewrite get_abs_deviation_avg, Hm, (sum_ticks_repeat v n) by lia.
    rewrite repeat_length. apply ddiv_exact; lia. }
  assert (Hp : forall s, p_sum_adev s = S754_zero false -> p_sum_stdev s = S754_zero false ->
               p_sum_adev (for_each (pass1_step (of_Z v)) 0 (repeat v n) s) = S754_zero false /\
               p_sum_stdev (for_each (pass1_step (of_Z v)) 0 (repeat v n) s) = S754_zero false).
  { intros s. apply (steady_pass1 v m _ Ev).
    apply Forall_forall. intros x Hx. apply repeat_spec in Hx. exact Hx. }
  destruct (Hp pass1_init eq_refl eq_refl) as [P1 P2].
  assert (Hd : abs_dev (snd (get_abs_deviation (repeat v n))) = S754_zero false).
  { change (abs_dev (snd (get_abs_deviation (repeat v n))))
      with (ddiv (p_sum_adev (for_each
              (pass1_step (avg (snd (get_abs_deviation (repeat v n))))) 0
              (map clip (repeat v n)) pass1_init))
              (of_Z (Z.of_nat (length (repeat v n))))).
    rewrite Ha, Hm, P1, repeat_length, En. reflexivity. }
  assert (Hs : std_dev (snd (get_abs_deviation (repeat v n))) = S754_zero false).
  { change (std_dev (snd (get_abs_deviation (repeat v n))))
      with (dsqrt (ddiv (p_sum_stdev (for_each
              (pass1_step (avg (snd (get_abs_deviation (repeat v n))))) 0
              (map clip (repeat v n)) pass1_init))
              (of_Z (Z.of_nat (length (repeat v n)))))).
    rewrite Ha, Hm, P2, repeat_length, En. reflexivity. }
  split; [rewrite get_abs_deviation_vals; exact Hm|].
  split; [exact Ha|]. split; [exact Hd|]. split; [exact Hs|].
  unfold quality. rewrite Ha, Hs.
  assert (Hone : ddiv (of_Z v) (of_Z v) = of_Z 1).
  { rewrite <- (Z.mul_1_l v) at 1. apply ddiv_exact; lia. }
  replace (dsub (of_Z v) (S754_zero false)) with (of_Z v) by (rewrite Ev; reflexivity).
  rewrite Hone.
  replace (isfinite (of_Z v) && negb (deq (of_Z v) (of_Z 0))) with true
    by (rewrite Ev; reflexivity).
  apply steady_quality_facts.
Qed.

(** X13. A counter that advances by the same [v] cycles, [1 <= v <= 1500],
    inside every probe of the round makes the calibration exact: the
    average is [v], both deviations and the quality are 0, the round is
    accepted at once, and [pfd_store_init] publishes [v] itself, printing
    only the final line. *)
Theorem steady_counter_gives_its_delta (a : arch) (n : nat) (v : ticks) (st st1 : state) :
  1 <= v <= PFD_VAL_UP_LIMIT -> (0 < n)%nat -> Z.of_nat n < 2 ^ 32 ->
  pfd_store_alloc n st = inl st1 ->
  slot 0 (measure_round n st1) = repeat v n ->
  let ad := snd (get_abs_deviation (repeat v n)) in
  avg ad = of_Z v /\ abs_dev ad = of_Z 0 /\ std_dev ad = of_Z 0 /\ quality ad = of_Z 0 /\
  exists st',
    pfd_store_init a n st = Returns st' /\
    pfd_correction st' = v /\
    rounds st' = S (rounds st) /\ failed st' = failed st /\
    stdout st' = stdout st ++ [set_correction v (of_Z 0)] /\
    slot 0 st' = repeat v n.
Proof.
  unfold PFD_VAL_UP_LIMIT. intros Hv Hn Hlt Halloc Hslot.
  destruct (get_abs_deviation_steady v n Hv Hn Hlt) as (G1 & G2 & G3 & G4 & G5).
  cbv zeta in G2, G3, G4, G5. cbv zeta.
  split; [exact G2|]. split; [exact G3|]. split; [exact G4|]. split; [exact G5|].
  destruct steady_quality_facts as (_ & Q2 & Q3).
  pose proof (init_first_round_accepted a n st st1 (repeat v n) Halloc Hslot) as Hrun.
  rewrite G5 in Hrun. specialize (Hrun Q2). rewrite G1, G2 in Hrun.
  assert (Hr : in_1_2_64 (of_Z v)).
  { apply of_Z_range. split; [lia|]. apply Z.le_lt_trans with 1500; [lia | reflexivity]. }
  destruct (in_1_2_64_facts _ Hr) as (_ & F1 & _ & F2 & _ & F3).
  destruct (round_half v) as [R1 R2].
  { split; [lia|]. apply Z.le_lt_trans with 1500; [lia | reflexivity]. }
  destruct (accepted_round_effect n st st1 (repeat v n) (of_Z v) (S754_zero false) v
              Halloc F1 F2 F3 R1 R2 ltac:(lia))
    as (st' & E & H1 & H2 & H3 & H4).
  exists st'. rewrite Hrun. rewrite Q3 in H4.
  split; [exact E|]. split; [exact H1|]. split; [exact H2|]. split; [exact H3|].
  split; [exact H4|].
  destruct (pfd_store_alloc_spec n st st1 Halloc) as (A1 & _).
  assert (Hne : pfd_store (measure_round n st1) <> []).
  { intros Ee. apply (f_equal (@length _)) in Ee.
    rewrite measure_round_store, A1 in Ee. discriminate Ee. }
  rewrite (finish_plain (of_Z v) (S754_zero false) _ v F1 F2 F3 R1 R2 ltac:(lia)) in E.
  injection E as <-.
  change (slot 0 (set_slot 0 (repeat v n) (measure_round n st1)) = repeat v n).
  apply slot_set_slot. exact Hne.
Qed.

Lemma steady_counter_gives_its_delta_witness :
  exists st',
    pfd_store_init OPTERON 5 (boot (tsc_of [7; 7; 7; 7; 7]) always_ok) = Returns st' /\
    pfd_correction st' = 7.
Proof.
  destruct (steady_counter_gives_its_delta OPTERON 5 7
              (boot (tsc_of [7; 7; 7; 7; 7]) always_ok)
              (allocated 5 (boot (tsc_of [7; 7; 7; 7; 7]) always_ok)))
    as (_ & _ & _ & _ & st' & E & Hc & _).
  - unfold PFD_VAL_UP_LIMIT. lia.
  - lia.
  - reflexivity.
  - vm_compute. reflexivity.
  - vm_compute. reflexivity.
  - exists st'. split; [exact E | exact Hc].
Defined.

(** * A zero average *)

(** The quotient of a positive sum by the count is not zero. *)
Lemma ddiv_of_Z_positive s n :
  0 < s -> 0 < n < 2 ^ 32 -> s <= 1500 * n ->
  exists m e, ddiv (of_Z s) (of_Z n) = S754_finite false m e.
Proof.
  intros Hs Hn Hsn.
  assert (Hn53 : 0 < n < 2 ^ 53).
  { split; [lia|]. apply Z.lt_trans with (2 ^ 32); [lia|]. apply Z.pow_lt_mono_r; lia. }
  destruct (of_Z_exact n Hn53) as (m2 & En & Hm2).
  pose proof (Zdigits2_le_53 n Hn53) as Hdn.
  assert (Hs53 : 0 < s < 2 ^ 53).
  { split; [lia|]. apply Z.le_lt_trans with (1500 * 2 ^ 32); [lia|]. reflexivity. }
  destruct (of_Z_exact s Hs53) as (m1 & Es & Hm1).
  pose proof (Zdigits2_le_53 s Hs53) as Hds.
  assert (Hdsn : Zdigits2 s <= Zdigits2 n + 11).
  { rewrite <- Zdigits2_mul_pow2 by lia. apply Zdigits2_le. change (2 ^ 11) with 2048. lia. }
  set (ds := Zdigits2 s) in *. set (dn := Zdigits2 n) in *.
  rewrite Es, En. unfold ddiv, SFdiv.
  pose proof (SFdiv_core_spec m1 (ds - 53) m2 (dn - 53)) as Hc.
  destruct (SFdiv_core_binary prec emax (Z.pos m1) (ds - 53) (Z.pos m2) (dn - 53))
    as [[q e'] l].
  destruct Hc as (He' & r & Hqr & Hr & Hq & Hl).
  rewrite Hm1, Hm2 in He'. rewrite !Zdigits2_mul_pow2 in He' by lia.
  fold ds dn in He'. rewrite fexp_eq in He'.
  assert (Ee : e' = ds - dn - 53) by lia.
  rewrite Ee in *. replace (ds - 53 - (dn - 53) - (ds - dn - 53)) with 53 in Hqr by lia.
  simpl xorb.
  assert (Hq1 : 1 <= q).
  { (* both mantissas have 53 digits *)
    pose proof (Zdigits2_spec (Z.pos m1) ltac:(lia)) as [L1 _].
    pose proof (Zdigits2_spec (Z.pos m2) ltac:(lia)) as [_ U2].
    rewrite Hm1 in L1 at 1. rewrite Hm2 in U2 at 2.
    rewrite Zdigits2_mul_pow2 in L1, U2 by lia. fold ds in L1. fold dn in U2.
    replace (ds + (53 - ds) - 1) with 52 in L1 by lia.
    replace (dn + (53 - dn)) with 53 in U2 by lia.
    change (2 ^ 52) with 4503599627370496 in L1.
    change (2 ^ 53) with 9007199254740992 in U2, Hqr.
    destruct (Z_le_gt_dec 1 q) as [H1|H1]; [exact H1|].
    assert (q = 0) by lia. subst q. lia. }
  destruct (bra_bounds false q (ds - dn - 53) l 6597069766656000 (-42) (ds - dn - 53))
    as (m & e & E & _); try lia.
  - exact canonical_1500.
  - replace (-42 - (ds - dn - 53)) with (11 + dn - ds) by lia.
    rewrite Hm1, Hm2 in Hqr.
    assert (HA : 2 ^ (53 - ds) * 2 ^ 53 = 2 ^ (53 - dn) * (2 ^ 42 * 2 ^ (11 + dn - ds))).
    { rewrite <- !pow2_split by lia. f_equal. lia. }
    assert (0 < 2 ^ (53 - ds)) by (apply pow2_pos; lia).
    assert (0 < 2 ^ (53 - dn)) by (apply pow2_pos; lia).
    assert (0 < 2 ^ (11 + dn - ds)) by (apply pow2_pos; lia).
    change (2 ^ 42) with 4398046511104 in *. change (2 ^ 53) with 9007199254740992 in *.
    set (A := 2 ^ (53 - ds)) in *. set (Bn := 2 ^ (53 - dn)) in *.
    set (C := 2 ^ (11 + dn - ds)) in *.
    rewrite Hm2 in Hr.
    assert (HW : 0 < n * Bn) by nia.
    assert (Hub : q * (n * Bn) + r <= (6597069766656000 * C) * (n * Bn)).
    { replace (q * (n * Bn) + r) with (s * (A * 9007199254740992)) by lia.
      rewrite HA. nia. }
    pose proof (slack_le l) as Hsl.
    set (W := n * Bn) in *. set (U := 6597069766656000 * C) in *.
    destruct (Z.eq_dec r 0) as [Er|Er].
    + rewrite (Hl Er). assert (q <= U) by nia. lia.
    + assert (q < U) by nia. lia.
  - split; [lia|]. intros _. rewrite Z.sub_diag. simpl. lia.
  - exists m, e. exact E.
Qed.

Lemma sum_ticks_zero_iff (l : list ticks) :
  Forall (fun v => 0 <= v <= 1500) l -> Z.of_nat (length l) < 2 ^ 32 ->
  (sum_ticks l = 0 <-> Forall (fun v => v = 0) l).
Proof.
  intros Hall Hlen. unfold sum_ticks.
  assert (G : forall l acc, Forall (fun v => 0 <= v <= 1500) l -> 0 <= acc ->
              acc + 1500 * Z.of_nat (length l) < 2 ^ 64 ->
              (fold_left (fun s v => wrap64 (s + v)) l acc = 0
               <-> acc = 0 /\ Forall (fun v => v = 0) l)).
  { clear. induction l as [|v r IH]; intros acc Hall Ha Hb.
    - simpl. split; [intros ->; split; [reflexivity | constructor] | tauto].
    - inversion Hall as [|? ? Hv Hr]; subst.
      change (length (v :: r)) with (S (length r)) in Hb.
      rewrite Nat2Z.inj_succ, Z.mul_succ_r in Hb.
      cbn [fold_left]. rewrite wrap64_small by lia.
      rewrite IH by (try assumption; lia).
      split.
      + intros [E F]. split; [lia|]. constructor; [lia | exact F].
      + intros [E F]. inversion F; subst. split; [lia | assumption]. }
  rewrite G; [tauto | exact Hall | lia |].
  unfold ticks in *.
  apply Z.le_lt_trans with (1500 * 2 ^ 32); [lia | reflexivity].
Qed.

(** X14. On a non-empty array the average is 0 exactly when every sample
    is 0 after clipping, that is when every raw sample is 0, negative as
    [int64_t] or above the limit; the quality is then NaN, which the gate
    of [pfd_store_init] lets through.  Otherwise the average is a non-zero
    finite value. *)
Theorem average_zero_iff_all_clipped (vals : list ticks) :
  vals <> [] -> Z.of_nat (length vals) < 2 ^ 32 ->
  let ad := snd (get_abs_deviation vals) in
  (deq (avg ad) (of_Z 0) = true <-> Forall (fun v => clip v = 0) vals) /\
  (Forall (fun v => clip v = 0) vals ->
   avg ad = S754_zero false /\ quality ad = NAN /\
   dlt (of_Z PFD_CORRECTION_CONF) (quality ad) = false) /\
  (~ Forall (fun v => clip v = 0) vals -> exists m e, avg ad = S754_finite false m e).
Proof.
  intros Hne Hlen. cbv zeta.
  assert (Hall : Forall (fun v => 0 <= v <= 1500) (map clip vals)).
  { apply Forall_forall. intros v Hv. apply in_map_iff in Hv.
    destruct Hv as (u & <- & _). apply clip_bounds. }
  assert (Hlen' : Z.of_nat (length (map clip vals)) < 2 ^ 32) by (rewrite length_map; exact Hlen).
  pose proof (sum_ticks_zero_iff (map clip vals) Hall Hlen') as Hz.
  rewrite Forall_map in Hz.
  pose proof (sum_ticks_clipped vals Hlen) as Hs.
  assert (Hn : 0 < Z.of_nat (length vals) < 2 ^ 32).
  { split; [|exact Hlen]. destruct vals; [contradiction|].
    change (length (t :: vals)) with (S (length vals)). lia. }
  assert (Hn53 : 0 < Z.of_nat (length vals) < 2 ^ 53).
  { split; [lia|]. apply Z.lt_trans with (2 ^ 32); [lia | reflexivity]. }
  assert (Hzero : Forall (fun v => clip v = 0) vals ->
                  avg (snd (get_abs_deviation vals)) = S754_zero false).
  { intros H. rewrite get_abs_deviation_avg. apply Hz in H. rewrite H.
    destruct (of_Z_exact _ Hn53) as (m & -> & _). reflexivity. }
  assert (Hpos : ~ Forall (fun v => clip v = 0) vals ->
                 exists m e, avg (snd (get_abs_deviation vals)) = S754_finite false m e).
  { intros H. rewrite get_abs_deviation_avg. apply ddiv_of_Z_positive; try lia.
    destruct (Z.eq_dec (sum_ticks (map clip vals)) 0) as [E|E]; [|lia].
    contradiction H. apply Hz. exact E. }
  split; [split|split].
  - intros E.
    destruct (Forall_dec (fun v => clip v = 0) (fun v => Z.eq_dec (clip v) 0) vals) as [H|H];
      [exact H|].
    destruct (Hpos H) as (m & e & Em). rewrite Em in E. discriminate E.
  - intros H. rewrite (Hzero H). reflexivity.
  - intros H. split; [exact (Hzero H)|]. unfold quality. rewrite (Hzero H). split; reflexivity.
  - exact Hpos.
Qed.

Lemma average_zero_iff_all_clipped_witness :
  avg (snd (get_abs_deviation [1501; 0; 18446744073709551615])) = S754_zero false.
Proof.
  destruct (average_zero_iff_all_clipped [1501; 0; 18446744073709551615]) as (_ & H & _).
  - discriminate.
  - reflexivity.
  - apply H. repeat constructor.
Defined.

(** * Initialising again *)

Lemma firstn_upd {A : Type} (i : nat) (v : A) (l : list A) :
  (i < length l)%nat -> firstn (S i) (upd i v l) = firstn i l ++ [v].
Proof.
  revert i. induction l as [|x r IH]; intros i Hi; [simpl in Hi; lia|].
  destruct i; [reflexivity|]. simpl in Hi. cbn [upd].
  change (firstn (S (S i)) (x :: upd i v r)) with (x :: firstn (S i) (upd i v r)).
  rewrite IH by lia. reflexivity.
Qed.

Lemma upd_not_nil {A : Type} (i : nat) (v : A) (l : list A) : l <> [] -> upd i v l <> [].
Proof. destruct l; [congruence|]. destruct i; discriminate. Qed.

Lemma alloc_slots_same k n : forall s t,
  same_machine s t ->
  fst (alloc_slots k n s) = fst (alloc_slots k n t) /\
  same_machine (snd (alloc_slots k n s)) (snd (alloc_slots k n t)).
Proof.
  induction k as [|k IH]; intros s t H; [split; [reflexivity | exact H]|].
  cbn [alloc_slots]. cbv zeta. unfold malloc.
  pose proof H as (Hc & Hn & Hh & Hb & Ho & Hr & Hf).
  rewrite Hh, Hb. destruct (heap_ok t (brk t)).
  - apply IH. unfold same_machine. st_simpl. repeat split; congruence.
  - cbn [fst snd]. split; [reflexivity|].
    unfold same_machine. st_simpl. repeat split; congruence.
Qed.

Lemma pfd_store_alloc_same n s t :
  same_machine s t ->
  match pfd_store_alloc n s, pfd_store_alloc n t with
  | inl s1, inl t1 => same_run n s1 t1
  | inr (x, s1), inr (y, t1) => x = y /\ same_machine s1 t1
  | _, _ => False
  end.
Proof.
  intros H.
  pose proof (pfd_store_alloc_spec n s) as Ss.
  pose proof (pfd_store_alloc_spec n t) as St.
  revert Ss St. rewrite !pfd_store_alloc_unfold. cbv zeta.
  pose proof H as (Hc & Hn & Hh & Hb & Ho & Hr & Hf).
  rewrite Hh, Hb.
  match goal with |- context [alloc_slots _ _ ?x] => set (s2 := x) end.
  match goal with |- context [alloc_slots _ _ (set_brk ?b (if ?c then ?u else ?v))] =>
    set (t2 := set_brk b (if c then u else v)) end.
  assert (H2 : same_machine s2 t2).
  { unfold s2, t2. destruct (heap_ok t (brk t));
      unfold same_machine; st_simpl; repeat split; congruence. }
  destruct (negb (heap_ok t (brk t) && heap_ok t (S (brk t)))).
  { intros _ _. split; [reflexivity | exact H2]. }
  destruct (alloc_slots_same PFD_NUM_STORES n s2 t2 H2) as [E1 E2].
  destruct (alloc_slots PFD_NUM_STORES n s2) as [os s3].
  destruct (alloc_slots PFD_NUM_STORES n t2) as [ot t3].
  cbn [fst snd] in E1, E2. subst ot. destruct os.
  - intros Ss St.
    destruct (Ss _ eq_refl) as (_ & S2 & S3 & _ & _ & _ & _ & _ & _ & S10 & S11 & S12).
    destruct (St _ eq_refl) as (_ & T2 & T3 & _ & _ & _ & _ & _ & _ & T10 & T11 & T12).
    unfold same_run. split.
    { unfold same_machine in *. st_simpl. exact E2. }
    rewrite S2, T2. unfold fresh_block. cbn [PFD_NUM_STORES seq map].
    repeat split; try congruence; discriminate.
  - intros _ _. split; [reflexivity | exact E2].
Qed.

(** One probe of the loop of l.181-186 writes entry [i] of slot 0 with a
    value that only the counter decides. *)
Lemma probe_same n i s t :
  same_run n s t -> (i < n)%nat ->
  firstn i (slot 0 s) = firstn i (slot 0 t) ->
  same_run n (PFDO 0 i (PFDI 0 s)) (PFDO 0 i (PFDI 0 t)) /\
  firstn (S i) (slot 0 (PFDO 0 i (PFDI 0 s))) = firstn (S i) (slot 0 (PFDO 0 i (PFDI 0 t))).
Proof.
  intros (Hm & Hcor & Hs & Ht & Hlen & Hps & Hpt & Ls & Lt) Hi Hfirst.
  pose proof Hm as (Hc & Hn & Hh & Hb & Ho & Hr & Hf).
  unfold PFDO, PFDI, getticks, set_slot. st_simpl.
  assert (Ns : nth 0 (upd 0 (wrap64 (clock s (now s))) (_pfd_s s)) 0
               = wrap64 (clock s (now s))).
  { destruct (_pfd_s s); [congruence | reflexivity]. }
  assert (Nt : nth 0 (upd 0 (wrap64 (clock t (now t))) (_pfd_s t)) 0
               = wrap64 (clock t (now t))).
  { destruct (_pfd_s t); [congruence | reflexivity]. }
  rewrite Ns, Nt.
  unfold same_run, same_machine, slot in *. st_simpl.
  rewrite !(slot_upd_0 _ _ Hs), !(slot_upd_0 _ _ Ht), !upd_length.
  rewrite !firstn_upd by lia. rewrite Hfirst, Hc, Hn.
  repeat split; try congruence; apply upd_not_nil; assumption.
Qed.

Lemma measure_loop_same n k : forall i s t,
  same_run n s t -> (i + k = n)%nat ->
  firstn i (slot 0 s) = firstn i (slot 0 t) ->
  same_run n (measure_loop k i s) (measure_loop k i t) /\
  slot 0 (measure_loop k i s) = slot 0 (measure_loop k i t).
Proof.
  induction k as [|k IH]; intros i s t H Hk Hfirst.
  - cbn [measure_loop]. split; [exact H|].
    destruct H as (_ & _ & _ & _ & _ & _ & _ & Ls & Lt).
    rewrite <- (firstn_all (slot 0 s)), <- (firstn_all (slot 0 t)), Ls, Lt.
    replace n with i by lia. exact Hfirst.
  - cbn [measure_loop].
    destruct (probe_same n i s t H) as [H1 H2]; [lia | exact Hfirst |].
    apply IH; [exact H1 | lia | exact H2].
Qed.

Lemma measure_round_same n s t :
  same_run n s t ->
  same_run n (measure_round n s) (measure_round n t) /\
  slot 0 (measure_round n s) = slot 0 (measure_round n t).
Proof.
  intros H. destruct (measure_loop_same n n 0 s t H) as [H1 H2]; [lia | reflexivity |].
  unfold measure_round. split; [|exact H2].
  unfold same_run, same_machine, slot in *. st_simpl.
  repeat split; try apply H1. f_equal. apply H1.
Qed.

Lemma median_same samples n s t :
  same_run n s t -> slot 0 s = slot 0 t ->
  fst (median_non_zero_ticks samples s) = fst (median_non_zero_ticks samples t) /\
  same_run n (snd (median_non_zero_ticks samples s)) (snd (median_non_zero_ticks samples t)) /\
  slot 0 (snd (median_non_zero_ticks samples s))
  = slot 0 (snd (median_non_zero_ticks samples t)).
Proof.
  intros H Hslot. unfold median_non_zero_ticks.
  destruct (Z.of_nat (length samples) =? 0);
    [cbn [fst snd]; split; [reflexivity | split; assumption]|].
  unfold malloc. pose proof H as ((Hc & Hn & Hh & Hb & Ho & Hr & Hf) & _).
  rewrite Hh, Hb.
  assert (K : same_run n (set_brk (S (brk t)) s) (set_brk (S (brk t)) t) /\
              slot 0 (set_brk (S (brk t)) s) = slot 0 (set_brk (S (brk t)) t)).
  { split; [|exact Hslot].
    unfold same_run, same_machine, slot in *. st_simpl. intuition congruence. }
  destruct (heap_ok t (brk t)); cbn [negb]; [|cbn [fst snd]; split; [reflexivity | exact K]].
  match goal with |- context [if ?c then _ else _] => destruct c end;
    cbn [fst snd]; (split; [reflexivity | exact K]).
Qed.

Lemma same_run_printf n l s t :
  same_run n s t -> slot 0 s = slot 0 t ->
  same_run n (printf l s) (printf l t) /\ slot 0 (printf l s) = slot 0 (printf l t).
Proof.
  intros H Hslot. split; [|exact Hslot].
  unfold same_run, same_machine, slot in *. st_simpl. intuition congruence.
Qed.

Lemma same_run_count_failed n s t :
  same_run n s t -> slot 0 s = slot 0 t ->
  same_run n (count_failed s) (count_failed t) /\
  slot 0 (count_failed s) = slot 0 (count_failed t).
Proof.
  intros H Hslot. split; [|exact Hslot].
  unfold same_run, same_machine, slot in *. st_simpl. intuition congruence.
Qed.

Lemma manual_correction_same a n s t :
  same_run n s t -> slot 0 s = slot 0 t ->
  fst (manual_correction a s) = fst (manual_correction a t) /\
  same_run n (snd (manual_correction a s)) (snd (manual_correction a t)) /\
  slot 0 (snd (manual_correction a s)) = slot 0 (snd (manual_correction a t)).
Proof.
  intros H Hslot. unfold manual_correction.
  destruct (same_run_printf n warn_manual s t H Hslot) as [P1 P2].
  rewrite P2.
  destruct (median_same (slot 0 (printf warn_manual t)) n _ _ P1 P2) as (M1 & M2 & M3).
  destruct (median_non_zero_ticks _ (printf warn_manual s)) as [m s1].
  destruct (median_non_zero_ticks _ (printf warn_manual t)) as [m' t1].
  cbn [fst snd] in M1, M2, M3. subst m'.
  destruct (isfinite m && dlt (of_Z 0) m).
  - cbn [fst snd]. split; [reflexivity|]. apply same_run_printf; assumption.
  - destruct (arch_default a); cbn [fst snd]; (split; [reflexivity|]).
    + split; assumption.
    + apply same_run_printf; assumption.
Qed.

Lemma set_slot_same n vals s t :
  same_run n s t -> length vals = n ->
  same_run n (set_slot 0 vals s) (set_slot 0 vals t) /\
  slot 0 (set_slot 0 vals s) = slot 0 (set_slot 0 vals t).
Proof.
  intros (Hm & Hcor & Hs & Ht & Hlen & Hps & Hpt & Ls & Lt) Hv.
  rewrite !slot_set_slot by assumption. split; [|reflexivity].
  unfold same_run. rewrite !slot_set_slot by assumption.
  unfold same_machine, set_slot in *. st_simpl. rewrite !upd_length.
  repeat split; try apply Hm; try assumption; apply upd_not_nil; assumption.
Qed.

(** The [retry] loop: what it returns and what it leaves in slot 0 are
    decided by the counter and the allocator. *)
Lemma calibrate_same a n tries : forall pw s t,
  same_run n s t ->
  fst (calibrate a n tries pw s) = fst (calibrate a n tries pw t) /\
  same_run n (snd (calibrate a n tries pw s)) (snd (calibrate a n tries pw t)) /\
  slot 0 (snd (calibrate a n tries pw s)) = slot 0 (snd (calibrate a n tries pw t)).
Proof.
  induction tries as [|k IH]; intros pw s t H; rewrite !calibrate_unfold; cbv zeta;
    destruct (measure_round_same n s t H) as [M1 M2]; rewrite M2;
    set (raw := slot 0 (measure_round n t));
    assert (Lraw : length (fst (get_abs_deviation raw)) = n)
      by (rewrite get_abs_deviation_vals, length_map; apply M1);
    destruct (set_slot_same n (fst (get_abs_deviation raw)) _ _ M1 Lraw) as [S1 S2];
    destruct (same_run_count_failed n _ _ S1 S2) as [F1 F2];
    destruct (dlt (of_Z PFD_CORRECTION_CONF) (quality (snd (get_abs_deviation raw)))).
  - match goal with |- context [manual_correction a (if ?c then printf ?l ?u else ?u)] =>
      assert (W : same_run n (if c then printf l u else u)
                    (if c then printf l (count_failed (set_slot 0 (fst (get_abs_deviation raw))
                                                         (measure_round n t)))
                     else count_failed (set_slot 0 (fst (get_abs_deviation raw))
                                          (measure_round n t))) /\
                  slot 0 (if c then printf l u else u)
                  = slot 0 (if c then printf l (count_failed (set_slot 0 (fst (get_abs_deviation raw))
                                                         (measure_round n t)))
                     else count_failed (set_slot 0 (fst (get_abs_deviation raw))
                                          (measure_round n t))))
        by (destruct c; [apply same_run_printf; assumption | split; assumption])
    end.
    destruct W as [W1 W2].
    destruct (manual_correction_same a n _ _ W1 W2) as (C1 & C2 & C3).
    destruct (manual_correction a _) as [m s5].
    destruct (manual_correction a _) as [m' t5].
    cbn [fst snd] in C1, C2, C3. subst m'. cbv beta iota. cbn [fst snd].
    split; [reflexivity | split; assumption].
  - cbn [fst snd]. split; [reflexivity | split; assumption].
  - apply IH. destruct (pw =? 1); [apply same_run_printf; assumption | assumption].
  - cbn [fst snd]. split; [reflexivity | split; assumption].
Qed.

(** ** The last part of [pfd_store_init] *)

Lemma min_delta_loop_same k : forall best s t,
  same_outcome s t ->
  fst (min_delta_loop k best s) = fst (min_delta_loop k best t) /\
  same_outcome (snd (min_delta_loop k best s)) (snd (min_delta_loop k best t)).
Proof.
  induction k as [|k IH]; intros best s t H; [split; [reflexivity | exact H]|].
  cbn [min_delta_loop]. unfold getticks. cbv beta iota zeta. st_simpl.
  pose proof H as ((Hc & Hn & _) & _). rewrite Hc, Hn.
  apply IH. rewrite <- Hn. same_tac.
Qed.

Lemma measure_minimum_tick_delta_same k s t :
  same_outcome s t ->
  fst (measure_minimum_tick_delta k s) = fst (measure_minimum_tick_delta k t) /\
  same_outcome (snd (measure_minimum_tick_delta k s)) (snd (measure_minimum_tick_delta k t)).
Proof.
  intros H. unfold measure_minimum_tick_delta.
  destruct (min_delta_loop_same k UINT64_MAX s t H) as [E1 E2].
  destruct (min_delta_loop k UINT64_MAX s) as [b s1].
  destruct (min_delta_loop k UINT64_MAX t) as [b' t1].
  cbn [fst snd] in *. subst b'. split; [reflexivity | exact E2].
Qed.

Lemma same_outcome_printf l s t :
  same_outcome s t -> same_outcome (printf l s) (printf l t).
Proof. intros H. same_tac. Qed.

Lemma same_outcome_correction c s t :
  same_outcome s t -> same_outcome (set_pfd_correction c s) (set_pfd_correction c t).
Proof. intros H. same_tac. Qed.

Lemma sanitize_same x s t :
  same_outcome s t ->
  fst (sanitize x s) = fst (sanitize x t) /\
  same_outcome (snd (sanitize x s)) (snd (sanitize x t)).
Proof.
  intros H. unfold sanitize.
  destruct (negb (isfinite x)).
  { cbn [fst snd]. split; [reflexivity | apply same_outcome_printf; exact H]. }
  destruct (dle x (of_Z 0)).
  { destruct (measure_minimum_tick_delta_same 64 s t H) as [E1 E2].
    destruct (measure_minimum_tick_delta 64 s) as [m s1].
    destruct (measure_minimum_tick_delta 64 t) as [m' t1].
    cbn [fst snd] in E1, E2. subst m'.
    destruct (0 <? m); cbn [fst snd];
      (split; [reflexivity | apply same_outcome_printf; exact E2]). }
  destruct (dlt x (of_Z 1)); cbn [fst snd].
  - split; [reflexivity | apply same_outcome_printf; exact H].
  - split; [reflexivity | exact H].
Qed.

Lemma round_correction_same x s t :
  same_outcome s t ->
  fst (round_correction x s) = fst (round_correction x t) /\
  same_outcome (snd (round_correction x s)) (snd (round_correction x t)).
Proof.
  intros H. unfold round_correction.
  destruct (dle (of_Z UINT64_MAX) x).
  { cbn [fst snd]. split; [reflexivity | apply same_outcome_printf; exact H]. }
  destruct (double_to_ticks (dadd x c_0_5) =? 0); cbn [fst snd].
  - split; [reflexivity | apply same_outcome_printf; exact H].
  - split; [reflexivity | exact H].
Qed.

Lemma enforce_positive_same q s t :
  same_outcome s t ->
  fst (enforce_positive q s) = fst (enforce_positive q t) /\
  same_outcome (snd (enforce_positive q s)) (snd (enforce_positive q t)).
Proof.
  intros H. unfold enforce_positive.
  pose proof H as (_ & Hcor & _). rewrite Hcor.
  destruct (pfd_correction t <=? 0); [|split; [reflexivity | exact H]].
  destruct (measure_minimum_tick_delta_same 64 s t H) as [E1 E2].
  destruct (measure_minimum_tick_delta 64 s) as [m s1].
  destruct (measure_minimum_tick_delta 64 t) as [m' t1].
  cbn [fst snd] in E1, E2. subst m'.
  destruct (0 <? m); cbv zeta; cbn [fst snd];
    (split; [reflexivity
            | apply same_outcome_printf, same_outcome_correction; exact E2]).
Qed.

Lemma finish_same x q s t :
  same_outcome s t ->
  match finish x q s, finish x q t with
  | Returns s', Returns t' => same_outcome s' t'
  | AssertionFailed u s', AssertionFailed v t' => u = v /\ same_outcome s' t'
  | _, _ => False
  end.
Proof.
  intros H. unfold finish.
  destruct (sanitize_same x s t H) as [A1 A2].
  destruct (sanitize x s) as [c s1]. destruct (sanitize x t) as [c' t1].
  cbn [fst snd] in A1, A2. subst c'.
  destruct (round_correction_same c s1 t1 A2) as [B1 B2].
  destruct (round_correction c s1) as [k s2]. destruct (round_correction c t1) as [k' t2].
  cbn [fst snd] in B1, B2. subst k'.
  assert (C : same_outcome
                (set_pfd_correction k
                   (if dle x (of_Z 0) then printf warn_le_zero_default s2 else s2))
                (set_pfd_correction k
                   (if dle x (of_Z 0) then printf warn_le_zero_default t2 else t2))).
  { apply same_outcome_correction.
    destruct (dle x (of_Z 0)); [apply same_outcome_printf|]; exact B2. }
  destruct (enforce_positive_same q _ _ C) as [D1 D2].
  destruct (enforce_positive q _) as [q1 s4]. destruct (enforce_positive q _) as [q1' t4].
  cbn [fst snd] in D1, D2. subst q1'.
  pose proof D2 as (_ & Hcor & _). rewrite Hcor.
  destruct (0 <? pfd_correction t4).
  - apply same_outcome_printf. exact D2.
  - split; [reflexivity | exact D2].
Qed.

(** X15. What [pfd_store_init] does is decided by the cycle counter and
    the allocator alone.  Started in two states that agree on those, on
    what has been printed and on the round counts, but hold any store, any
    start marks and any correction from earlier use, and find any data in
    the memory they are given, the two calls end the same way: they fail
    the same assertion, or both return with the same correction, the same
    samples in slot 0, the same number of slots and the same output, after
    the same number of rounds, counter readings and allocations. *)
Theorem reinit_forgets_previous_store (a : arch) (num_entries : nat) (s t : state) :
  same_machine s t ->
  match pfd_store_init a num_entries s, pfd_store_init a num_entries t with
  | Returns s', Returns t' =>
      same_machine s' t' /\ pfd_correction s' = pfd_correction t' /\
      slot 0 s' = slot 0 t' /\ length (pfd_store s') = length (pfd_store t')
  | AssertionFailed u s', AssertionFailed v t' => u = v /\ same_machine s' t'
  | _, _ => False
  end.
Proof.
  intros H. unfold pfd_store_init.
  pose proof (pfd_store_alloc_same num_entries s t H) as Ha.
  destruct (pfd_store_alloc num_entries s) as [s1|[u s1]];
    destruct (pfd_store_alloc num_entries t) as [t1|[v t1]]; try contradiction;
    [|exact Ha].
  destruct (calibrate_same a num_entries 10 0 s1 t1 Ha) as (C1 & C2 & C3).
  destruct (calibrate a num_entries 10 0 s1) as [[x q] s2].
  destruct (calibrate a num_entries 10 0 t1) as [[x' q'] t2].
  cbn [fst snd] in C1, C2, C3. injection C1 as <- <-.
  assert (E : same_outcome s2 t2).
  { destruct C2 as (M & Hcor & _ & _ & Hlen & _). repeat split; try apply M; assumption. }
  pose proof (finish_same x q s2 t2 E) as F.
  destruct (finish x q s2) as [s3|u s3]; destruct (finish x q t2) as [t3|v t3];
    try contradiction.
  - exact F.
  - destruct F as [F1 F2]. split; [exact F1 | apply F2].
Qed.

Lemma reinit_forgets_previous_store_witness :
  same_machine (boot (tsc_of noisy_then_steady) always_ok)
               (reused (tsc_of noisy_then_steady) always_ok) /\
  match pfd_store_init DEFAULT 4 (boot (tsc_of noisy_then_steady) always_ok),
        pfd_store_init DEFAULT 4 (reused (tsc_of noisy_then_steady) always_ok) with
  | Returns s', Returns t' =>
      same_machine s' t' /\ pfd_correction s' = pfd_correction t' /\
      slot 0 s' = slot 0 t' /\ length (pfd_store s') = length (pfd_store t')
  | AssertionFailed u s', AssertionFailed v t' => u = v /\ same_machine s' t'
  | _, _ => False
  end.
Proof.
  split.
  - unfold same_machine, boot, reused. simpl. repeat split; reflexivity.
  - apply (reinit_forgets_previous_store DEFAULT 4).
    unfold same_machine, boot, reused. simpl. repeat split; reflexivity.
Defined.
